(** * vultr/lib/servers.go: the server entity decoder, the bandwidth join,
      the request construction of [CreateServer] and the other operations
      on a server

    A shallow embedding of [vendor/github.com/JamesClonk/vultr/lib/servers.go].
    Go values are modelled as follows.
    - [string] is a sequence of bytes: Stdlib's [string].
    - [int] and [int64] are [Z]; the range matters in [strconv.ParseInt],
      which reports values outside of 64 bits, and in the conversion
      [int(i)] of an [int64], which keeps the bits that the [int] of the
      target has: [int_of_int64], at 32 or 64 bits.
    - [float64] is Stdlib's [spec_float] at the binary64 format.
    - [map[string]T] is stdpp's [gmap string T]; reading a missing key gives
      the zero value of [T], as in Go.
    - [interface{}] holding a decoded JSON document is the inductive [value].
    - a run-time panic (index out of range) is [None] in the [option] monad.
    - a method with a pointer receiver takes the receiver's state and
      returns the new one together with its [error]. *)

From Stdlib Require Import ZArith Lia Ascii String List Floats.SpecFloat.
From stdpp Require Import gmap strings list fin_maps.

#[local] Set Warnings "-register-all".
#[local] Open Scope string_scope.


(** ** Errors *)

(** The two causes a [strconv.NumError] wraps. *)
Inductive strconv_cause := ErrSyntax | ErrRange.

(** A Go [error] value.  [NumError] is [*strconv.NumError]; the errors of
    [encoding/json] and of the HTTP transport are opaque to this file. *)
Inductive error :=
| NumError (Func Num : string) (Err : strconv_cause)
| OtherError (msg : string).

(** ** Package strconv

    The standard library is not part of the repository.  [ParseInt],
    [ParseFloat] and [FormatFloat] are modelled after their documented
    behaviour and the structure of their Go sources: the lexing follows the
    Go code, the conversions between decimals and binary64 are the exact
    (correctly rounded, resp. shortest round-tripping) ones that the Go
    implementations compute by faster means. *)

Module strconv.
#[local] Open Scope Z_scope.

(** *** Bytes *)

Definition byte (c : ascii) : Z := Z.of_N (N_of_ascii c).
Definition char (z : Z) : ascii := ascii_of_N (Z.to_N z).

(** [lower(c) = c | ('x' - 'X')] *)
Definition lower (c : ascii) : Z := Z.lor (byte c) 32.

Definition is_digit (c : ascii) : bool := (48 <=? byte c) && (byte c <=? 57).
Definition is_hex_letter (c : ascii) : bool := (97 <=? lower c) && (lower c <=? 102).

Definition syntaxError (fn str : string) : error := NumError fn str ErrSyntax.
Definition rangeError (fn str : string) : error := NumError fn str ErrRange.

(** *** ParseInt(s, 10, 64) *)

Definition maxUint64 : Z := 2 ^ 64 - 1.

(** The digit loop of [ParseUint] at base 10 and 64 bits; [n] is the value
    read so far.  A byte that is no decimal digit is a syntax error, a value
    that leaves 64 bits a range error, whichever comes first. *)
Fixpoint ParseUint_loop (s : string) (n : Z) : strconv_cause + Z :=
  match s with
  | EmptyString => inr n
  | String c rest =>
      if negb (is_digit c) then inl ErrSyntax
      else if maxUint64 / 10 + 1 <=? n then inl ErrRange
      else
        let n1 := n * 10 + (byte c - 48) in
        if maxUint64 <? n1 then inl ErrRange
        else ParseUint_loop rest n1
  end.

Definition ParseUint (s : string) : strconv_cause + Z :=
  match s with
  | EmptyString => inl ErrSyntax
  | _ => ParseUint_loop s 0
  end.

(** [strconv.ParseInt(s0, 10, 64)]: the value and the error. *)
Definition ParseInt (s0 : string) : Z * option error :=
  match s0 with
  | EmptyString => (0, Some (syntaxError "ParseInt" s0))
  | String c rest =>
      let neg := Ascii.eqb c "-" in
      let s := if Ascii.eqb c "+" || neg then rest else s0 in
      let cutoff := 2 ^ 63 in
      match ParseUint s with
      | inl ErrSyntax => (0, Some (syntaxError "ParseInt" s0))
      | inl ErrRange =>
          if neg then (- cutoff, Some (rangeError "ParseInt" s0))
          else (cutoff - 1, Some (rangeError "ParseInt" s0))
      | inr un =>
          if negb neg && (cutoff <=? un) then (cutoff - 1, Some (rangeError "ParseInt" s0))
          else if neg && (cutoff <? un) then (- cutoff, Some (rangeError "ParseInt" s0))
          else (if neg then - un else un, None)
      end
  end.

(** *** Rounding to binary64 *)

(** Exponent of the least subnormal, [2^-1074], and of the unit in the last
    place of the greatest finite number, [(2^53 - 1) * 2^971]. *)
Definition emin : Z := -1074.
Definition emax : Z := 971.

(** [x * 2^k] for a positive [k], and [x] otherwise: the fraction
    [shl n (-k) / shl d k] is [n / d / 2^k] for every [k]. *)
Definition shl (x k : Z) : Z := x * 2 ^ Z.max k 0.

(** [floor (log2 (n / d))] for positive [n] and [d]. *)
Definition ilog2_ratio (n d : Z) : Z :=
  let k := Z.log2 n - Z.log2 d in
  if shl d k <=? shl n (- k) then k else k - 1.

(** Round-to-nearest-even of the positive rational [n / d] to a mantissa of
    at most 53 bits and its exponent: the result [(m, e)] stands for
    [m * 2^e], with [0 <= m < 2^53] and [emin <= e]. *)
Definition round_pos (n d : Z) : Z * Z :=
  let e := Z.max (ilog2_ratio n d - 52) emin in
  let num := shl n (- e) in
  let den := shl d e in
  let q := num / den in
  let r := num mod den in
  let m := if 2 * r <? den then q
           else if den <? 2 * r then q + 1
           else if Z.even q then q else q + 1 in
  if m =? 2 ^ 53 then (2 ^ 52, e + 1) else (m, e).

(** The float with sign [neg] nearest to [n / d] ([0 <= n], [0 < d]), and
    whether the value overflowed to an infinity. *)
Definition round_float (neg : bool) (n d : Z) : spec_float * bool :=
  if n <=? 0 then (S754_zero neg, false)
  else
    let '(m, e) := round_pos n d in
    if m =? 0 then (S754_zero neg, false)
    else if emax <? e then (S754_infinity neg, true)
    else (S754_finite neg (Z.to_pos m) e, false).

(** [mant * base^exp] as a fraction. *)
Definition scale (base mant exp : Z) : Z * Z :=
  (mant * base ^ Z.max exp 0, base ^ Z.max (- exp) 0).

(** The float nearest to [mant * 10^exp]. *)
Definition round_decimal (neg : bool) (mant exp : Z) : spec_float * bool :=
  let '(n, d) := scale 10 mant exp in round_float neg n d.

(** The float nearest to [mant * 2^exp]. *)
Definition round_binary (neg : bool) (mant exp : Z) : spec_float * bool :=
  let '(n, d) := scale 2 mant exp in round_float neg n d.

(** *** ParseFloat(s, 64) *)

(** [commonPrefixLenIgnoreCase(s, prefix)], [prefix] being in lower case. *)
Fixpoint commonPrefixLenIgnoreCase (s prefix : string) : nat :=
  match s, prefix with
  | String c s', String p prefix' =>
      let c' := if (65 <=? byte c) && (byte c <=? 90) then byte c + 32 else byte c in
      if c' =? byte p then S (commonPrefixLenIgnoreCase s' prefix') else O
  | _, _ => O
  end.

(** The infinities: ["inf"] or ["infinity"] in any case; a longer common
    prefix with ["infinity"] consumes ["inf"] only. *)
Definition special_inf (neg : bool) (nsign : nat) (s : string) : option (spec_float * nat) :=
  let n := commonPrefixLenIgnoreCase s "infinity" in
  let n := if (3 <? n)%nat && (n <? 8)%nat then 3%nat else n in
  if (n =? 3)%nat || (n =? 8)%nat then Some (S754_infinity neg, (nsign + n)%nat) else None.

(** [special]: the value and the number of bytes consumed. *)
Definition special (s : string) : option (spec_float * nat) :=
  match s with
  | EmptyString => None
  | String c rest =>
      if Ascii.eqb c "+" || Ascii.eqb c "-" then special_inf (Ascii.eqb c "-") 1 rest
      else if Ascii.eqb c "i" || Ascii.eqb c "I" then special_inf false 0 s
      else if Ascii.eqb c "n" || Ascii.eqb c "N" then
        if (commonPrefixLenIgnoreCase s "nan" =? 3)%nat then Some (S754_nan, 3%nat) else None
      else None
  end.

(** What [underscoreOK] remembers of the previous byte. *)
Inductive saw := SawStart | SawDigit | SawUnderscore | SawOther.

Fixpoint underscoreOK_loop (hex : bool) (s : string) (sw : saw) : bool :=
  match s with
  | EmptyString => match sw with SawUnderscore => false | _ => true end
  | String c rest =>
      if is_digit c || (hex && is_hex_letter c) then underscoreOK_loop hex rest SawDigit
      else if Ascii.eqb c "_" then
        match sw with
        | SawDigit => underscoreOK_loop hex rest SawUnderscore
        | _ => false
        end
      else
        match sw with
        | SawUnderscore => false
        | _ => underscoreOK_loop hex rest SawOther
        end
  end.

(** [underscoreOK]: underscores only between digits, or between a base
    prefix and a digit. *)
Definition underscoreOK (s : string) : bool :=
  let s :=
    match s with
    | String c rest => if Ascii.eqb c "-" || Ascii.eqb c "+" then rest else s
    | EmptyString => s
    end in
  match s with
  | String a (String b rest) =>
      if Ascii.eqb a "0" && ((lower b =? 98) || (lower b =? 111) || (lower b =? 120))
      then underscoreOK_loop (lower b =? 120) rest SawDigit
      else underscoreOK_loop false s SawStart
  | _ => underscoreOK_loop false s SawStart
  end.

(** The variables of the mantissa loop of [readFloat].  The mantissa keeps
    every digit: Go keeps 19 of them and a truncation flag, and comes back
    for the others when they matter. *)
Record mant_state := MantState {
  sawdot : bool;
  sawdigits : bool;
  nd : Z;
  dp : Z;
  mantissa : Z;
  underscores : bool
}.

(** The mantissa loop: the state at the first byte that is no part of the
    mantissa, and the input from that byte on. *)
Fixpoint read_mantissa (hex : bool) (s : string) (st : mant_state) : mant_state * string :=
  match s with
  | EmptyString => (st, s)
  | String c rest =>
      if Ascii.eqb c "_" then
        read_mantissa hex rest
          (MantState (sawdot st) (sawdigits st) (nd st) (dp st) (mantissa st) true)
      else if Ascii.eqb c "." then
        if sawdot st then (st, s)
        else read_mantissa hex rest
               (MantState true (sawdigits st) (nd st) (nd st) (mantissa st) (underscores st))
      else if is_digit c then
        if Ascii.eqb c "0" && (nd st =? 0) then
          read_mantissa hex rest
            (MantState (sawdot st) true (nd st) (dp st - 1) (mantissa st) (underscores st))
        else
          read_mantissa hex rest
            (MantState (sawdot st) true (nd st + 1) (dp st)
               (mantissa st * (if hex then 16 else 10) + (byte c - 48)) (underscores st))
      else if hex && is_hex_letter c then
        read_mantissa hex rest
          (MantState (sawdot st) true (nd st + 1) (dp st)
             (mantissa st * 16 + (lower c - 97 + 10)) (underscores st))
      else (st, s)
  end.

(** The digits of the exponent; the value stops growing at 10000. *)
Fixpoint read_exp_digits (s : string) (e : Z) (us : bool) : Z * bool * string :=
  match s with
  | EmptyString => (e, us, s)
  | String c rest =>
      if is_digit c then
        read_exp_digits rest (if e <? 10000 then e * 10 + (byte c - 48) else e) us
      else if Ascii.eqb c "_" then read_exp_digits rest e true
      else (e, us, s)
  end.

(** What follows the exponent character: a sign and at least one digit. *)
Definition read_exponent (s : string) : option (Z * bool * string) :=
  match s with
  | EmptyString => None
  | String c rest =>
      let esign := if Ascii.eqb c "-" then -1 else 1 in
      let s1 := if Ascii.eqb c "+" || Ascii.eqb c "-" then rest else s in
      match s1 with
      | EmptyString => None
      | String c1 _ =>
          if is_digit c1 then
            let '(e, us, r) := read_exp_digits s1 0 false in Some (e * esign, us, r)
          else None
      end
  end.

(** [i+2 < len(s) && s[i] == '0' && lower(s[i+1]) == 'x'] *)
Definition has_hex_prefix (s : string) : bool :=
  match s with
  | String a (String b (String _ _)) => Ascii.eqb a "0" && (lower b =? 120)
  | _ => false
  end.

(** [readFloat]: mantissa, exponent (decimal, or binary for a hexadecimal
    mantissa), sign, whether the mantissa is hexadecimal, and the number of
    bytes consumed; [None] when the input does not start with a number. *)
Definition readFloat (s : string) : option (Z * Z * bool * bool * nat) :=
  match s with
  | EmptyString => None
  | String c0 rest0 =>
      let neg := Ascii.eqb c0 "-" in
      let s1 := if Ascii.eqb c0 "+" || neg then rest0 else s in
      let hex := has_hex_prefix s1 in
      let s2 := if hex then String.substring 2 (String.length s1 - 2) s1 else s1 in
      let '(st, r) := read_mantissa hex s2 (MantState false false 0 0 0 false) in
      if negb (sawdigits st) then None
      else
        let dp0 := if sawdot st then dp st else nd st in
        let dp1 := if hex then dp0 * 4 else dp0 in
        let ndMant := if hex then nd st * 4 else nd st in
        let finish (dp2 : Z) (us : bool) (r' : string) :=
          let n := (String.length s - String.length r')%nat in
          if us && negb (underscoreOK (String.substring 0 n s)) then None
          else Some (mantissa st, (if mantissa st =? 0 then 0 else dp2 - ndMant), neg, hex, n) in
        match r with
        | String c r1 =>
            if lower c =? (if hex then 112 else 101) then
              match read_exponent r1 with
              | None => None
              | Some (e, us, r2) => finish (dp1 + e) (underscores st || us) r2
              end
            else if hex then None
            else finish dp1 (underscores st) r
        | EmptyString => if hex then None else finish dp1 (underscores st) r
        end
  end.

(** [strconv.ParseFloat(s, 64)]: the value and the error.  A number that
    overflows is an infinity with a range error; one that underflows is a
    zero without error. *)
Definition ParseFloat (s : string) : spec_float * option error :=
  match special s with
  | Some (f, n) =>
      if (n =? String.length s)%nat then (f, None)
      else (S754_zero false, Some (syntaxError "ParseFloat" s))
  | None =>
      match readFloat s with
      | None => (S754_zero false, Some (syntaxError "ParseFloat" s))
      | Some (mant, exp, neg, hex, n) =>
          let '(f, ovf) :=
            if hex then round_binary neg mant exp else round_decimal neg mant exp in
          if negb (n =? String.length s)%nat then
            (S754_zero false, Some (syntaxError "ParseFloat" s))
          else (f, if ovf then Some (rangeError "ParseFloat" s) else None)
      end
  end.

(** *** FormatFloat(f, 'g', -1, 64) *)

(** The decimal [(N, p)], that is [N * 10^p], equal to [m * 2^e]. *)
Definition exact_decimal (m : positive) (e : Z) : Z * Z :=
  if 0 <=? e then (Z.pos m * 2 ^ e, 0) else (Z.pos m * 5 ^ (- e), e).

Fixpoint digits_aux (fuel : nat) (n : Z) (acc : list Z) : list Z :=
  match fuel with
  | O => acc
  | S fuel' =>
      if n <? 10 then n :: acc else digits_aux fuel' (n / 10) (n mod 10 :: acc)
  end.

(** The decimal digits of a positive number, most significant first. *)
Definition digits (n : Z) : list Z :=
  if n <=? 0 then [] else digits_aux (S (Z.to_nat (Z.log2 n))) n [].

(** Drop the trailing zeros of [N], moving them into the exponent. *)
Fixpoint trim_aux (fuel : nat) (N p : Z) : Z * Z :=
  match fuel with
  | O => (N, p)
  | S fuel' => if (N mod 10 =? 0) && (0 <? N) then trim_aux fuel' (N / 10) (p + 1) else (N, p)
  end.

Definition trim (N p : Z) : Z * Z := trim_aux (S (Z.to_nat (Z.log2 N))) N p.

(** Does [M * 10^q] parse to the positive float [m * 2^e]? *)
Definition rounds_to (m : positive) (e : Z) (M q : Z) : bool :=
  match round_decimal false M q with
  | (S754_finite _ m' e', _) => (Z.pos m' =? Z.pos m) && (e' =? e)
  | _ => false
  end.

(** The walk of [roundShortest] along the digits of the exact decimal
    [(N, p)] of [m * 2^e], [j] digits from its end: cut the decimal there
    when its truncation, or the truncation plus one unit, still parses to
    the float; when both do, take the nearer one (the even one on a tie).
    Go decides "still parses to the float" by comparing digits with the
    half-way points to the neighbouring floats. *)
Fixpoint shortest_from (m : positive) (e : Z) (N p : Z) (j : nat) : Z * Z :=
  match j with
  | O => (N, p)
  | S j' =>
      let w := 10 ^ Z.of_nat j in
      let down := N / w in
      let rem := N mod w in
      let q := p + Z.of_nat j in
      let okdown := (0 <? down) && rounds_to m e down q in
      let okup := rounds_to m e (down + 1) q in
      if okdown && okup then
        if (w <? 2 * rem) || ((w =? 2 * rem) && Z.odd down) then (down + 1, q) else (down, q)
      else if okdown then (down, q)
      else if okup then (down + 1, q)
      else shortest_from m e N p j'
  end.

(** The shortest decimal that parses to [m * 2^e], without trailing zeros. *)
Definition shortest (m : positive) (e : Z) : Z * Z :=
  let '(N, p) := exact_decimal m e in
  let '(M, q) := shortest_from m e N p (length (digits N)) in
  trim M q.

Definition digit_char (d : Z) : ascii := char (48 + d).

Definition string_of_digits (ds : list Z) : string :=
  fold_right (fun d s => String (digit_char d) s) EmptyString ds.

Definition zeros (n : nat) : string := string_of_digits (replicate n 0).

Definition sign_string (neg : bool) : string := if neg then "-" else "".

(** The digits of the exponent of [%e], [dd] or [ddd]. *)
Definition exponent_digits (exp : Z) : list Z :=
  if exp <? 10 then [0; exp]
  else if exp <? 100 then [exp / 10; exp mod 10]
  else [exp / 100; (exp / 10) mod 10; exp mod 10].

(** [%e]: [-d.ddddde±dd], for the digits [ds] and the decimal point [dp]
    (the value is [0.ds * 10^dp]). *)
Definition fmtE (neg : bool) (ds : list Z) (dp : Z) (prec : Z) : string :=
  let nd := Z.of_nat (length ds) in
  let first := match ds with d :: _ => digit_char d | [] => "0"%char end in
  let more :=
    if 0 <? prec then
      let m := Z.min nd (prec + 1) in
      let i := if 1 <? m then m else 1 in
      "." +:+ string_of_digits (take (Z.to_nat (i - 1)) (drop 1 ds))
          +:+ zeros (Z.to_nat (prec + 1 - i))
    else "" in
  let exp := if nd =? 0 then 0 else dp - 1 in
  let esign := if exp <? 0 then "-" else "+" in
  sign_string neg +:+ String first more +:+ "e" +:+ esign
    +:+ string_of_digits (exponent_digits (Z.abs exp)).

(** [%f]: [-ddddddd.ddddd]. *)
Definition fmtF (neg : bool) (ds : list Z) (dp : Z) (prec : Z) : string :=
  let nd := Z.of_nat (length ds) in
  let int :=
    if 0 <? dp then
      let m := Z.min nd dp in
      string_of_digits (take (Z.to_nat m) ds) +:+ zeros (Z.to_nat (dp - m))
    else "0" in
  let frac :=
    if 0 <? prec then
      "." +:+ string_of_digits
                (map (fun i => let j := dp + Z.of_nat i in
                               if (0 <=? j) && (j <? nd) then nth (Z.to_nat j) ds 0 else 0)
                     (seq 0 (Z.to_nat prec)))
    else "" in
  sign_string neg +:+ int +:+ frac.

(** [formatDigits] at the format ['g'] with the shortest precision: [%e]
    when the exponent is below -4 or at least 6, [%f] otherwise. *)
Definition formatDigits (neg : bool) (ds : list Z) (dp : Z) : string :=
  let prec := Z.of_nat (length ds) in
  let eprec := 6 in
  let exp := dp - 1 in
  if (exp <? -4) || (eprec <=? exp) then fmtE neg ds dp (prec - 1)
  else fmtF neg ds dp (Z.max (prec - dp) 0).

(** [strconv.FormatFloat(f, 'g', -1, 64)]. *)
Definition FormatFloat (f : spec_float) : string :=
  match f with
  | S754_nan => "NaN"
  | S754_infinity neg => if neg then "-Inf" else "+Inf"
  | S754_zero neg => formatDigits neg [] 0
  | S754_finite neg m e =>
      let '(N, p) := shortest m e in
      let ds := digits N in
      formatDigits neg ds (Z.of_nat (length ds) + p)
  end.

(** [strconv.FormatInt(i, 10)]. *)
Definition FormatInt (i : Z) : string :=
  if i =? 0 then "0"
  else sign_string (i <? 0) +:+ string_of_digits (digits (Z.abs i)).

End strconv.

(** ** Decoded JSON and package fmt *)

(** What [json.Unmarshal] stores into an [interface{}]: [nil] for [null],
    [bool], [float64] for every number, [string], [[]interface{}] and
    [map[string]interface{}]. *)
Inductive value :=
| VNil
| VBool (b : bool)
| VFloat (f : spec_float)
| VString (s : string)
| VSlice (l : list value)
| VMap (m : gmap string value).

Module fmt.

Fixpoint join (sep : string) (l : list string) : string :=
  match l with
  | [] => ""
  | [x] => x
  | x :: rest => x +:+ sep +:+ join sep rest
  end.

(** Insertion of a rendered map entry in the order of the keys. *)
Fixpoint insert_sorted (kv : string * string) (l : list (string * string))
    : list (string * string) :=
  match l with
  | [] => [kv]
  | kv' :: rest =>
      if String.leb (fst kv) (fst kv') then kv :: l else kv' :: insert_sorted kv rest
  end.

(** [fmt.Sprintf("%v", v)] for a decoded JSON value.  Elements of slices
    and maps are separated by a space; maps print their entries in the
    order of the keys. *)
Fixpoint Sprintf_v (v : value) : string :=
  match v with
  | VNil => "<nil>"
  | VBool b => if b then "true" else "false"
  | VFloat f => strconv.FormatFloat f
  | VString s => s
  | VSlice l => "[" +:+ join " " (map Sprintf_v l) +:+ "]"
  | VMap m =>
      "map["
      +:+ join " "
            (map (fun kv => fst kv +:+ ":" +:+ snd kv)
               (map_fold (fun k v' acc => insert_sorted (k, Sprintf_v v') acc) [] m))
      +:+ "]"
  end.

(** [fmt.Sprintf("%v", i)] for an [int]. *)
Definition Sprintf_int (i : Z) : string := strconv.FormatInt i.

End fmt.

(** ** Package encoding/base64 *)

Module base64.
#[local] Open Scope Z_scope.

Definition encodeStd : string :=
  "ABCDEFGHIJKLMNOPQRSTUVWXYZabcdefghijklmnopqrstuvwxyz0123456789+/".

(** The character of a 6-bit value. *)
Definition enc (v : Z) : ascii :=
  default "="%char (String.get (Z.to_nat (Z.land v 63)) encodeStd).

(** [StdEncoding.Encode]: three bytes give four characters, and the last
    one or two bytes are padded with [=]. *)
Fixpoint Encode (src : list Z) : string :=
  match src with
  | [] => ""
  | [a] =>
      let val := Z.shiftl a 16 in
      String (enc (Z.shiftr val 18)) (String (enc (Z.shiftr val 12)) "==")
  | [a; b] =>
      let val := Z.lor (Z.shiftl a 16) (Z.shiftl b 8) in
      String (enc (Z.shiftr val 18))
        (String (enc (Z.shiftr val 12)) (String (enc (Z.shiftr val 6)) "="))
  | a :: b :: c :: rest =>
      let val := Z.lor (Z.lor (Z.shiftl a 16) (Z.shiftl b 8)) c in
      String (enc (Z.shiftr val 18))
        (String (enc (Z.shiftr val 12))
           (String (enc (Z.shiftr val 6)) (String (enc val) (Encode rest))))
  end.

(** [StdEncoding.EncodeToString([]byte(s))]. *)
Definition EncodeToString (s : string) : string :=
  Encode (map strconv.byte (list_ascii_of_string s)).

End base64.

(** ** Package net/url *)

Module url.

(** [url.Values] is a [map[string][]string]. *)
Definition Add (key val : string) (v : gmap string (list string))
    : gmap string (list string) :=
  <[key := (default [] (v !! key) ++ [val])%list]> v.

Definition Set_ (key val : string) (v : gmap string (list string))
    : gmap string (list string) :=
  <[key := [val]]> v.

End url.

(** ** The entities *)

Module V6Network.
Record t := mk {
  Network : string;
  MainIP : string;
  NetworkSize : string
}.
End V6Network.

Module ServerOptions.
Record t := mk {
  IPXEChainURL : string;
  ISO : Z;
  Script : Z;
  UserData : string;
  Snapshot : string;
  SSHKey : string;
  IPV6 : bool;
  PrivateNetworking : bool;
  AutoBackups : bool;
  DontNotifyOnActivate : bool
}.
End ServerOptions.

Module Server.
Record t := mk {
  ID : string;
  Name : string;
  OS : string;
  RAM : string;
  Disk : string;
  MainIP : string;
  VCpus : Z;
  Location : string;
  RegionID : Z;
  DefaultPassword : string;
  Created : string;
  PendingCharges : spec_float;
  Status : string;
  Cost : string;
  CurrentBandwidth : spec_float;
  AllowedBandwidth : spec_float;
  NetmaskV4 : string;
  GatewayV4 : string;
  PowerStatus : string;
  ServerState : string;
  PlanID : Z;
  V6Networks : list V6Network.t;
  InternalIP : string;
  KVMUrl : string;
  AutoBackups : string;
  Tag : string
}.

(** [Server{}]: every field at the zero value of its type.  A nil slice
    and an empty slice are both the empty list. *)
Definition zero : t :=
  mk "" "" "" "" "" "" 0 "" 0 "" "" (S754_zero false) "" "" (S754_zero false)
     (S754_zero false) "" "" "" "" 0 [] "" "" "" "".

(** Assignments to single fields. *)
Definition set_Name (v : string) (s : t) : t :=
  mk (ID s) v (OS s) (RAM s) (Disk s) (MainIP s) (VCpus s) (Location s) (RegionID s)
     (DefaultPassword s) (Created s) (PendingCharges s) (Status s) (Cost s)
     (CurrentBandwidth s) (AllowedBandwidth s) (NetmaskV4 s) (GatewayV4 s)
     (PowerStatus s) (ServerState s) (PlanID s) (V6Networks s) (InternalIP s)
     (KVMUrl s) (AutoBackups s) (Tag s).

Definition set_VCpus (v : Z) (s : t) : t :=
  mk (ID s) (Name s) (OS s) (RAM s) (Disk s) (MainIP s) v (Location s) (RegionID s)
     (DefaultPassword s) (Created s) (PendingCharges s) (Status s) (Cost s)
     (CurrentBandwidth s) (AllowedBandwidth s) (NetmaskV4 s) (GatewayV4 s)
     (PowerStatus s) (ServerState s) (PlanID s) (V6Networks s) (InternalIP s)
     (KVMUrl s) (AutoBackups s) (Tag s).

Definition set_RegionID (v : Z) (s : t) : t :=
  mk (ID s) (Name s) (OS s) (RAM s) (Disk s) (MainIP s) (VCpus s) (Location s) v
     (DefaultPassword s) (Created s) (PendingCharges s) (Status s) (Cost s)
     (CurrentBandwidth s) (AllowedBandwidth s) (NetmaskV4 s) (GatewayV4 s)
     (PowerStatus s) (ServerState s) (PlanID s) (V6Networks s) (InternalIP s)
     (KVMUrl s) (AutoBackups s) (Tag s).

Definition set_PlanID (v : Z) (s : t) : t :=
  mk (ID s) (Name s) (OS s) (RAM s) (Disk s) (MainIP s) (VCpus s) (Location s)
     (RegionID s) (DefaultPassword s) (Created s) (PendingCharges s) (Status s)
     (Cost s) (CurrentBandwidth s) (AllowedBandwidth s) (NetmaskV4 s) (GatewayV4 s)
     (PowerStatus s) (ServerState s) v (V6Networks s) (InternalIP s)
     (KVMUrl s) (AutoBackups s) (Tag s).

Definition set_PendingCharges (v : spec_float) (s : t) : t :=
  mk (ID s) (Name s) (OS s) (RAM s) (Disk s) (MainIP s) (VCpus s) (Location s)
     (RegionID s) (DefaultPassword s) (Created s) v (Status s)
     (Cost s) (CurrentBandwidth s) (AllowedBandwidth s) (NetmaskV4 s) (GatewayV4 s)
     (PowerStatus s) (ServerState s) (PlanID s) (V6Networks s) (InternalIP s)
     (KVMUrl s) (AutoBackups s) (Tag s).

Definition set_CurrentBandwidth (v : spec_float) (s : t) : t :=
  mk (ID s) (Name s) (OS s) (RAM s) (Disk s) (MainIP s) (VCpus s) (Location s)
     (RegionID s) (DefaultPassword s) (Created s) (PendingCharges s) (Status s)
     (Cost s) v (AllowedBandwidth s) (NetmaskV4 s) (GatewayV4 s)
     (PowerStatus s) (ServerState s) (PlanID s) (V6Networks s) (InternalIP s)
     (KVMUrl s) (AutoBackups s) (Tag s).

Definition set_AllowedBandwidth (v : spec_float) (s : t) : t :=
  mk (ID s) (Name s) (OS s) (RAM s) (Disk s) (MainIP s) (VCpus s) (Location s)
     (RegionID s) (DefaultPassword s) (Created s) (PendingCharges s) (Status s)
     (Cost s) (CurrentBandwidth s) v (NetmaskV4 s) (GatewayV4 s)
     (PowerStatus s) (ServerState s) (PlanID s) (V6Networks s) (InternalIP s)
     (KVMUrl s) (AutoBackups s) (Tag s).
End Server.

(** ** Server.UnmarshalJSON *)

(** [fields[k]]: a missing key reads as the nil interface. *)
Definition field (fields : gmap string value) (k : string) : value :=
  default VNil (fields !! k).

(** The text a numeric field is parsed from:
    [value := fmt.Sprintf("%v", fields[k])], replaced by ["0"] when it is
    empty or ["<nil>"]. *)
Definition numeric_text (fields : gmap string value) (k : string) : string :=
  let value := fmt.Sprintf_v (field fields k) in
  if (String.length value =? 0)%nat || String.eqb value "<nil>" then "0" else value.

(** One element of [v6_networks]; elements that are no objects are skipped. *)
Definition decode_v6network (network : value) : option V6Network.t :=
  match network with
  | VMap network =>
      Some (V6Network.mk (fmt.Sprintf_v (field network "v6_network"))
                         (fmt.Sprintf_v (field network "v6_main_ip"))
                         (fmt.Sprintf_v (field network "v6_network_size")))
  | _ => None
  end.

(** The assignments after the last numeric field: they cannot fail.
    [V6Networks] is assigned only when [fields["v6_networks"]] is a slice. *)
Definition assign_text_fields (s : Server.t) (fields : gmap string value) : Server.t :=
  let text k := fmt.Sprintf_v (field fields k) in
  Server.mk (text "SUBID") (text "label") (text "os") (text "ram") (text "disk")
    (text "main_ip") (Server.VCpus s) (text "location") (Server.RegionID s)
    (text "default_password") (text "date_created") (Server.PendingCharges s)
    (text "status") (text "cost_per_month") (Server.CurrentBandwidth s)
    (Server.AllowedBandwidth s) (text "netmask_v4") (text "gateway_v4")
    (text "power_status") (text "server_state") (Server.PlanID s)
    (match field fields "v6_networks" with
     | VSlice networks => omap decode_v6network networks
     | _ => Server.V6Networks s
     end)
    (text "internal_ip") (text "kvm_url") (text "auto_backups") (text "tag").

(** [x, err := e; if err != nil { return err }], the receiver staying as
    the assignments so far left it. *)
Notation "'try' x ← e 'orelse' s ; k" :=
  (match e with
   | (x, None) => k
   | (_, Some err) => (s, Some err)
   end)
  (at level 10, x name, e at level 10, s at level 9, k at level 200,
   format "'[v' 'try'  x  ←  e  'orelse'  s ; '/' k ']'").

(** [int(i)] for an [int64] [i]: the low [intSize] bits of [i], read as a
    signed number.  [intSize] is the width of [int], 32 or 64 bits by the
    target of the build. *)
Definition int_of_int64 (intSize : Z) (i : Z) : Z :=
  ((i + 2 ^ (intSize - 1)) mod 2 ^ intSize - 2 ^ (intSize - 1))%Z.

(** The body of [UnmarshalJSON] once the payload is parsed into [fields],
    on a target whose [int] has [intSize] bits: the receiver after the call,
    and the error. *)
Definition UnmarshalJSON_fields_on (intSize : Z) (s : Server.t) (fields : gmap string value)
    : Server.t * option error :=
  try vcpu ← strconv.ParseInt (numeric_text fields "vcpu_count") orelse s;
  let s := Server.set_VCpus (int_of_int64 intSize vcpu) s in
  try region ← strconv.ParseInt (numeric_text fields "DCID") orelse s;
  let s := Server.set_RegionID (int_of_int64 intSize region) s in
  try plan ← strconv.ParseInt (numeric_text fields "VPSPLANID") orelse s;
  let s := Server.set_PlanID (int_of_int64 intSize plan) s in
  try pc ← strconv.ParseFloat (numeric_text fields "pending_charges") orelse s;
  let s := Server.set_PendingCharges pc s in
  try cb ← strconv.ParseFloat (numeric_text fields "current_bandwidth_gb") orelse s;
  let s := Server.set_CurrentBandwidth cb s in
  try ab ← strconv.ParseFloat (numeric_text fields "allowed_bandwidth_gb") orelse s;
  let s := Server.set_AllowedBandwidth ab s in
  (assign_text_fields s fields, None).

(** The body on the targets whose [int] has 64 bits, where [int(i)] is [i]. *)
Definition UnmarshalJSON_fields : Server.t → gmap string value → Server.t * option error :=
  UnmarshalJSON_fields_on 64.

Section Decoder.
(** [json.Unmarshal(data, &fields)] for [fields map[string]interface{}]:
      the parsed object, or the error of a payload that is no JSON object. *)
Variable json_Unmarshal : string → error + gmap string value.

(** [func (s *Server) UnmarshalJSON(data []byte) (err error)], for a
      receiver that is not nil, on a target whose [int] has [intSize] bits. *)
Definition UnmarshalJSON_on (intSize : Z) (s : Server.t) (data : string)
      : Server.t * option error :=
    match json_Unmarshal data with
    | inl err => (s, Some err)
    | inr fields => UnmarshalJSON_fields_on intSize s fields
    end.

(** The method on the targets whose [int] has 64 bits. *)
Definition UnmarshalJSON : Server.t → string → Server.t * option error :=
    UnmarshalJSON_on 64.
End Decoder.

(** ** The operations of the client *)

Section Client.
(** [c.get(path, &server)] and [c.post(path, values, &server)] for a
      [*Server] target: the target after the call, and the error. *)
Variable c_get : string → Server.t → Server.t * option error.
Variable c_post : string → gmap string (list string) → Server.t → Server.t * option error.

Definition GetServer (id : string) : Server.t * option error :=
    let '(server, err) := c_get ("server/list?SUBID=" +:+ id) Server.zero in
    match err with
    | Some err => (Server.zero, Some err)
    | None => (server, None)
    end.

Definition yesno (b : bool) : string := if b then "yes" else "no".

(** The form values [CreateServer] sends. *)
Definition CreateServer_values (name : string) (regionID planID osID : Z)
      (options : option ServerOptions.t) : gmap string (list string) :=
    let values : gmap string (list string) :=
      <["OSID" := [fmt.Sprintf_int osID]]>
        (<["VPSPLANID" := [fmt.Sprintf_int planID]]>
           (<["DCID" := [fmt.Sprintf_int regionID]]> (<["label" := [name]]> ∅))) in
    match options with
    | None => values
    | Some options =>
        let values :=
          if negb (String.eqb (ServerOptions.IPXEChainURL options) "")
          then url.Add "ipxe_chain_url" (ServerOptions.IPXEChainURL options) values
          else values in
        let values :=
          if negb (ServerOptions.ISO options =? 0)%Z
          then url.Add "ISOID" (fmt.Sprintf_int (ServerOptions.ISO options)) values
          else values in
        let values :=
          if negb (ServerOptions.Script options =? 0)%Z
          then url.Add "SCRIPTID" (fmt.Sprintf_int (ServerOptions.Script options)) values
          else values in
        let values :=
          if negb (String.eqb (ServerOptions.UserData options) "")
          then url.Add "userdata" (base64.EncodeToString (ServerOptions.UserData options)) values
          else values in
        let values :=
          if negb (String.eqb (ServerOptions.Snapshot options) "")
          then url.Add "SNAPSHOTID" (ServerOptions.Snapshot options) values
          else values in
        let values :=
          if negb (String.eqb (ServerOptions.SSHKey options) "")
          then url.Add "SSHKEYID" (ServerOptions.SSHKey options) values
          else values in
        let values := url.Add "enable_ipv6" "no" values in
        let values :=
          if ServerOptions.IPV6 options then url.Set_ "enable_ipv6" "yes" values else values in
        let values := url.Add "enable_private_network" "no" values in
        let values :=
          if ServerOptions.PrivateNetworking options
          then url.Set_ "enable_private_network" "yes" values else values in
        let values := url.Add "auto_backups" "no" values in
        let values :=
          if ServerOptions.AutoBackups options
          then url.Set_ "auto_backups" "yes" values else values in
        let values := url.Add "notify_activate" "yes" values in
        let values :=
          if ServerOptions.DontNotifyOnActivate options
          then url.Set_ "notify_activate" "no" values else values in
        values
    end.

Definition CreateServer (name : string) (regionID planID osID : Z)
      (options : option ServerOptions.t) : Server.t * option error :=
    let values := CreateServer_values name regionID planID osID options in
    let '(server, err) := c_post "server/create" values Server.zero in
    match err with
    | Some err => (Server.zero, Some err)
    | None =>
        let server := Server.set_Name name server in
        let server := Server.set_RegionID regionID server in
        let server := Server.set_PlanID planID server in
        (server, None)
    end.
End Client.

(** ** BandwidthOfServer *)

Module Bandwidth.

(** [b[i]] on a [[]string]: out of range panics. *)
Definition index (b : list string) (i : nat) : option string := b !! i.

(** [m[k]] on a [map[string]string]: a missing key reads as the empty string. *)
Definition get (m : gmap string string) (k : string) : string :=
  default "" (m !! k).

(** First loop: one fresh map per incoming entry, appended to [bandwidth]. *)
Fixpoint parse_incoming (incoming : list (list string))
    (bandwidth : list (gmap string string)) : option (list (gmap string string)) :=
  match incoming with
  | [] => Some bandwidth
  | b :: rest =>
      d ← index b 0;
      v ← index b 1;
      parse_incoming rest (bandwidth ++ [<["incoming" := v]> (<["date" := d]> ∅)])
  end.

(** Inner loop of the second pass: [for i := range bandwidth], leaving at the
    first record whose date is [b[0]].  [b[0]] is read at every comparison and
    [b[1]] only on a match. *)
Fixpoint patch (b : list string) (bandwidth : list (gmap string string))
    : option (list (gmap string string)) :=
  match bandwidth with
  | [] => Some []
  | r :: rest =>
      d ← index b 0;
      if decide (get r "date" = d)
      then v ← index b 1; Some (<["outgoing" := v]> r :: rest)
      else rest' ← patch b rest; Some (r :: rest')
  end.

(** Second loop: every outgoing entry patches the records built so far. *)
Fixpoint parse_outgoing (outgoing : list (list string))
    (bandwidth : list (gmap string string)) : option (list (gmap string string)) :=
  match outgoing with
  | [] => Some bandwidth
  | b :: rest => bandwidth' ← patch b bandwidth; parse_outgoing rest bandwidth'
  end.

(** The two passes over the decoded series. *)
Definition join (incoming outgoing : list (list string))
    : option (list (gmap string string)) :=
  bandwidth ← parse_incoming incoming [];
  parse_outgoing outgoing bandwidth.

Section Client.
(** [c.get] decoding into a [map[string][][]string]. *)
Variable c_get : string → error + gmap string (list (list string)).

Definition BandwidthOfServer (id : string)
      : option (list (gmap string string) * option error) :=
    match c_get ("server/bandwidth?SUBID=" ++ id) with
    | inl err => Some ([], Some err)
    | inr bandwidthMap =>
        bandwidth ← join (default [] (bandwidthMap !! "incoming_bytes"))
                         (default [] (bandwidthMap !! "outgoing_bytes"));
        Some (bandwidth, None)
    end.
End Client.

End Bandwidth.

#[local] Open Scope list_scope.

(** ** Vocabulary of the statements *)

(** The record the first loop builds for a well-formed entry. *)
Definition incoming_record (d v : string) : gmap string string :=
  <["incoming" := v]> (<["date" := d]> ∅).

(** The record of a date that both series carry. *)
Definition merged_record (a b : list string) : gmap string string :=
  <["outgoing" := default "" (b !! 1%nat)]>
    (incoming_record (default "" (a !! 0%nat)) (default "" (a !! 1%nat))).

(** The dates of a series and of the records. *)
Definition series_dates (series : list (list string)) : list (option string) :=
  (λ b : list string, b !! 0%nat) <$> series.

Definition record_dates (recs : list (gmap string string)) : list (option string) :=
  (λ r : gmap string string, r !! "date") <$> recs.

(** An entry of a series with a date and a value. *)
Definition well_formed (b : list string) : Prop := (2 ≤ length b)%nat.


(** The numeric fields in the order [UnmarshalJSON] parses them, with
    whether the field is parsed by [ParseFloat] (else by [ParseInt]). *)
Definition numeric_fields : list (string * bool) :=
  [("vcpu_count", false); ("DCID", false); ("VPSPLANID", false);
   ("pending_charges", true); ("current_bandwidth_gb", true);
   ("allowed_bandwidth_gb", true)].

(** The error of parsing the text of one numeric field. *)
Definition coercion_error (fields : gmap string value) (kf : string * bool)
    : option error :=
  if snd kf then snd (strconv.ParseFloat (numeric_text fields (fst kf)))
  else snd (strconv.ParseInt (numeric_text fields (fst kf))).

Fixpoint first_error (l : list (option error)) : option error :=
  match l with
  | [] => None
  | Some err :: _ => Some err
  | None :: rest => first_error rest
  end.

(** The type-stable fields: the key on the wire and the field. *)
Definition text_fields : list (string * (Server.t → string)) :=
  [("SUBID", Server.ID); ("label", Server.Name); ("os", Server.OS);
   ("ram", Server.RAM); ("disk", Server.Disk); ("main_ip", Server.MainIP);
   ("location", Server.Location); ("default_password", Server.DefaultPassword);
   ("date_created", Server.Created); ("status", Server.Status);
   ("cost_per_month", Server.Cost); ("netmask_v4", Server.NetmaskV4);
   ("gateway_v4", Server.GatewayV4); ("power_status", Server.PowerStatus);
   ("server_state", Server.ServerState); ("internal_ip", Server.InternalIP);
   ("kvm_url", Server.KVMUrl); ("auto_backups", Server.AutoBackups);
   ("tag", Server.Tag)].


(** A JSON number on the wire, as [json.Unmarshal] stores it. *)
Definition json_number (literal : string) : value :=
  VFloat (fst (strconv.ParseFloat literal)).

(** [if b { f(values) }]. *)
Definition when (b : bool) (f : gmap string (list string) → gmap string (list string))
    (values : gmap string (list string)) : gmap string (list string) :=
  if b then f values else values.

(** [2^k <= n/d]. *)
Definition above (n d k : Z) : Prop :=
  (strconv.shl d k ≤ strconv.shl n (- k))%Z.

(** A mantissa and an exponent of binary64: normal when the mantissa has
    53 bits, subnormal at the least exponent. *)
Definition canonical (m e : Z) : Prop :=
  (0 < m < 2 ^ 53 ∧ strconv.emin ≤ e ∧ (e = strconv.emin ∨ 2 ^ 52 ≤ m))%Z.

(** The values of a [float64]: the finite ones have a canonical mantissa
    and an exponent in range. *)
Definition valid_float (f : spec_float) : Prop :=
  match f with
  | S754_finite _ m e => canonical (Z.pos m) e ∧ (e ≤ strconv.emax)%Z
  | _ => True
  end.

(** The number a list of decimal digits writes, most significant first,
    after the digits of [a]. *)
Definition undigits_from (a : Z) (ds : list Z) : Z :=
  fold_left (λ a d, a * 10 + d)%Z ds a.

Definition undigits (ds : list Z) : Z := undigits_from 0 ds.

Definition is_decimal_digit (d : Z) : Prop := (0 ≤ d ≤ 9)%Z.

(** The value of a numeric field: an [int] or a [float64]. *)
Inductive number := Int (z : Z) | Float (f : spec_float).

(** The type-ambiguous fields: the key on the wire, whether the field is a
    [float64] (else an [int]), and the field. *)
Definition numeric_table : list (string * bool * (Server.t → number)) :=
  [("vcpu_count", false, λ s, Int (Server.VCpus s));
   ("DCID", false, λ s, Int (Server.RegionID s));
   ("VPSPLANID", false, λ s, Int (Server.PlanID s));
   ("pending_charges", true, λ s, Float (Server.PendingCharges s));
   ("current_bandwidth_gb", true, λ s, Float (Server.CurrentBandwidth s));
   ("allowed_bandwidth_gb", true, λ s, Float (Server.AllowedBandwidth s))].

(** The parser of a numeric field. *)
Definition parse_number (is_float : bool) (text : string) : number * option error :=
  if is_float then (Float (fst (strconv.ParseFloat text)), snd (strconv.ParseFloat text))
  else (Int (fst (strconv.ParseInt text)), snd (strconv.ParseInt text)).

Definition number_zero (is_float : bool) : number :=
  if is_float then Float (S754_zero false) else Int 0.

(** ** The other operations of the file *)

Module ISOStatus.
Record t := mk {
  State : string;
  ISOID : string
}.

(** [ISOStatus{}] *)
Definition zero : t := mk "" "".
End ISOStatus.

Section Range.
Context {A : Type}.

(** The entries of a map in the order in which [range] visits them in this
      run; the language leaves the order open. *)
Variable range : gmap string A → list (string * A).

(** [for _, x := range m { xs = append(xs, x) }], from a nil [xs]. *)
Definition collect (m : gmap string A) : list A :=
    fold_left (λ xs kv, xs ++ [snd kv]) (range m) [].
End Range.

Section Listing.
(** [c.get(path, &serverMap)] for a [map[string]Server] target: the target
      after the call, and the error. *)
Variable c_get : string → gmap string Server.t → gmap string Server.t * option error.
Variable range : gmap string Server.t → list (string * Server.t).

Definition GetServers : list Server.t * option error :=
    let '(serverMap, err) := c_get "server/list" ∅ in
    match err with
    | Some err => ([], Some err)
    | None => (collect range serverMap, None)
    end.

Definition GetServersByTag (tag : string) : list Server.t * option error :=
    let '(serverMap, err) := c_get ("server/list?tag=" +:+ tag) ∅ in
    match err with
    | Some err => ([], Some err)
    | None => (collect range serverMap, None)
    end.
End Listing.

Section ListingOS.
(** The type [OS] is declared in another file of the package. *)
Variable OS : Type.
Variable c_get : string → gmap string OS → gmap string OS * option error.
Variable range : gmap string OS → list (string * OS).

Definition ListOSforServer (id : string) : list OS * option error :=
    let '(osMap, err) := c_get ("server/os_change_list?SUBID=" +:+ id) ∅ in
    match err with
    | Some err => ([], Some err)
    | None => (collect range osMap, None)
    end.
End ListingOS.

Section Actions.
(** [c.post(path, values, nil)]: the error. *)
Variable c_post : string → gmap string (list string) → option error.

Definition RenameServer (id name : string) : option error :=
    let values : gmap string (list string) :=
      <["label" := [name]]> (<["SUBID" := [id]]> ∅) in
    match c_post "server/label_set" values with
    | Some err => Some err
    | None => None
    end.

Definition StartServer (id : string) : option error :=
    let values : gmap string (list string) :=
      <["SUBID" := [id]]> ∅ in
    match c_post "server/start" values with
    | Some err => Some err
    | None => None
    end.

Definition HaltServer (id : string) : option error :=
    let values : gmap string (list string) :=
      <["SUBID" := [id]]> ∅ in
    match c_post "server/halt" values with
    | Some err => Some err
    | None => None
    end.

Definition RebootServer (id : string) : option error :=
    let values : gmap string (list string) :=
      <["SUBID" := [id]]> ∅ in
    match c_post "server/reboot" values with
    | Some err => Some err
    | None => None
    end.

Definition ReinstallServer (id : string) : option error :=
    let values : gmap string (list string) :=
      <["SUBID" := [id]]> ∅ in
    match c_post "server/reinstall" values with
    | Some err => Some err
    | None => None
    end.

Definition ChangeOSofServer (id : string) (osID : Z) : option error :=
    let values : gmap string (list string) :=
      <["OSID" := [fmt.Sprintf_int osID]]> (<["SUBID" := [id]]> ∅) in
    match c_post "server/os_change" values with
    | Some err => Some err
    | None => None
    end.

Definition AttachISOtoServer (id : string) (isoID : Z) : option error :=
    let values : gmap string (list string) :=
      <["ISOID" := [fmt.Sprintf_int isoID]]> (<["SUBID" := [id]]> ∅) in
    match c_post "server/iso_attach" values with
    | Some err => Some err
    | None => None
    end.

Definition DetachISOfromServer (id : string) : option error :=
    let values : gmap string (list string) :=
      <["SUBID" := [id]]> ∅ in
    match c_post "server/iso_detach" values with
    | Some err => Some err
    | None => None
    end.

Definition DeleteServer (id : string) : option error :=
    let values : gmap string (list string) :=
      <["SUBID" := [id]]> ∅ in
    match c_post "server/destroy" values with
    | Some err => Some err
    | None => None
    end.
End Actions.

Section ISO.
(** [c.get(path, &isoStatus)]: the target after the call, and the error. *)
Variable c_get : string → ISOStatus.t → ISOStatus.t * option error.

Definition GetISOStatusofServer (id : string) : ISOStatus.t * option error :=
    let '(isoStatus, err) := c_get ("server/iso_status?SUBID=" +:+ id) ISOStatus.zero in
    match err with
    | Some err => (ISOStatus.zero, Some err)
    | None => (isoStatus, None)
    end.
End ISO.

(** ** More vocabulary of the statements *)

(** Every key that [UnmarshalJSON] reads from the payload. *)
Definition known_keys : list string :=
  (fst <$> numeric_fields) ++ (fst <$> text_fields) ++ ["v6_networks"].

(** The limits of an [int64], the size of an [int] on the 64-bit targets. *)
Definition int64 (i : Z) : Prop := (- 2 ^ 63 ≤ i < 2 ^ 63)%Z.

(** What a numeric field keeps of the number its parser returns: an [int]
    field converts it to [int], a [float64] field takes it as it is. *)
Definition stored (intSize : Z) (x : number) : number :=
  match x with
  | Int n => Int (int_of_int64 intSize n)
  | Float f => Float f
  end.

(** The JSON values that are neither a number, a string nor null. *)
Definition not_numeric (v : value) : Prop :=
  match v with
  | VBool _ | VSlice _ | VMap _ => True
  | _ => False
  end.

(** A byte with which no integer and no float starts. *)
Definition no_number_start (c : ascii) : bool :=
  negb (strconv.is_digit c)
  && negb (existsb (Ascii.eqb c) ["+"; "-"; "."; "_"; "i"; "I"; "n"; "N"]%char).

(** A text that starts with such a byte. *)
Definition starts_no_number (t : string) : Prop :=
  match t with
  | String c _ => no_number_start c = true
  | EmptyString => False
  end.

(** The sign that a text of [ParseInt] starts with. *)
Definition signed (sgn : string) (n : Z) : Z :=
  if String.eqb sgn "-" then (- n)%Z else n.

(** The [float64] of the integer [a], [0 <= a], with the sign [neg]: the
    nearest one, which is [a] itself below [2^53]. *)
Definition integer_float (neg : bool) (a : Z) : spec_float :=
  fst (strconv.round_float neg a 1).

(** The keys of a record of the bandwidth. *)
Definition record_keys : list string := ["date"; "incoming"; "outgoing"].

(** An entry of the outgoing series that the second loop can read: it has a
    date, and also a value when a record carries its date. *)
Definition readable (incoming : list (list string)) (b : list string) : Prop :=
  ∃ d : string, b !! 0%nat = Some d ∧ (Some d ∈ series_dates incoming → well_formed b).

(** The value of the last entry of a series that has the date [d]. *)
Definition last_value (d : string) (series : list (list string)) : option string :=
  fold_left (λ acc (b : list string), if decide (b !! 0%nat = Some d) then b !! 1%nat else acc)
            series None.

(** The record of [a], the [i]-th entry of [incoming], after the join with
    [outgoing]: the first record of a date takes the last outgoing value of
    that date. *)
Definition joined_record (incoming outgoing : list (list string))
    (i : nat) (a : list string) : gmap string string :=
  let d := default "" (a !! 0%nat) in
  let r := incoming_record d (default "" (a !! 1%nat)) in
  if decide (Some d ∈ series_dates (take i incoming)) then r
  else match last_value d outgoing with
       | Some v => <["outgoing" := v]> r
       | None => r
       end.

(** The result of a listing of the decoded map [m]: no error, and the
    elements of [m], one for each key, in some order. *)
Definition lists {A : Type} (m : gmap string A) (result : list A * option error) : Prop :=
  snd result = None ∧ fst result ≡ₚ snd <$> map_to_list m.

(** The values of a [byte]. *)
Definition is_byte (a : Z) : Prop := (0 ≤ a < 256)%Z.

(** A byte with an upper-case letter replaced by the lower-case one, as
    [commonPrefixLenIgnoreCase] compares it. *)
Definition fold_byte (c : ascii) : Z :=
  if ((65 <=? strconv.byte c) && (strconv.byte c <=? 90))%Z
  then (strconv.byte c + 32)%Z else strconv.byte c.

(** [t] is the lower-case text [p] up to the case of its letters. *)
Definition same_ignoring_case (t p : string) : Prop :=
  fold_byte <$> list_ascii_of_string t = strconv.byte <$> list_ascii_of_string p.

(** The texts, in lower case, that [ParseFloat] takes for the values that
    are no numbers. *)
Definition special_texts : list (string * spec_float) :=
  [("nan", S754_nan);
   ("inf", S754_infinity false); ("+inf", S754_infinity false);
   ("-inf", S754_infinity true);
   ("infinity", S754_infinity false); ("+infinity", S754_infinity false);
   ("-infinity", S754_infinity true)].

(** * Properties of the bandwidth join *)

Section BandwidthFacts.
Import Bandwidth.

(** What the first loop leaves: one record per entry, in order. *)
Lemma parse_incoming_spec incoming acc res :
  parse_incoming incoming acc = Some res →
  ∃ recs, res = acc ++ recs ∧
    Forall2 (λ (r : gmap string string) (b : list string),
               ∃ d v, b !! 0%nat = Some d ∧ b !! 1%nat = Some v ∧ r = incoming_record d v)
            recs incoming.
Proof.
  revert acc res. induction incoming as [|b rest IH]; intros acc res H; simpl in H.
  - exists []. rewrite app_nil_r. split; [by inversion H|constructor].
  - unfold index in H.
    destruct (b !! 0%nat) as [d|] eqn:Hd; [|done].
    destruct (b !! 1%nat) as [v|] eqn:Hv; [|done]. simpl in H.
    apply IH in H as (recs & -> & Hrecs).
    exists (incoming_record d v :: recs).
    split; [by rewrite <- app_assoc|].
    constructor; [|done]. eauto.
Qed.

Lemma incoming_records_dates recs incoming :
  Forall2 (λ (r : gmap string string) (b : list string),
             ∃ d v, b !! 0%nat = Some d ∧ b !! 1%nat = Some v ∧ r = incoming_record d v)
          recs incoming →
  record_dates recs = series_dates incoming.
Proof.
  induction 1 as [|r b recs incoming (d & v & Hd & Hv & ->) _ IH]; [done|].
  simpl. rewrite IH, Hd. done.
Qed.

Lemma parse_incoming_well_formed incoming acc :
  Forall (λ b : list string, (2 ≤ length b)%nat) incoming →
  parse_incoming incoming acc
  = Some (acc ++ ((λ b : list string,
                    incoming_record (default "" (b !! 0%nat)) (default "" (b !! 1%nat)))
                  <$> incoming)).
Proof.
  intros Hwf. revert acc. induction Hwf as [|b rest Hb _ IH]; intros acc; simpl.
  - by rewrite app_nil_r.
  - destruct b as [|d [|v b']]; simpl in Hb; try lia. simpl.
    rewrite IH. by rewrite <- app_assoc.
Qed.

(** [patch] touches neither the number of records nor their dates. *)
Lemma patch_dates b recs recs' :
  patch b recs = Some recs' → record_dates recs' = record_dates recs.
Proof.
  revert recs'. induction recs as [|r rest IH]; intros recs' H; simpl in H.
  - by inversion H.
  - unfold index in H. destruct (b !! 0%nat) as [d|]; [|done]. simpl in H.
    case_decide.
    + destruct (b !! 1%nat) as [v|]; [|done]. inversion H; subst; simpl.
      by rewrite lookup_insert_ne.
    + destruct (patch b rest) as [rest'|]; [|done]. inversion H; subst; simpl.
      f_equal. by apply IH.
Qed.

Lemma parse_outgoing_dates outgoing recs recs' :
  parse_outgoing outgoing recs = Some recs' → record_dates recs' = record_dates recs.
Proof.
  revert recs. induction outgoing as [|b rest IH]; intros recs H; simpl in H.
  - by inversion H.
  - destruct (patch b recs) as [recs1|] eqn:Hp; [|done]. simpl in H.
    apply IH in H. rewrite H. by eapply patch_dates.
Qed.

(** An entry whose date no record carries leaves the records as they are. *)
Lemma patch_no_match b d recs :
  b !! 0%nat = Some d →
  Forall (λ r : gmap string string, r !! "date" ≠ Some d) recs →
  (∀ r, r ∈ recs → is_Some (r !! "date")) →
  patch b recs = Some recs.
Proof.
  intros Hd Hno Hsome. induction Hno as [|r rest Hr _ IH]; [done|].
  simpl. unfold index. rewrite Hd. simpl.
  destruct (Hsome r) as [d' Hd']; [left|].
  case_decide as Heq.
  - unfold get in Heq. rewrite Hd' in Heq. simpl in Heq. congruence.
  - rewrite IH; [done|]. intros r' Hr'. apply Hsome. by right.
Qed.

Lemma patch_skip b d pre rest :
  b !! 0%nat = Some d →
  Forall (λ r : gmap string string, get r "date" ≠ d) pre →
  patch b (pre ++ rest) = (rest' ← patch b rest; Some (pre ++ rest')).
Proof.
  intros Hd Hpre. induction Hpre as [|r pre Hr _ IH]; simpl.
  - by destruct (patch b rest).
  - unfold index. rewrite Hd. simpl. case_decide; [done|].
    rewrite IH. by destruct (patch b rest).
Qed.

(** First match wins: the entry patches the first record with its date,
    and no other record. *)
Lemma patch_first_match b d v recs i r :
  b !! 0%nat = Some d → b !! 1%nat = Some v →
  recs !! i = Some r → get r "date" = d →
  (∀ j r', (j < i)%nat → recs !! j = Some r' → get r' "date" ≠ d) →
  patch b recs = Some (<[i := <["outgoing" := v]> r]> recs).
Proof.
  intros Hd Hv. revert i. induction recs as [|r0 rest IH]; intros i Hi Hr Hfirst.
  - by rewrite lookup_nil in Hi.
  - simpl. unfold index. rewrite Hd. simpl. destruct i as [|i]; simpl in *.
    + inversion Hi; subst. rewrite decide_True by done. by rewrite Hv.
    + rewrite decide_False by (apply (Hfirst 0%nat); [lia|done]).
      rewrite (IH i Hi Hr); [done|].
      intros j r' Hj Hr'. apply (Hfirst (S j)); [lia|done].
Qed.

(** Every outgoing value of a record was put there by an entry of the
    outgoing series with the date of the record. *)
Lemma patch_outgoing_origin b recs recs' :
  patch b recs = Some recs' →
  ∀ i r', recs' !! i = Some r' →
    ∃ r, recs !! i = Some r ∧
      (r' = r ∨ (Some (get r "date") = b !! 0%nat ∧ is_Some (b !! 1%nat)
                 ∧ r' = <["outgoing" := default "" (b !! 1%nat)]> r)).
Proof.
  revert recs'. induction recs as [|r0 rest IH]; intros recs' H i r' Hi; simpl in H.
  - inversion H; subst. by rewrite lookup_nil in Hi.
  - unfold index in H. destruct (b !! 0%nat) as [d|] eqn:Hd; [|done]. simpl in H.
    case_decide as Heq.
    + destruct (b !! 1%nat) as [v|] eqn:Hv; [|done]. inversion H; subst.
      destruct i as [|i]; simpl in *.
      * inversion Hi; subst. exists r0. split; [done|]. right. eauto.
      * exists r'. eauto.
    + destruct (patch b rest) as [rest'|] eqn:Hp; [|done]. inversion H; subst.
      destruct i as [|i]; simpl in *.
      * inversion Hi; subst. eauto.
      * by apply (IH rest').
Qed.

Lemma parse_outgoing_origin outgoing recs recs' :
  parse_outgoing outgoing recs = Some recs' →
  ∀ i r', recs' !! i = Some r' →
    ∃ r, recs !! i = Some r ∧ r' !! "date" = r !! "date" ∧
      (r' !! "outgoing" = r !! "outgoing"
       ∨ ∃ b, b ∈ outgoing ∧ b !! 0%nat = Some (get r "date")
              ∧ is_Some (b !! 1%nat) ∧ r' !! "outgoing" = b !! 1%nat).
Proof.
  revert recs. induction outgoing as [|b rest IH]; intros recs H i r' Hi; simpl in H.
  - inversion H; subst. eauto.
  - destruct (patch b recs) as [recs1|] eqn:Hp; [|done]. simpl in H.
    destruct (IH _ H i r' Hi) as (r1 & Hr1 & Hdate & Hout).
    destruct (patch_outgoing_origin _ _ _ Hp i r1 Hr1) as (r & Hr & Hcase).
    exists r. split; [done|].
    assert (Hd1 : r1 !! "date" = r !! "date").
    { destruct Hcase as [->|(_ & _ & ->)]; [done|]. by rewrite lookup_insert_ne. }
    assert (Hg1 : get r1 "date" = get r "date") by (unfold get; by rewrite Hd1).
    split; [congruence|].
    destruct Hout as [Hout|(b' & Hb' & Hb0 & Hb1 & Hval)].
    + destruct Hcase as [->|(Hb0 & [v Hv] & ->)]; [by left|].
      right. exists b. split; [left|]. rewrite Hout, lookup_insert_eq, Hv.
      repeat split; eauto.
    + right. exists b'. split; [by right|]. rewrite <- Hg1. eauto.
Qed.


Lemma parse_outgoing_app o1 o2 recs :
  parse_outgoing (o1 ++ o2) recs
  = (recs1 ← parse_outgoing o1 recs; parse_outgoing o2 recs1).
Proof.
  revert recs. induction o1 as [|b o1 IH]; intros recs; simpl.
  - by destruct (parse_outgoing o2 recs).
  - destruct (patch b recs) as [recs1|]; simpl; [apply IH|done].
Qed.

Lemma record_dates_length recs recs' :
  record_dates recs' = record_dates recs → length recs' = length recs.
Proof.
  intros H. apply (f_equal length) in H. unfold record_dates in H.
  by rewrite !length_fmap in H.
Qed.

Lemma record_dates_elem (recs : list (gmap string string)) incoming r :
  record_dates recs = series_dates incoming → r ∈ recs →
  ∃ a : list string, a ∈ incoming ∧ a !! 0%nat = r !! "date".
Proof.
  intros Heq Hr.
  assert (Hin : r !! "date" ∈ record_dates recs).
  { unfold record_dates. apply list_elem_of_fmap. eauto. }
  rewrite Heq in Hin. unfold series_dates in Hin.
  apply list_elem_of_fmap in Hin as (a & Ha & Hin). eauto.
Qed.

Lemma well_formed_lookup b :
  well_formed b → ∃ d v, b !! 0%nat = Some d ∧ b !! 1%nat = Some v.
Proof.
  destruct b as [|d [|v b]]; unfold well_formed; simpl; intros; try lia. eauto.
Qed.

Lemma parse_outgoing_zip o2 : ∀ i1 o1 i2,
  length i1 = length o1 →
  Forall well_formed (i1 ++ i2) → Forall well_formed o2 →
  series_dates i2 = series_dates o2 →
  NoDup (series_dates (i1 ++ i2)) →
  parse_outgoing o2
    (zip_with merged_record i1 o1
     ++ ((λ b : list string,
            incoming_record (default "" (b !! 0%nat)) (default "" (b !! 1%nat))) <$> i2))
  = Some (zip_with merged_record (i1 ++ i2) (o1 ++ o2)).
Proof.
  induction o2 as [|b o2 IH]; intros i1 o1 i2 Hlen Hwfi Hwfo Hdates Hnd.
  - destruct i2; [|done]. simpl. by rewrite !app_nil_r.
  - destruct i2 as [|a i2]; [done|]. simpl in Hdates.
    injection Hdates as Hab Hdates.
    apply Forall_cons in Hwfo as [Hwb Hwfo].
    destruct (well_formed_lookup b Hwb) as (d & v & Hd & Hv).
    assert (Hwa : well_formed a).
    { rewrite Forall_app in Hwfi. destruct Hwfi as [_ Hwfi].
      by apply Forall_cons in Hwfi as [? _]. }
    destruct (well_formed_lookup a Hwa) as (d' & v' & Hd' & Hv').
    assert (d' = d) as -> by congruence.
    simpl.
    rewrite (patch_skip b d); [|done|].
    2:{ apply Forall_forall. intros r Hr.
        apply list_elem_of_lookup in Hr as [k Hk].
        apply lookup_zip_with_Some in Hk as (a0 & b0 & -> & Ha0 & Hb0).
        unfold get, merged_record, incoming_record.
        rewrite lookup_insert_ne, lookup_insert_ne, lookup_insert_eq by done. simpl.
        assert (Hwa0 : well_formed a0).
        { rewrite Forall_app in Hwfi. destruct Hwfi as [Hwfi _].
          rewrite Forall_forall in Hwfi. apply Hwfi. eapply list_elem_of_lookup_2; eauto. }
        destruct (well_formed_lookup a0 Hwa0) as (d0 & v0 & Hd0 & Hv0).
        rewrite Hd0. simpl. intros ->.
        unfold series_dates in Hnd. rewrite fmap_app in Hnd. simpl in Hnd.
        apply NoDup_app in Hnd as (_ & Hnd & _).
        apply (Hnd (Some d)).
        - apply list_elem_of_fmap. exists a0. split; [done|].
          eapply list_elem_of_lookup_2; eauto.
        - rewrite Hd'. left. }
    simpl. unfold index. rewrite Hd. simpl.
    rewrite decide_True.
    2:{ unfold get, incoming_record.
        rewrite lookup_insert_ne, lookup_insert_eq by done. by rewrite Hd'. }
    rewrite Hv. simpl.
    specialize (IH (i1 ++ [a]) (o1 ++ [b]) i2).
    rewrite <- !app_assoc in IH. simpl in IH.
    rewrite <- IH; try done.
    + f_equal. rewrite zip_with_app by done. rewrite <- app_assoc. simpl.
      unfold merged_record at 3. by rewrite Hv.
    + rewrite !length_app. simpl. lia.
Qed.

End BandwidthFacts.

(** C3: a date that only the outgoing series carries produces no record.
    Whenever the join of [incoming] with an outgoing series containing the
    entry [b], whose date [d] no incoming entry has, returns [result]:
    the join without [b] returns the same [result]; [result] has one
    record per incoming entry and none of them has the date [d]; and every
    outgoing value in [result] was put there by another entry of the
    outgoing series, one that has the date of the record. *)
Theorem C3_outgoing_only_date_dropped
    (incoming o1 : list (list string)) (b : list string) (o2 : list (list string))
    (d : string) (result : list (gmap string string)) :
  b !! 0%nat = Some d →
  (∀ a : list string, a ∈ incoming → a !! 0%nat ≠ Some d) →
  Bandwidth.join incoming (o1 ++ b :: o2) = Some result →
  Bandwidth.join incoming (o1 ++ o2) = Some result
  ∧ length result = length incoming
  ∧ (∀ r : gmap string string, r ∈ result → r !! "date" ≠ Some d)
  ∧ (∀ (r : gmap string string) (v : string),
       r ∈ result → r !! "outgoing" = Some v →
       ∃ b' : list string,
         b' ∈ o1 ++ o2 ∧ b' !! 0%nat = r !! "date" ∧ b' !! 1%nat = Some v).
Proof.
  intros Hd Hfresh Hjoin. unfold Bandwidth.join in *.
  destruct (Bandwidth.parse_incoming incoming []) as [recs0|] eqn:Hin; [|done].
  simpl in *.
  destruct (parse_incoming_spec _ _ _ Hin) as (recs & -> & Hrecs). simpl in *.
  pose proof (incoming_records_dates _ _ Hrecs) as Hdates0.
  rewrite parse_outgoing_app in Hjoin.
  destruct (Bandwidth.parse_outgoing o1 recs) as [recs1|] eqn:Ho1; [|done].
  simpl in Hjoin.
  destruct (Bandwidth.patch b recs1) as [recs2|] eqn:Hp; [|done]. simpl in Hjoin.
  pose proof (parse_outgoing_dates _ _ _ Ho1) as Hdates1.
  assert (Hsome : ∀ r : gmap string string, r ∈ recs1 → is_Some (r !! "date")).
  { intros r Hr.
    destruct (record_dates_elem recs1 incoming r) as (a & Ha & Heq); [congruence|done|].
    rewrite <- Heq.
    apply list_elem_of_lookup in Ha as [i Hi].
    destruct (Forall2_lookup_r _ _ _ _ _ Hrecs Hi) as (r0 & _ & d0 & v0 & Hd0 & _).
    eauto. }
  assert (Hno : Forall (λ r : gmap string string, r !! "date" ≠ Some d) recs1).
  { apply Forall_forall. intros r Hr.
    destruct (record_dates_elem recs1 incoming r) as (a & Ha & Heq); [congruence|done|].
    rewrite <- Heq. by apply Hfresh. }
  rewrite (patch_no_match b d recs1 Hd Hno Hsome) in Hp. inversion Hp; subst recs2.
  assert (Hall : Bandwidth.parse_outgoing (o1 ++ o2) recs = Some result).
  { rewrite parse_outgoing_app, Ho1. done. }
  pose proof (parse_outgoing_dates _ _ _ Hall) as Hdates.
  split; [done|]. split.
  { rewrite (record_dates_length _ _ Hdates). by eapply Forall2_length. }
  split.
  { intros r Hr.
    destruct (record_dates_elem result incoming r) as (a & Ha & Heq); [congruence|done|].
    rewrite <- Heq. by apply Hfresh. }
  intros r v Hr Hv.
  apply list_elem_of_lookup in Hr as [i Hi].
  destruct (parse_outgoing_origin _ _ _ Hall i r Hi) as (r0 & Hr0 & Hdate & Hout).
  destruct (Forall2_lookup_l _ _ _ _ _ Hrecs Hr0) as (a & _ & d0 & v0 & Hd0 & Hv0 & ->).
  destruct Hout as [Hout|(b' & Hb' & Hb0 & _ & Hb1)].
  - rewrite Hv in Hout. unfold incoming_record in Hout.
    by rewrite !lookup_insert_ne, lookup_empty in Hout.
  - exists b'. split; [done|]. rewrite Hdate, Hb0, <- Hb1, Hv. split; [|done].
    unfold Bandwidth.get, incoming_record.
    by rewrite lookup_insert_ne, lookup_insert_eq.
Qed.

Lemma C3_witness :
  let incoming := [["2020-01-01"; "100"]; ["2020-01-02"; "200"]] in
  let result := [ incoming_record "2020-01-01" "100";
                  <["outgoing" := "50"]> (incoming_record "2020-01-02" "200") ] in
  Bandwidth.join incoming [["2020-01-02"; "50"]] = Some result
  ∧ length result = length incoming
  ∧ (∀ r : gmap string string, r ∈ result → r !! "date" ≠ Some "2020-01-03")
  ∧ (∀ (r : gmap string string) (v : string),
       r ∈ result → r !! "outgoing" = Some v →
       ∃ b' : list string,
         b' ∈ [["2020-01-02"; "50"]] ∧ b' !! 0%nat = r !! "date" ∧ b' !! 1%nat = Some v).
Proof.
  apply (C3_outgoing_only_date_dropped
           [["2020-01-01"; "100"]; ["2020-01-02"; "200"]]
           [["2020-01-02"; "50"]] ["2020-01-03"; "10"] [] "2020-01-03").
  - reflexivity.
  - intros a Ha. repeat (apply elem_of_cons in Ha as [->|Ha]); [done|done|].
    by apply elem_of_nil in Ha.
  - vm_compute. reflexivity.
Defined.

(** C4, as stated, fails when a date occurs twice: both series have the
    dates [d; d], the two outgoing entries both patch the first record, and
    the second record is left without an outgoing value. *)
Lemma C4_counterexample :
  let incoming := [["d"; "1"]; ["d"; "2"]] in
  let outgoing := [["d"; "3"]; ["d"; "4"]] in
  series_dates incoming = series_dates outgoing
  ∧ Bandwidth.join incoming outgoing
    = Some [ <["outgoing" := "4"]> (incoming_record "d" "1"); incoming_record "d" "2" ]
  ∧ incoming_record "d" "2" !! "outgoing" = None
  ∧ Bandwidth.join incoming outgoing ≠ Some (zip_with merged_record incoming outgoing).
Proof.
  intros incoming outgoing.
  assert (Hjoin : Bandwidth.join incoming outgoing
                  = Some [ <["outgoing" := "4"]> (incoming_record "d" "1");
                           incoming_record "d" "2" ])
    by (vm_compute; reflexivity).
  split; [reflexivity|]. split; [exact Hjoin|]. split; [reflexivity|].
  rewrite Hjoin. intros H.
  apply (f_equal (λ o : option (list (gmap string string)),
                    match o with
                    | Some [_; r] => r !! "outgoing"
                    | _ => None
                    end)) in H.
  vm_compute in H. discriminate H.
Qed.

(** C4 (amended): for two series of well-formed entries whose date
    sequences are identical, in the same order and without a repeated date,
    the join returns exactly one merged record per date, each with the
    date, the incoming and the outgoing value of that date, in the order
    of the incoming series.  In general an outgoing entry patches the
    first record with its date and no other record. *)
Theorem C4_join_identical_distinct_dates (incoming outgoing : list (list string)) :
  Forall well_formed incoming → Forall well_formed outgoing →
  series_dates incoming = series_dates outgoing →
  NoDup (series_dates incoming) →
  Bandwidth.join incoming outgoing = Some (zip_with merged_record incoming outgoing)
  ∧ length (zip_with merged_record incoming outgoing) = length incoming
  ∧ record_dates (zip_with merged_record incoming outgoing) = series_dates incoming
  ∧ (∀ (b : list string) (d v : string) (recs : list (gmap string string))
       (i : nat) (r : gmap string string),
       b !! 0%nat = Some d → b !! 1%nat = Some v →
       recs !! i = Some r → Bandwidth.get r "date" = d →
       (∀ (j : nat) (r' : gmap string string),
          (j < i)%nat → recs !! j = Some r' → Bandwidth.get r' "date" ≠ d) →
       Bandwidth.patch b recs = Some (<[i := <["outgoing" := v]> r]> recs)).
Proof.
  intros Hwfi Hwfo Hdates Hnd.
  assert (Hjoin : Bandwidth.join incoming outgoing
                  = Some (zip_with merged_record incoming outgoing)).
  { unfold Bandwidth.join. rewrite parse_incoming_well_formed by done. simpl.
    apply (parse_outgoing_zip outgoing [] [] incoming); done. }
  split; [done|].
  assert (Hd : record_dates (zip_with merged_record incoming outgoing)
               = series_dates incoming).
  { unfold Bandwidth.join in Hjoin.
    destruct (Bandwidth.parse_incoming incoming []) as [recs0|] eqn:Hin; [|done].
    simpl in Hjoin.
    destruct (parse_incoming_spec _ _ _ Hin) as (recs & -> & Hrecs). simpl in *.
    rewrite (parse_outgoing_dates _ _ _ Hjoin). by apply incoming_records_dates. }
  split; [|split; [done|]].
  - apply (f_equal length) in Hd. unfold record_dates, series_dates in Hd.
    by rewrite !length_fmap in Hd.
  - intros b d v recs i r. apply patch_first_match.
Qed.

Lemma C4_witness :
  let incoming := [["2020-01-01"; "100"]; ["2020-01-02"; "200"]] in
  let outgoing := [["2020-01-01"; "30"]; ["2020-01-02"; "50"]] in
  Bandwidth.join incoming outgoing = Some (zip_with merged_record incoming outgoing).
Proof.
  apply (C4_join_identical_distinct_dates
           [["2020-01-01"; "100"]; ["2020-01-02"; "200"]]
           [["2020-01-01"; "30"]; ["2020-01-02"; "50"]]).
  - repeat constructor.
  - repeat constructor.
  - reflexivity.
  - simpl. apply NoDup_cons. split; [|apply NoDup_singleton].
    intros H. apply list_elem_of_singleton in H. discriminate H.
Defined.

(** * Properties of the decoder *)

(** ** The conversion to [int] *)

Lemma ParseUint_loop_nonneg s : ∀ n v,
  (0 ≤ n)%Z → strconv.ParseUint_loop s n = inr v → (0 ≤ v)%Z.
Proof.
  induction s as [|c rest IH]; intros n v Hn H; simpl in H.
  - injection H as <-. exact Hn.
  - destruct (strconv.is_digit c) eqn:Hc; [|done]. simpl in H.
    destruct (strconv.maxUint64 / 10 + 1 <=? n)%Z; [done|].
    destruct (strconv.maxUint64 <? n * 10 + (strconv.byte c - 48))%Z; [done|].
    apply IH in H; [done|].
    unfold strconv.is_digit in Hc. apply andb_prop in Hc as [Hc _].
    apply Z.leb_le in Hc. lia.
Qed.

(** What [ParseInt] returns is an [int64], with and without an error. *)
Lemma ParseInt_int64 t : int64 (fst (strconv.ParseInt t)).
Proof.
  assert (H63 : (0 < 2 ^ 63)%Z) by done.
  unfold strconv.ParseInt, int64. destruct t as [|c rest]; [simpl; lia|].
  cbv zeta.
  destruct (strconv.ParseUint _) as [[]|un] eqn:Hun.
  - simpl. lia.
  - destruct (Ascii.eqb c "-"); simpl; lia.
  - assert (Hpos : (0 ≤ un)%Z).
    { unfold strconv.ParseUint in Hun.
      destruct (if _ : bool then rest else String c rest); [done|].
      by apply ParseUint_loop_nonneg in Hun. }
    destruct (Ascii.eqb c "-"); simpl.
    + destruct (Z.ltb_spec (2 ^ 63) un); simpl; lia.
    + rewrite ?orb_false_r.
      destruct (Z.leb_spec (2 ^ 63) un); simpl; lia.
Qed.

(** The conversion keeps the numbers that fit [intSize] bits, and only
    those. *)
Lemma int_of_int64_fits (intSize i : Z) :
  (0 < intSize)%Z →
  int_of_int64 intSize i = i ↔ (- 2 ^ (intSize - 1) ≤ i < 2 ^ (intSize - 1))%Z.
Proof.
  intros Hsize. unfold int_of_int64.
  assert (Hpow : (2 ^ intSize = 2 * 2 ^ (intSize - 1))%Z).
  { rewrite <- Z.pow_succ_r by lia. f_equal. lia. }
  assert (Hhalf : (0 < 2 ^ (intSize - 1))%Z) by (apply Z.pow_pos_nonneg; lia).
  split.
  - intros Heq.
    pose proof (Z.mod_pos_bound (i + 2 ^ (intSize - 1)) (2 ^ intSize) ltac:(lia)). lia.
  - intros Hi. rewrite Z.mod_small by lia. lia.
Qed.

(** On a target with a 64-bit [int] it keeps every [int64]. *)
Lemma int_of_int64_64 (i : Z) : int64 i → int_of_int64 64 i = i.
Proof. intros Hi. apply int_of_int64_fits; [done|]. exact Hi. Qed.

Lemma int_of_ParseInt_64 t : int_of_int64 64 (fst (strconv.ParseInt t)) = fst (strconv.ParseInt t).
Proof. apply int_of_int64_64, ParseInt_int64. Qed.

(** ** The parses of a decode *)

(** A successful decode went through the six parses. *)
Lemma UnmarshalJSON_fields_on_ok intSize s fields s' :
  UnmarshalJSON_fields_on intSize s fields = (s', None) →
  ∃ vcpu region plan pc cb ab,
    strconv.ParseInt (numeric_text fields "vcpu_count") = (vcpu, None)
    ∧ strconv.ParseInt (numeric_text fields "DCID") = (region, None)
    ∧ strconv.ParseInt (numeric_text fields "VPSPLANID") = (plan, None)
    ∧ strconv.ParseFloat (numeric_text fields "pending_charges") = (pc, None)
    ∧ strconv.ParseFloat (numeric_text fields "current_bandwidth_gb") = (cb, None)
    ∧ strconv.ParseFloat (numeric_text fields "allowed_bandwidth_gb") = (ab, None)
    ∧ s' = assign_text_fields
             (Server.set_AllowedBandwidth ab
                (Server.set_CurrentBandwidth cb
                   (Server.set_PendingCharges pc
                      (Server.set_PlanID (int_of_int64 intSize plan)
                         (Server.set_RegionID (int_of_int64 intSize region)
                            (Server.set_VCpus (int_of_int64 intSize vcpu) s))))))
             fields.
Proof.
  unfold UnmarshalJSON_fields_on. intros H.
  destruct (strconv.ParseInt (numeric_text fields "vcpu_count")) as [vcpu [e|]]; [done|].
  destruct (strconv.ParseInt (numeric_text fields "DCID")) as [region [e|]]; [done|].
  destruct (strconv.ParseInt (numeric_text fields "VPSPLANID")) as [plan [e|]]; [done|].
  destruct (strconv.ParseFloat (numeric_text fields "pending_charges")) as [pc [e|]]; [done|].
  destruct (strconv.ParseFloat (numeric_text fields "current_bandwidth_gb")) as [cb [e|]]; [done|].
  destruct (strconv.ParseFloat (numeric_text fields "allowed_bandwidth_gb")) as [ab [e|]]; [done|].
  inversion H. by exists vcpu, region, plan, pc, cb, ab.
Qed.

(** The error of a decode is the error of the first numeric field, in the
    order of the source, whose text the parser rejects. *)
Lemma UnmarshalJSON_fields_on_error intSize s fields :
  snd (UnmarshalJSON_fields_on intSize s fields)
  = first_error (coercion_error fields <$> numeric_fields).
Proof.
  unfold UnmarshalJSON_fields_on, numeric_fields, coercion_error. simpl.
  destruct (strconv.ParseInt (numeric_text fields "vcpu_count")) as [vcpu [e|]]; [done|].
  destruct (strconv.ParseInt (numeric_text fields "DCID")) as [region [e|]]; [done|].
  destruct (strconv.ParseInt (numeric_text fields "VPSPLANID")) as [plan [e|]]; [done|].
  destruct (strconv.ParseFloat (numeric_text fields "pending_charges")) as [pc [e|]]; [done|].
  destruct (strconv.ParseFloat (numeric_text fields "current_bandwidth_gb")) as [cb [e|]]; [done|].
  destruct (strconv.ParseFloat (numeric_text fields "allowed_bandwidth_gb")) as [ab [e|]]; done.
Qed.

(** The body with a 64-bit [int], the conversions left out. *)
Lemma UnmarshalJSON_fields_unfold s fields :
  UnmarshalJSON_fields s fields
  = (try vcpu ← strconv.ParseInt (numeric_text fields "vcpu_count") orelse s;
     let s := Server.set_VCpus vcpu s in
     try region ← strconv.ParseInt (numeric_text fields "DCID") orelse s;
     let s := Server.set_RegionID region s in
     try plan ← strconv.ParseInt (numeric_text fields "VPSPLANID") orelse s;
     let s := Server.set_PlanID plan s in
     try pc ← strconv.ParseFloat (numeric_text fields "pending_charges") orelse s;
     let s := Server.set_PendingCharges pc s in
     try cb ← strconv.ParseFloat (numeric_text fields "current_bandwidth_gb") orelse s;
     let s := Server.set_CurrentBandwidth cb s in
     try ab ← strconv.ParseFloat (numeric_text fields "allowed_bandwidth_gb") orelse s;
     let s := Server.set_AllowedBandwidth ab s in
     (assign_text_fields s fields, None)).
Proof.
  unfold UnmarshalJSON_fields, UnmarshalJSON_fields_on.
  pose proof (int_of_ParseInt_64 (numeric_text fields "vcpu_count")) as H1.
  pose proof (int_of_ParseInt_64 (numeric_text fields "DCID")) as H2.
  pose proof (int_of_ParseInt_64 (numeric_text fields "VPSPLANID")) as H3.
  destruct (strconv.ParseInt (numeric_text fields "vcpu_count")) as [vcpu [e|]]; [done|].
  simpl in H1. rewrite H1.
  destruct (strconv.ParseInt (numeric_text fields "DCID")) as [region [e|]]; [done|].
  simpl in H2. rewrite H2.
  destruct (strconv.ParseInt (numeric_text fields "VPSPLANID")) as [plan [e|]]; [done|].
  simpl in H3. by rewrite H3.
Qed.

Lemma UnmarshalJSON_unfold json_Unmarshal s data :
  UnmarshalJSON json_Unmarshal s data
  = match json_Unmarshal data with
    | inl err => (s, Some err)
    | inr fields => UnmarshalJSON_fields s fields
    end.
Proof. reflexivity. Qed.

Lemma UnmarshalJSON_fields_ok s fields s' :
  UnmarshalJSON_fields s fields = (s', None) →
  ∃ vcpu region plan pc cb ab,
    strconv.ParseInt (numeric_text fields "vcpu_count") = (vcpu, None)
    ∧ strconv.ParseInt (numeric_text fields "DCID") = (region, None)
    ∧ strconv.ParseInt (numeric_text fields "VPSPLANID") = (plan, None)
    ∧ strconv.ParseFloat (numeric_text fields "pending_charges") = (pc, None)
    ∧ strconv.ParseFloat (numeric_text fields "current_bandwidth_gb") = (cb, None)
    ∧ strconv.ParseFloat (numeric_text fields "allowed_bandwidth_gb") = (ab, None)
    ∧ s' = assign_text_fields
             (Server.set_AllowedBandwidth ab
                (Server.set_CurrentBandwidth cb
                   (Server.set_PendingCharges pc
                      (Server.set_PlanID plan
                         (Server.set_RegionID region (Server.set_VCpus vcpu s))))))
             fields.
Proof.
  rewrite UnmarshalJSON_fields_unfold. intros H.
  destruct (strconv.ParseInt (numeric_text fields "vcpu_count")) as [vcpu [e|]]; [done|].
  destruct (strconv.ParseInt (numeric_text fields "DCID")) as [region [e|]]; [done|].
  destruct (strconv.ParseInt (numeric_text fields "VPSPLANID")) as [plan [e|]]; [done|].
  destruct (strconv.ParseFloat (numeric_text fields "pending_charges")) as [pc [e|]]; [done|].
  destruct (strconv.ParseFloat (numeric_text fields "current_bandwidth_gb")) as [cb [e|]]; [done|].
  destruct (strconv.ParseFloat (numeric_text fields "allowed_bandwidth_gb")) as [ab [e|]]; [done|].
  inversion H. by exists vcpu, region, plan, pc, cb, ab.
Qed.

Lemma UnmarshalJSON_fields_error s fields :
  snd (UnmarshalJSON_fields s fields)
  = first_error (coercion_error fields <$> numeric_fields).
Proof. apply UnmarshalJSON_fields_on_error. Qed.

Lemma first_error_Some l err :
  first_error l = Some err → Some err ∈ l.
Proof.
  induction l as [|[e|] l IH]; simpl; intros H; [done| |].
  - inversion H. left.
  - right. auto.
Qed.

Lemma first_error_None l : first_error l = None ↔ Forall (λ o, o = None) l.
Proof.
  induction l as [|[e|] l IH]; simpl.
  - split; [constructor|done].
  - split; [done|]. intros H. by apply Forall_cons in H as [? _].
  - rewrite IH. split; [by constructor|]. intros H. by apply Forall_cons in H as [_ ?].
Qed.

(** The errors of [ParseInt] and [ParseFloat] name the function and the
    text, and nothing else. *)
Lemma ParseInt_error s n err :
  strconv.ParseInt s = (n, Some err) →
  ∃ cause, err = NumError "ParseInt" s cause.
Proof.
  unfold strconv.ParseInt. destruct s as [|c rest]; intros H.
  - inversion H. eauto.
  - destruct (strconv.ParseUint _) as [[]|un];
      repeat (match type of H with context [if ?b then _ else _] => destruct b end);
      inversion H; unfold strconv.syntaxError, strconv.rangeError; eauto.
Qed.

Lemma ParseFloat_error s f err :
  strconv.ParseFloat s = (f, Some err) →
  ∃ cause, err = NumError "ParseFloat" s cause.
Proof.
  unfold strconv.ParseFloat. intros H.
  destruct (strconv.special s) as [[f0 n]|].
  - destruct (n =? String.length s)%nat; inversion H. unfold strconv.syntaxError. eauto.
  - destruct (strconv.readFloat s) as [[[[[mant exp] neg] hex] n]|].
    + destruct (if hex then _ else _) as [f0 ovf].
      destruct (negb _); [inversion H; unfold strconv.syntaxError; eauto|].
      destruct ovf; inversion H. unfold strconv.rangeError. eauto.
    + inversion H. unfold strconv.syntaxError. eauto.
Qed.

Lemma coercion_error_form fields kf err :
  coercion_error fields kf = Some err →
  ∃ cause, err = NumError (if snd kf then "ParseFloat" else "ParseInt")
                          (numeric_text fields (fst kf)) cause.
Proof.
  unfold coercion_error. destruct kf as [k [|]]; simpl; intros H.
  - destruct (strconv.ParseFloat _) as [f o] eqn:Hp. simpl in H. subst o.
    by eapply ParseFloat_error.
  - destruct (strconv.ParseInt _) as [f o] eqn:Hp. simpl in H. subst o.
    by eapply ParseInt_error.
Qed.


(** A failed decode leaves the text fields of the receiver alone. *)
Lemma UnmarshalJSON_fields_on_failure_frame intSize s fields s' err :
  UnmarshalJSON_fields_on intSize s fields = (s', Some err) →
  Forall (λ kp : string * (Server.t → string), snd kp s' = snd kp s) text_fields
  ∧ Server.V6Networks s' = Server.V6Networks s
  ∧ Server.AllowedBandwidth s' = Server.AllowedBandwidth s.
Proof.
  unfold UnmarshalJSON_fields_on. intros H.
  destruct (strconv.ParseInt (numeric_text fields "vcpu_count")) as [vcpu [e|]];
    [inversion H; subst; split; [apply Forall_forall; done|done]|].
  destruct (strconv.ParseInt (numeric_text fields "DCID")) as [region [e|]];
    [inversion H; subst; split; [repeat constructor|done]|].
  destruct (strconv.ParseInt (numeric_text fields "VPSPLANID")) as [plan [e|]];
    [inversion H; subst; split; [repeat constructor|done]|].
  destruct (strconv.ParseFloat (numeric_text fields "pending_charges")) as [pc [e|]];
    [inversion H; subst; split; [repeat constructor|done]|].
  destruct (strconv.ParseFloat (numeric_text fields "current_bandwidth_gb")) as [cb [e|]];
    [inversion H; subst; split; [repeat constructor|done]|].
  destruct (strconv.ParseFloat (numeric_text fields "allowed_bandwidth_gb")) as [ab [e|]];
    [inversion H; subst; split; [repeat constructor|done]|].
  done.
Qed.

Lemma UnmarshalJSON_fields_failure_frame s fields s' err :
  UnmarshalJSON_fields s fields = (s', Some err) →
  Forall (λ kp : string * (Server.t → string), snd kp s' = snd kp s) text_fields
  ∧ Server.V6Networks s' = Server.V6Networks s
  ∧ Server.AllowedBandwidth s' = Server.AllowedBandwidth s.
Proof. apply UnmarshalJSON_fields_on_failure_frame. Qed.

(** The parse of a numeric field that raises no error, and of one that
    does. *)
Ltac field_parsed :=
  repeat match goal with
  | H : Forall _ (_ :: _) |- _ => apply Forall_cons in H as [? H]
  end;
  unfold coercion_error in *; cbn [fst snd] in *;
  repeat match goal with
  | H : snd (strconv.ParseInt ?t) = _ |- _ =>
      destruct (strconv.ParseInt t) as [? ?] eqn:?; cbn [fst snd] in H; subst
  | H : snd (strconv.ParseFloat ?t) = _ |- _ =>
      destruct (strconv.ParseFloat t) as [? ?] eqn:?; cbn [fst snd] in H; subst
  end.

Ltac field_reparsed :=
  repeat match goal with
  | H : strconv.ParseInt _ = _ |- _ => rewrite H; clear H
  | H : strconv.ParseFloat _ = _ |- _ => rewrite H; clear H
  end.

(** A decode that fails at a numeric field has assigned the numeric fields
    before it, and nothing else. *)
Lemma UnmarshalJSON_fields_on_failure
    (intSize : Z) (s : Server.t) (fields : gmap string value)
    (pre post : list (string * bool * (Server.t → number)))
    (k : string) (is_float : bool) (proj : Server.t → number) (err : error) :
  numeric_table = pre ++ (k, is_float, proj) :: post →
  Forall (λ e : string * bool * (Server.t → number), coercion_error fields (fst e) = None)
         pre →
  coercion_error fields (k, is_float) = Some err →
  ∃ s' : Server.t,
    UnmarshalJSON_fields_on intSize s fields = (s', Some err)
    ∧ Forall (λ e : string * bool * (Server.t → number),
                snd e s'
                = stored intSize
                    (fst (parse_number (snd (fst e)) (numeric_text fields (fst (fst e))))))
             pre
    ∧ Forall (λ e : string * bool * (Server.t → number), snd e s' = snd e s)
             ((k, is_float, proj) :: post).
Proof.
  intros Hsplit Hpre Herr. unfold numeric_table in Hsplit.
  do 6 (destruct pre as [|? pre];
        [simpl in Hsplit; injection Hsplit as <- <- <- <-;
         unfold UnmarshalJSON_fields_on; field_parsed;
         eexists; (split; [reflexivity|]);
         unfold parse_number;
         once (repeat (split || constructor)); cbn; field_reparsed; done
        |simpl in Hsplit; injection Hsplit as <- Hsplit]).
  destruct pre; discriminate Hsplit.
Qed.

(** C2, as stated, fails: the numeric fields are assigned one by one, so a
    decode that fails at [DCID] has already stored [vcpu_count] into the
    target, which then mixes a decoded value with the zero values it had. *)
Lemma C2_counterexample :
  let fields : gmap string value :=
    <["DCID" := VString "abc"]> (<["vcpu_count" := json_number "4"]> ∅) in
  UnmarshalJSON (λ _, inr fields) Server.zero "payload"
  = (Server.set_VCpus 4 Server.zero, Some (NumError "ParseInt" "abc" ErrSyntax))
  ∧ Server.VCpus (Server.set_VCpus 4 Server.zero) = 4%Z
  ∧ Server.RegionID (Server.set_VCpus 4 Server.zero) = 0%Z
  ∧ Server.set_VCpus 4 Server.zero ≠ Server.zero.
Proof.
  repeat split; try (vm_compute; reflexivity).
  intros H. apply (f_equal Server.VCpus) in H. discriminate H.
Qed.

(** C2 (amended), for either width [intSize] of [int].  A payload that does
    not parse leaves the decode target untouched.  A decode that fails at a
    numeric field leaves every text field, the network collection and the
    allowed bandwidth of the target untouched, but the numeric fields
    before the failing one, in the order of the source, are already
    overwritten by what their parsers returned, and the failing field and
    the ones after it are not.  [GetServer] and [CreateServer] return the
    zero entity whenever the request fails; so they do when the transport
    hands the response to the decoder and the decoder fails, whatever the
    decoder has left in its target. *)
Theorem C2_no_entity_on_error
    (intSize : Z)
    (json_Unmarshal : string → error + gmap string value)
    (c_get : string → Server.t → Server.t * option error)
    (c_post : string → gmap string (list string) → Server.t → Server.t * option error) :
  (∀ (s : Server.t) (data : string) (err : error),
     json_Unmarshal data = inl err →
     UnmarshalJSON_on json_Unmarshal intSize s data = (s, Some err))
  ∧ (∀ (s s' : Server.t) (data : string) (fields : gmap string value) (err : error),
       json_Unmarshal data = inr fields →
       UnmarshalJSON_on json_Unmarshal intSize s data = (s', Some err) →
       Forall (λ kp : string * (Server.t → string), snd kp s' = snd kp s) text_fields
       ∧ Server.V6Networks s' = Server.V6Networks s
       ∧ Server.AllowedBandwidth s' = Server.AllowedBandwidth s)
  ∧ (∀ (s : Server.t) (data : string) (fields : gmap string value)
       (pre post : list (string * bool * (Server.t → number)))
       (k : string) (is_float : bool) (proj : Server.t → number) (err : error),
       json_Unmarshal data = inr fields →
       numeric_table = pre ++ (k, is_float, proj) :: post →
       Forall (λ e : string * bool * (Server.t → number),
                 coercion_error fields (fst e) = None) pre →
       coercion_error fields (k, is_float) = Some err →
       ∃ s' : Server.t,
         UnmarshalJSON_on json_Unmarshal intSize s data = (s', Some err)
         ∧ Forall (λ e : string * bool * (Server.t → number),
                     snd e s'
                     = stored intSize
                         (fst (parse_number (snd (fst e))
                                 (numeric_text fields (fst (fst e))))))
                  pre
         ∧ Forall (λ e : string * bool * (Server.t → number), snd e s' = snd e s)
                  ((k, is_float, proj) :: post))
  ∧ (∀ (id : string) (err : error),
       snd (GetServer c_get id) = Some err → fst (GetServer c_get id) = Server.zero)
  ∧ (∀ (name : string) (regionID planID osID : Z) (options : option ServerOptions.t)
       (err : error),
       snd (CreateServer c_post name regionID planID osID options) = Some err →
       fst (CreateServer c_post name regionID planID osID options) = Server.zero)
  ∧ (∀ (id body : string) (err : error),
       (∀ target : Server.t,
          c_get ("server/list?SUBID=" +:+ id) target
          = UnmarshalJSON_on json_Unmarshal intSize target body) →
       snd (UnmarshalJSON_on json_Unmarshal intSize Server.zero body) = Some err →
       GetServer c_get id = (Server.zero, Some err))
  ∧ (∀ (name : string) (regionID planID osID : Z) (options : option ServerOptions.t)
       (body : string) (err : error),
       (∀ target : Server.t,
          c_post "server/create" (CreateServer_values name regionID planID osID options) target
          = UnmarshalJSON_on json_Unmarshal intSize target body) →
       snd (UnmarshalJSON_on json_Unmarshal intSize Server.zero body) = Some err →
       CreateServer c_post name regionID planID osID options = (Server.zero, Some err)).
Proof.
  split; [|split; [|split; [|split; [|split; [|split]]]]].
  - intros s data err H. unfold UnmarshalJSON_on. by rewrite H.
  - intros s s' data fields err H. unfold UnmarshalJSON_on. rewrite H.
    apply UnmarshalJSON_fields_on_failure_frame.
  - intros s data fields pre post k is_float proj err H Hsplit Hpre Herr.
    unfold UnmarshalJSON_on. rewrite H.
    by apply UnmarshalJSON_fields_on_failure.
  - intros id err. unfold GetServer.
    destruct (c_get _ _) as [server [e|]]; simpl; done.
  - intros name regionID planID osID options err. unfold CreateServer.
    destruct (c_post _ _ _) as [server [e|]]; simpl; done.
  - intros id body err Hget Herr. unfold GetServer. rewrite Hget.
    destruct (UnmarshalJSON_on _ _ _ _) as [server o]. simpl in Herr. by subst o.
  - intros name regionID planID osID options body err Hpost Herr.
    unfold CreateServer. cbv zeta. rewrite Hpost.
    destruct (UnmarshalJSON_on _ _ _ _) as [server o]. simpl in Herr. by subst o.
Qed.

(** On a target with a 32-bit [int], the payload of the counterexample
    leaves [VCpus] = 4 in the decode target of [GetServer], which returns
    the zero entity all the same. *)
Lemma C2_witness :
  let fields : gmap string value :=
    <["DCID" := VString "abc"]> (<["vcpu_count" := json_number "4"]> ∅) in
  let json_Unmarshal : string → error + gmap string value := λ _, inr fields in
  let c_get : string → Server.t → Server.t * option error :=
    λ _ target, UnmarshalJSON_on json_Unmarshal 32 target "payload" in
  (∃ s' : Server.t,
     UnmarshalJSON_on json_Unmarshal 32 Server.zero "payload"
     = (s', Some (NumError "ParseInt" "abc" ErrSyntax))
     ∧ Forall (λ e : string * bool * (Server.t → number),
                 snd e s'
                 = stored 32 (fst (parse_number (snd (fst e))
                                     (numeric_text fields (fst (fst e))))))
              (take 1 numeric_table)
     ∧ Forall (λ e : string * bool * (Server.t → number), snd e s' = snd e Server.zero)
              (drop 1 numeric_table))
  ∧ Server.VCpus (fst (UnmarshalJSON_on json_Unmarshal 32 Server.zero "payload")) = 4%Z
  ∧ GetServer c_get "576965" = (Server.zero, Some (NumError "ParseInt" "abc" ErrSyntax)).
Proof.
  intros fields json_Unmarshal c_get.
  pose proof (C2_no_entity_on_error 32 json_Unmarshal c_get (λ _ _ target, (target, None)))
    as (_ & _ & Hfields & _ & _ & Hget & _).
  split; [|split].
  - apply (Hfields Server.zero "payload" fields (take 1 numeric_table)
             (drop 2 numeric_table) "DCID" false (λ s, Int (Server.RegionID s))).
    + reflexivity.
    + reflexivity.
    + repeat constructor.
    + reflexivity.
  - vm_compute. reflexivity.
  - apply (Hget "576965" "payload").
    + reflexivity.
    + vm_compute. reflexivity.
Defined.

(** C5, as stated, fails twice.  The error is the [strconv.NumError] of the
    parser: it carries the name of the parse function and the rejected
    text, so a bad [vcpu_count] and a bad [DCID] give the same error and
    neither names its field.  And a present, non-null value that the parser
    rejects need not fail the decode: the empty string is read as ["0"]. *)
Lemma C5_counterexample :
  snd (UnmarshalJSON_fields Server.zero (<["vcpu_count" := VString "abc"]> ∅))
  = Some (NumError "ParseInt" "abc" ErrSyntax)
  ∧ snd (UnmarshalJSON_fields Server.zero (<["DCID" := VString "abc"]> ∅))
    = Some (NumError "ParseInt" "abc" ErrSyntax)
  ∧ snd (strconv.ParseInt "") = Some (NumError "ParseInt" "" ErrSyntax)
  ∧ snd (UnmarshalJSON_fields Server.zero (<["vcpu_count" := VString ""]> ∅)) = None
  ∧ Server.VCpus (fst (UnmarshalJSON_fields Server.zero (<["vcpu_count" := VString ""]> ∅)))
    = 0%Z.
Proof. repeat split; vm_compute; reflexivity. Qed.

(** C5 (amended): the decode fails exactly when the payload does not
    parse or the parser rejects the text of a numeric field, the empty text
    and ["<nil>"] being read as ["0"]; the error is then the one of the
    first such field in the order of the source, a [strconv.NumError] with
    the name of the parse function, the rejected text and the cause. *)
Theorem C5_decode_error
    (json_Unmarshal : string → error + gmap string value)
    (s : Server.t) (data : string) :
  snd (UnmarshalJSON json_Unmarshal s data)
  = match json_Unmarshal data with
    | inl err => Some err
    | inr fields => first_error (coercion_error fields <$> numeric_fields)
    end
  ∧ (∀ (fields : gmap string value) (kf : string * bool) (err : error),
       coercion_error fields kf = Some err →
       ∃ cause : strconv_cause,
         err = NumError (if snd kf then "ParseFloat" else "ParseInt")
                        (numeric_text fields (fst kf)) cause)
  ∧ (∀ (fields : gmap string value) (k : string),
       numeric_text fields k
       = if decide (fmt.Sprintf_v (default VNil (fields !! k)) = ""
                    ∨ fmt.Sprintf_v (default VNil (fields !! k)) = "<nil>")
         then "0" else fmt.Sprintf_v (default VNil (fields !! k))).
Proof.
  split; [|split].
  - rewrite UnmarshalJSON_unfold. destruct (json_Unmarshal data) as [err|fields]; [done|].
    apply UnmarshalJSON_fields_error.
  - apply coercion_error_form.
  - intros fields k. unfold numeric_text, field.
    generalize (fmt.Sprintf_v (default VNil (fields !! k))). intros text.
    destruct (String.eqb_spec text "<nil>") as [->|Hne].
    + rewrite orb_true_r. by rewrite decide_True by (by right).
    + rewrite orb_false_r. destruct text as [|c text].
      * by rewrite decide_True by (by left).
      * rewrite decide_False; [done|]. intros [?|?]; done.
Qed.

(** C6: after a successful decode every type-stable field is the text
    rendering of the value under its key, whatever the type of the value
    (a number renders through [FormatFloat]), and the rendering of a
    missing key is the text ["<nil>"], which is not the empty text. *)
Theorem C6_text_fields
    (json_Unmarshal : string → error + gmap string value)
    (s s' : Server.t) (data : string) :
  UnmarshalJSON json_Unmarshal s data = (s', None) →
  ∃ fields : gmap string value,
    json_Unmarshal data = inr fields
    ∧ Forall (λ kp : string * (Server.t → string),
                (fields !! fst kp = None → snd kp s' = "<nil>")
                ∧ (∀ v : value, fields !! fst kp = Some v → snd kp s' = fmt.Sprintf_v v)
                ∧ (∀ f : spec_float,
                     fields !! fst kp = Some (VFloat f) → snd kp s' = strconv.FormatFloat f))
             text_fields
    ∧ "<nil>" ≠ "".
Proof.
  rewrite UnmarshalJSON_unfold. intros H.
  destruct (json_Unmarshal data) as [err|fields]; [by inversion H|].
  exists fields. split; [done|]. split; [|done].
  apply UnmarshalJSON_fields_ok in H
    as (vcpu & region & plan & pc & cb & ab & _ & _ & _ & _ & _ & _ & ->).
  unfold text_fields, assign_text_fields, field.
  repeat (constructor; [simpl; repeat split;
                        [by intros -> | by intros v -> | by intros f ->]|]).
  constructor.
Qed.

Lemma C6_witness :
  let fields : gmap string value :=
    <["label" := VString "my server"]> (<["SUBID" := json_number "576965"]> ∅) in
  ∃ fields' : gmap string value,
    (inr fields : error + gmap string value) = inr fields'
    ∧ Forall (λ kp : string * (Server.t → string),
                (fields' !! fst kp = None
                 → snd kp (fst (UnmarshalJSON_fields Server.zero fields)) = "<nil>")
                ∧ (∀ v : value, fields' !! fst kp = Some v
                   → snd kp (fst (UnmarshalJSON_fields Server.zero fields)) = fmt.Sprintf_v v)
                ∧ (∀ f : spec_float, fields' !! fst kp = Some (VFloat f)
                   → snd kp (fst (UnmarshalJSON_fields Server.zero fields))
                     = strconv.FormatFloat f))
             text_fields
    ∧ "<nil>" ≠ "".
Proof.
  intros fields.
  apply (C6_text_fields (λ _, inr fields) Server.zero
           (fst (UnmarshalJSON_fields Server.zero fields)) "payload").
  vm_compute. reflexivity.
Defined.






(** * Properties of CreateServer *)

(** The test vectors of RFC 4648 for the model of [base64]. *)
Example base64_rfc4648 :
  base64.EncodeToString "" = ""
  ∧ base64.EncodeToString "f" = "Zg=="
  ∧ base64.EncodeToString "fo" = "Zm8="
  ∧ base64.EncodeToString "foo" = "Zm9v"
  ∧ base64.EncodeToString "foob" = "Zm9vYg=="
  ∧ base64.EncodeToString "fooba" = "Zm9vYmE="
  ∧ base64.EncodeToString "foobar" = "Zm9vYmFy".
Proof. repeat split; vm_compute; reflexivity. Qed.

Section Values.
Implicit Types (m : gmap string (list string)) (k v : string).

Lemma lookup_Add_eq m k v : url.Add k v m !! k = Some (default [] (m !! k) ++ [v]).
Proof. unfold url.Add. by rewrite lookup_insert_eq. Qed.

Lemma lookup_Add_ne m k k' v : k' ≠ k → url.Add k' v m !! k = m !! k.
Proof. intros. unfold url.Add. by rewrite lookup_insert_ne. Qed.


Lemma lookup_Set_ne m k k' v : k' ≠ k → url.Set_ k' v m !! k = m !! k.
Proof. intros. unfold url.Set_. by rewrite lookup_insert_ne. Qed.

Lemma lookup_when_Add_ne (b : bool) m k k' v :
  k' ≠ k → when b (url.Add k' v) m !! k = m !! k.
Proof. intros. destruct b; [by apply lookup_Add_ne|done]. Qed.

Lemma lookup_when_Set_ne (b : bool) m k k' v :
  k' ≠ k → when b (url.Set_ k' v) m !! k = m !! k.
Proof. intros. destruct b; [by apply lookup_Set_ne|done]. Qed.


(** An optional parameter: added when [b] holds. *)
Lemma lookup_when_Add_eq (b : bool) m k v :
  m !! k = None → when b (url.Add k v) m !! k = if b then Some [v] else None.
Proof. intros H. destruct b; simpl; [by rewrite lookup_Add_eq, H|done]. Qed.

End Values.

Ltac peel_values :=
  repeat first
    [ rewrite lookup_when_Set_ne by done
    | rewrite lookup_when_Add_ne by done
    | rewrite lookup_Add_ne by done
    | rewrite lookup_insert_ne by done ].

Lemma negb_eqb_empty (x : string) {A} (a b : A) :
  (if negb (String.eqb x "") then a else b) = if decide (x = "") then b else a.
Proof. destruct (String.eqb_spec x ""); by case_decide. Qed.


(** The conditional statements of [CreateServer], one after the other. *)
Lemma CreateServer_values_when name regionID planID osID options :
  CreateServer_values name regionID planID osID (Some options)
  = when (ServerOptions.DontNotifyOnActivate options) (url.Set_ "notify_activate" "no")
      (url.Add "notify_activate" "yes"
      (when (ServerOptions.AutoBackups options) (url.Set_ "auto_backups" "yes")
      (url.Add "auto_backups" "no"
      (when (ServerOptions.PrivateNetworking options) (url.Set_ "enable_private_network" "yes")
      (url.Add "enable_private_network" "no"
      (when (ServerOptions.IPV6 options) (url.Set_ "enable_ipv6" "yes")
      (url.Add "enable_ipv6" "no"
      (when (negb (String.eqb (ServerOptions.SSHKey options) ""))
         (url.Add "SSHKEYID" (ServerOptions.SSHKey options))
      (when (negb (String.eqb (ServerOptions.Snapshot options) ""))
         (url.Add "SNAPSHOTID" (ServerOptions.Snapshot options))
      (when (negb (String.eqb (ServerOptions.UserData options) ""))
         (url.Add "userdata" (base64.EncodeToString (ServerOptions.UserData options)))
      (when (negb (ServerOptions.Script options =? 0)%Z)
         (url.Add "SCRIPTID" (fmt.Sprintf_int (ServerOptions.Script options)))
      (when (negb (ServerOptions.ISO options =? 0)%Z)
         (url.Add "ISOID" (fmt.Sprintf_int (ServerOptions.ISO options)))
      (when (negb (String.eqb (ServerOptions.IPXEChainURL options) ""))
         (url.Add "ipxe_chain_url" (ServerOptions.IPXEChainURL options))
      (<["OSID" := [fmt.Sprintf_int osID]]>
        (<["VPSPLANID" := [fmt.Sprintf_int planID]]>
           (<["DCID" := [fmt.Sprintf_int regionID]]> (<["label" := [name]]> ∅))))))))))))))))).
Proof. reflexivity. Qed.


(** C9: a successful [CreateServer] returns the entity the response was
    decoded into, with [Name], [RegionID] and [PlanID] overwritten by the
    arguments of the call and every other field as decoded. *)
Theorem C9_CreateServer_overwrites
    (c_post : string → gmap string (list string) → Server.t → Server.t * option error)
    (name : string) (regionID planID osID : Z) (options : option ServerOptions.t)
    (server : Server.t) :
  CreateServer c_post name regionID planID osID options = (server, None) →
  ∃ decoded : Server.t,
    c_post "server/create" (CreateServer_values name regionID planID osID options)
           Server.zero = (decoded, None)
    ∧ Server.Name server = name
    ∧ Server.RegionID server = regionID
    ∧ Server.PlanID server = planID
    ∧ server = Server.mk
        (Server.ID decoded) name (Server.OS decoded) (Server.RAM decoded)
        (Server.Disk decoded) (Server.MainIP decoded) (Server.VCpus decoded)
        (Server.Location decoded) regionID (Server.DefaultPassword decoded)
        (Server.Created decoded) (Server.PendingCharges decoded) (Server.Status decoded)
        (Server.Cost decoded) (Server.CurrentBandwidth decoded)
        (Server.AllowedBandwidth decoded) (Server.NetmaskV4 decoded)
        (Server.GatewayV4 decoded) (Server.PowerStatus decoded)
        (Server.ServerState decoded) planID (Server.V6Networks decoded)
        (Server.InternalIP decoded) (Server.KVMUrl decoded) (Server.AutoBackups decoded)
        (Server.Tag decoded).
Proof.
  unfold CreateServer. intros H.
  destruct (c_post _ _ _) as [decoded [err|]]; [done|].
  exists decoded. inversion H. by destruct decoded.
Qed.

Lemma C9_witness :
  let response : gmap string value :=
    <["SUBID" := VString "576965"]> (<["label" := VString "other"]>
      (<["DCID" := json_number "9"]> ∅)) in
  let server :=
    fst (CreateServer (λ _ _ target, UnmarshalJSON_fields target response)
           "web" 1 201 127 None) in
  Server.Name server = "web" ∧ Server.RegionID server = 1%Z
  ∧ Server.PlanID server = 201%Z ∧ Server.ID server = "576965".
Proof.
  intros response server.
  destruct (C9_CreateServer_overwrites
              (λ _ _ target, UnmarshalJSON_fields target response)
              "web" 1 201 127 None server)
    as (decoded & Hpost & Hname & Hregion & Hplan & Hrest).
  { vm_compute. reflexivity. }
  split; [exact Hname|]. split; [exact Hregion|]. split; [exact Hplan|].
  rewrite Hrest. simpl.
  assert (Hd : decoded = fst (UnmarshalJSON_fields Server.zero response))
    by (by rewrite Hpost).
  rewrite Hd. vm_compute. reflexivity.
Defined.

(** * Rounding to binary64 *)

Section Rounding.
Import strconv.
#[local] Open Scope Z_scope.

Lemma pow2_pos k : 0 ≤ k → 0 < 2 ^ k.
Proof. intros. by apply Z.pow_pos_nonneg. Qed.

Lemma shl_pos x k : 0 < x → 0 < shl x k.
Proof. intros. unfold shl. apply Z.mul_pos_pos; [done|]. apply Z.pow_pos_nonneg; lia. Qed.

(** The fractions at two exponents: [n/d/2^a = 2^(b-a) * (n/d/2^b)]. *)
Lemma shl_cross n d a b :
  a ≤ b → shl n (- a) * shl d b = 2 ^ (b - a) * (shl n (- b) * shl d a).
Proof.
  intros Hab. unfold shl.
  assert (H : 2 ^ Z.max (- a) 0 * 2 ^ Z.max b 0
              = 2 ^ (b - a) * (2 ^ Z.max (- b) 0 * 2 ^ Z.max a 0)).
  { rewrite <- !Z.pow_add_r by lia. f_equal. lia. }
  transitivity (n * d * (2 ^ Z.max (- a) 0 * 2 ^ Z.max b 0)); [ring|].
  rewrite H. ring.
Qed.

Lemma above_antitone n d a b : 0 < n → 0 < d → a ≤ b → above n d b → above n d a.
Proof.
  unfold above. intros Hn Hd Hab Hb.
  pose proof (shl_cross n d a b Hab) as Hc.
  pose proof (shl_pos d a Hd). pose proof (shl_pos d b Hd).
  pose proof (shl_pos n (- a) Hn). pose proof (shl_pos n (- b) Hn).
  assert (1 ≤ 2 ^ (b - a)) by (pose proof (pow2_pos (b - a)); lia).
  apply Z.nlt_ge. intros Hlt.
  assert (shl n (- a) * shl d b < shl d a * shl d b) by (apply Z.mul_lt_mono_pos_r; lia).
  assert (shl d b * shl d a ≤ shl n (- b) * shl d a) by (apply Z.mul_le_mono_nonneg_r; lia).
  nia.
Qed.

Lemma ilog2_ratio_spec n d :
  0 < n → 0 < d →
  above n d (ilog2_ratio n d) ∧ ¬ above n d (ilog2_ratio n d + 1).
Proof.
  intros Hn Hd. unfold ilog2_ratio.
  destruct (Z.log2_spec n Hn) as [Hn1 Hn2]. destruct (Z.log2_spec d Hd) as [Hd1 Hd2].
  pose proof (Z.log2_nonneg n). pose proof (Z.log2_nonneg d).
  set (a := Z.log2 n) in *. set (b := Z.log2 d) in *.
  rewrite <- Z.add_1_r in Hn2, Hd2.
  destruct (Z.leb_spec (shl d (a - b)) (shl n (- (a - b)))) as [Hle|Hgt].
  - split; [done|]. unfold above, shl. apply Z.lt_nge.
    destruct (Z.le_gt_cases 0 (a - b + 1)).
    + rewrite (Z.max_r (- (a - b + 1)) 0), (Z.max_l (a - b + 1) 0) by lia.
      rewrite Z.pow_0_r, Z.mul_1_r.
      apply Z.lt_le_trans with (2 ^ (a + 1)); [done|].
      replace (a + 1) with (b + (a - b + 1)) by lia. rewrite Z.pow_add_r by lia.
      apply Z.mul_le_mono_nonneg_r; [|done]. apply Z.pow_nonneg; lia.
    + rewrite (Z.max_l (- (a - b + 1)) 0), (Z.max_r (a - b + 1) 0) by lia.
      rewrite Z.pow_0_r, Z.mul_1_r.
      apply Z.lt_le_trans with (2 ^ b); [|done].
      replace b with ((a + 1) + (- (a - b + 1))) at 2 by lia.
      rewrite Z.pow_add_r by lia.
      apply Z.mul_lt_mono_pos_r; [|done]. apply Z.pow_pos_nonneg; lia.
  - replace (a - b - 1 + 1) with (a - b) by lia.
    split; [|unfold above; lia].
    unfold above, shl.
    destruct (Z.le_gt_cases 0 (a - b - 1)).
    + rewrite (Z.max_r (- (a - b - 1)) 0), (Z.max_l (a - b - 1) 0) by lia.
      rewrite Z.pow_0_r, Z.mul_1_r.
      apply Z.le_trans with (2 ^ a); [|done].
      replace a with ((b + 1) + (a - b - 1)) at 2 by lia. rewrite Z.pow_add_r by lia.
      apply Z.mul_le_mono_nonneg_r; [apply Z.pow_nonneg; lia|lia].
    + rewrite (Z.max_l (- (a - b - 1)) 0), (Z.max_r (a - b - 1) 0) by lia.
      rewrite Z.pow_0_r, Z.mul_1_r.
      apply Z.le_trans with (2 ^ (b + 1)); [lia|].
      replace (b + 1) with (a + (- (a - b - 1))) by lia. rewrite Z.pow_add_r by lia.
      apply Z.mul_le_mono_nonneg_r; [apply Z.pow_nonneg; lia|done].
Qed.

Lemma ilog2_ratio_unique n d l :
  0 < n → 0 < d → above n d l → ¬ above n d (l + 1) → ilog2_ratio n d = l.
Proof.
  intros Hn Hd Hl Hl1.
  destruct (ilog2_ratio_spec n d Hn Hd) as [H1 H2].
  destruct (Z.lt_trichotomy (ilog2_ratio n d) l) as [Hlt|[Heq|Hgt]]; [|done|].
  - destruct H2. apply (above_antitone n d _ l); [done|done|lia|done].
  - destruct Hl1. apply (above_antitone n d _ (ilog2_ratio n d)); [done|done|lia|done].
Qed.

Lemma shl_scale k x e : shl (k * x) e = k * shl x e.
Proof. unfold shl. ring. Qed.

Lemma above_scale k n d l : 0 < k → above (k * n) (k * d) l ↔ above n d l.
Proof.
  intros Hk. unfold above. rewrite !shl_scale. split; [|nia].
  intros H. apply Z.mul_le_mono_pos_l in H; done.
Qed.

Lemma ilog2_ratio_scale k n d :
  0 < k → 0 < n → 0 < d → ilog2_ratio (k * n) (k * d) = ilog2_ratio n d.
Proof.
  intros Hk Hn Hd. destruct (ilog2_ratio_spec n d Hn Hd) as [H1 H2].
  apply ilog2_ratio_unique; [nia|nia|by apply above_scale|by rewrite above_scale].
Qed.

(** Rounding sees the fraction, not the pair that represents it. *)
Lemma round_pos_scale k n d :
  0 < k → 0 < n → 0 < d → round_pos (k * n) (k * d) = round_pos n d.
Proof.
  intros Hk Hn Hd. unfold round_pos. rewrite ilog2_ratio_scale by done.
  set (e := Z.max (ilog2_ratio n d - 52) emin). cbv zeta.
  rewrite !shl_scale.
  pose proof (shl_pos d e Hd) as Hden.
  rewrite Z.div_mul_cancel_l by lia.
  rewrite Z.mul_mod_distr_l by lia.
  set (q := shl n (- e) / shl d e). set (r := shl n (- e) mod shl d e).
  set (den := shl d e) in *.
  replace (2 * (k * r) <? k * den) with (2 * r <? den)
    by (destruct (Z.ltb_spec (2 * r) den), (Z.ltb_spec (2 * (k * r)) (k * den)); nia).
  replace (k * den <? 2 * (k * r)) with (den <? 2 * r)
    by (destruct (Z.ltb_spec den (2 * r)), (Z.ltb_spec (k * den) (2 * (k * r))); nia).
  done.
Qed.

Lemma round_float_scale neg k n d :
  0 < k → 0 < d → round_float neg (k * n) (k * d) = round_float neg n d.
Proof.
  intros Hk Hd. unfold round_float.
  destruct (Z.leb_spec n 0), (Z.leb_spec (k * n) 0); try nia; [done|].
  by rewrite round_pos_scale.
Qed.

(** A fraction that is a float rounds to itself. *)
Lemma round_pos_exact n d m e :
  0 < n → 0 < d → canonical m e →
  shl n (- e) = m * shl d e →
  round_pos n d = (m, e).
Proof.
  intros Hn Hd (Hm & He & Hnorm) Hx.
  destruct (Z.log2_spec m) as [Hl1 Hl2]; [lia|].
  pose proof (Z.log2_nonneg m) as Hl0. rewrite <- Z.add_1_r in Hl2.
  set (lm := Z.log2 m) in *.
  assert (Hlog : ilog2_ratio n d = lm + e).
  { apply ilog2_ratio_unique; [done|done| |]; unfold above.
    - pose proof (shl_cross n d e (lm + e) ltac:(lia)) as Hc.
      replace (lm + e - e) with lm in Hc by lia. rewrite Hx in Hc.
      pose proof (shl_pos d e Hd). pose proof (shl_pos d (lm + e) Hd).
      pose proof (shl_pos n (- (lm + e)) Hn).
      assert (m * shl d (lm + e) = 2 ^ lm * shl n (- (lm + e))) by nia.
      assert (2 ^ lm * shl d (lm + e) ≤ m * shl d (lm + e))
        by (apply Z.mul_le_mono_nonneg_r; lia).
      nia.
    - pose proof (shl_cross n d e (lm + e + 1) ltac:(lia)) as Hc.
      replace (lm + e + 1 - e) with (lm + 1) in Hc by lia. rewrite Hx in Hc.
      pose proof (shl_pos d e Hd). pose proof (shl_pos d (lm + e + 1) Hd).
      pose proof (shl_pos n (- (lm + e + 1)) Hn).
      assert (m * shl d (lm + e + 1) = 2 ^ (lm + 1) * shl n (- (lm + e + 1))) by nia.
      assert (m * shl n (- (lm + e + 1)) < 2 ^ (lm + 1) * shl n (- (lm + e + 1)))
        by (apply Z.mul_lt_mono_pos_r; lia).
      nia. }
  assert (Hexp : Z.max (ilog2_ratio n d - 52) emin = e).
  { rewrite Hlog. destruct Hnorm as [->|Hnorm].
    - assert (lm < 53); [|lia].
      apply (Z.pow_lt_mono_r_iff 2); lia.
    - assert (lm < 53) by (apply (Z.pow_lt_mono_r_iff 2); lia).
      assert (52 < lm + 1) by (apply (Z.pow_lt_mono_r_iff 2); lia).
      lia. }
  unfold round_pos. rewrite Hexp. cbv zeta. rewrite Hx.
  pose proof (shl_pos d e Hd).
  rewrite Z.div_mul by lia. rewrite Z.mod_mul by lia.
  rewrite (proj2 (Z.ltb_lt _ _)) by lia.
  by rewrite (proj2 (Z.eqb_neq _ _)) by lia.
Qed.


(** What rounding returns is a mantissa and an exponent of binary64, or
    the mantissa zero. *)
Lemma round_pos_canonical n d m e :
  0 < n → 0 < d → round_pos n d = (m, e) →
  0 ≤ m < 2 ^ 53 ∧ emin ≤ e ∧ (e = emin ∨ 2 ^ 52 ≤ m).
Proof.
  intros Hn Hd. unfold round_pos.
  destruct (ilog2_ratio_spec n d Hn Hd) as [Hab Hnab].
  set (l := ilog2_ratio n d) in *.
  set (e0 := Z.max (l - 52) emin). cbv zeta.
  set (num := shl n (- e0)). set (den := shl d e0).
  pose proof (shl_pos d e0 Hd) as Hden. pose proof (shl_pos n (- e0) Hn) as Hnum.
  fold den in Hden. fold num in Hnum.
  assert (Hupper : num < 2 ^ 53 * den).
  { unfold above in Hnab. apply Z.nle_gt in Hnab.
    pose proof (shl_pos d (l + 1) Hd) as HD.
    destruct (Z.le_gt_cases e0 (l + 1)) as [Hle|Hgt].
    - pose proof (shl_cross n d e0 (l + 1) Hle) as Hc. fold num den in Hc.
      assert (2 ^ (l + 1 - e0) ≤ 2 ^ 53) by (apply Z.pow_le_mono_r; lia).
      pose proof (pow2_pos (l + 1 - e0) ltac:(lia)).
      assert (num * shl d (l + 1) < 2 ^ (l + 1 - e0) * den * shl d (l + 1)) by nia.
      assert (num < 2 ^ (l + 1 - e0) * den) by nia. nia.
    - pose proof (shl_cross n d (l + 1) e0 ltac:(lia)) as Hc. fold num den in Hc.
      pose proof (pow2_pos (e0 - (l + 1)) ltac:(lia)).
      assert (2 ^ (e0 - (l + 1)) * (num * shl d (l + 1)) < shl d (l + 1) * den) by nia.
      assert (num * shl d (l + 1) < shl d (l + 1) * den) by nia.
      assert (num < den) by nia. nia. }
  assert (Hq : 0 ≤ num / den < 2 ^ 53).
  { split; [apply Z.div_pos; lia|]. apply Z.div_lt_upper_bound; lia. }
  assert (Hlower : emin ≤ l - 52 → 2 ^ 52 ≤ num / den).
  { intros He. assert (e0 = l - 52) as He0 by lia.
    unfold above in Hab.
    pose proof (shl_cross n d e0 l ltac:(lia)) as Hc. fold num den in Hc.
    replace (l - e0) with 52 in Hc by lia.
    pose proof (shl_pos d l Hd).
    apply Z.div_le_lower_bound; [lia|]. nia. }
  set (q := num / den) in *. set (r := num mod den).
  set (m0 := if 2 * r <? den then q
             else if den <? 2 * r then q + 1 else if Z.even q then q else q + 1).
  assert (Hm0 : q ≤ m0 ≤ q + 1).
  { unfold m0. repeat (match goal with |- context [if ?b then _ else _] => destruct b end); lia. }
  destruct (Z.eqb_spec m0 (2 ^ 53)) as [Heq|Hne]; intros H; inversion H; subst m e.
  - split; [lia|]. split; [lia|]. by right.
  - split; [lia|]. split; [lia|].
    destruct (Z.le_gt_cases emin (l - 52)); [right; specialize (Hlower ltac:(done))|left]; lia.
Qed.

(** A fraction that rounds to a finite float is below [2^1024] and above
    [2^-1075]. *)
Lemma round_float_finite_bounds neg n d s m e ovf :
  0 < d → round_float neg n d = (S754_finite s m e, ovf) →
  0 < n ∧ n < 2 ^ 1024 * d ∧ d < n * 2 ^ 1075.
Proof.
  intros Hd. unfold round_float.
  destruct (Z.leb_spec n 0) as [|Hn]; [done|].
  destruct (round_pos n d) as [m0 e0] eqn:Hr.
  destruct (Z.eqb_spec m0 0) as [|Hm0]; [done|].
  destruct (Z.ltb_spec emax e0) as [|He0]; [done|].
  intros _. split; [done|].
  destruct (ilog2_ratio_spec n d Hn Hd) as [Hab Hnab].
  unfold round_pos in Hr.
  set (l := ilog2_ratio n d) in *.
  set (e1 := Z.max (l - 52) emin) in *. cbv zeta in Hr.
  split.
  - apply Z.nle_gt. intros Hge.
    assert (Habove : above n d 1024).
    { unfold above, shl. change (Z.max 1024 0) with 1024.
      change (Z.max (- 1024) 0) with 0. rewrite Z.pow_0_r. lia. }
    assert (1024 ≤ l).
    { apply Z.nlt_ge. intros Hlt. apply Hnab.
      apply (above_antitone n d _ 1024); [done|done|lia|done]. }
    assert (972 ≤ e0); [|unfold emax in He0; lia].
    destruct (_ =? 2 ^ 53) in Hr; inversion Hr; lia.
  - apply Z.nle_gt. intros Hle.
    set (num := shl n (- e1)) in *. set (den := shl d e1) in *.
    pose proof (shl_pos d e1 Hd) as Hden. pose proof (shl_pos n (- e1) Hn) as Hnum.
    fold den in Hden. fold num in Hnum.
    assert (Hhalf : 2 * num ≤ den).
    { pose proof (shl_cross n d emin e1 ltac:(lia)) as Hc. fold num den in Hc.
      unfold shl at 1 2 in Hc. unfold emin at 1 3 in Hc.
      change (Z.max (- -1074) 0) with 1074 in Hc.
      change (Z.max (-1074) 0) with 0 in Hc. rewrite Z.pow_0_r in Hc.
      pose proof (pow2_pos (e1 - emin) ltac:(lia)).
      replace (2 ^ 1075) with (2 * 2 ^ 1074) in Hle by (by rewrite <- Z.pow_succ_r).
      assert (2 * (num * d) ≤ d * den) by nia.
      nia. }
    rewrite Z.div_small in Hr by lia. rewrite Z.mod_small in Hr by lia.
    destruct (Z.ltb_spec (2 * num) den); [simpl in Hr; inversion Hr; lia|].
    destruct (Z.ltb_spec den (2 * num)); [lia|].
    simpl in Hr. inversion Hr; lia.
Qed.

Lemma round_float_valid neg n d :
  0 < d → valid_float (fst (round_float neg n d)).
Proof.
  intros Hd. unfold round_float.
  destruct (Z.leb_spec n 0) as [|Hn]; [done|].
  destruct (round_pos n d) as [m e] eqn:Hr.
  destruct (Z.eqb_spec m 0) as [|Hm]; [done|].
  destruct (Z.ltb_spec emax e) as [|He]; [done|].
  simpl. destruct (round_pos_canonical n d m e Hn Hd Hr) as (Hm1 & He1 & Hnorm).
  rewrite Z2Pos.id by lia. unfold canonical. repeat split; (done || lia).
Qed.

(** A float rounds to itself. *)
Lemma round_float_exact neg n d m e :
  0 < n → 0 < d → canonical m e → e ≤ emax →
  shl n (- e) = m * shl d e →
  round_float neg n d = (S754_finite neg (Z.to_pos m) e, false).
Proof.
  intros Hn Hd Hc He Hx. unfold round_float.
  rewrite (proj2 (Z.leb_gt _ _)) by done.
  rewrite (round_pos_exact n d m e) by done.
  destruct Hc as (Hm & _).
  rewrite (proj2 (Z.eqb_neq _ _)) by lia.
  by rewrite (proj2 (Z.ltb_ge _ _)) by done.
Qed.

End Rounding.

(** * Decimal digits and their characters *)

Section Digits.
Import strconv.
#[local] Open Scope Z_scope.

Lemma undigits_from_app a ds ds' :
  undigits_from a (ds ++ ds') = undigits_from (undigits_from a ds) ds'.
Proof. unfold undigits_from. by rewrite fold_left_app. Qed.

Lemma undigits_from_cons a d ds :
  undigits_from a (d :: ds) = undigits_from (a * 10 + d) ds.
Proof. done. Qed.

Lemma undigits_from_eq a ds :
  undigits_from a ds = a * 10 ^ Z.of_nat (length ds) + undigits ds.
Proof.
  unfold undigits. revert a. induction ds as [|d ds IH]; intros a.
  - simpl. lia.
  - rewrite !undigits_from_cons. rewrite IH, (IH (0 * 10 + d)).
    rewrite length_cons, Nat2Z.inj_succ, Z.pow_succ_r by lia. ring.
Qed.

Lemma undigits_app ds ds' :
  undigits (ds ++ ds') = undigits ds * 10 ^ Z.of_nat (length ds') + undigits ds'.
Proof. unfold undigits at 1. rewrite undigits_from_app. apply undigits_from_eq. Qed.

Lemma undigits_nonneg ds : Forall is_decimal_digit ds → 0 ≤ undigits ds.
Proof.
  induction ds as [|d ds IH] using rev_ind; intros H; [done|].
  apply Forall_app in H as [H1 H2]. rewrite Forall_singleton in H2.
  rewrite undigits_app. unfold is_decimal_digit in H2.
  change (undigits [d]) with (0 * 10 + d).
  change (10 ^ Z.of_nat (length [d])) with 10.
  specialize (IH H1). lia.
Qed.

Lemma undigits_upper ds :
  Forall is_decimal_digit ds → undigits ds < 10 ^ Z.of_nat (length ds).
Proof.
  induction ds as [|d ds IH] using rev_ind; intros H; [done|].
  apply Forall_app in H as [H1 H2]. rewrite Forall_singleton in H2.
  rewrite undigits_app, length_app, Nat2Z.inj_add, Z.pow_add_r by lia.
  unfold is_decimal_digit in H2.
  change (undigits [d]) with (0 * 10 + d).
  change (10 ^ Z.of_nat (length [d])) with 10.
  specialize (IH H1). lia.
Qed.

Lemma undigits_lower d ds :
  Forall is_decimal_digit (d :: ds) → d ≠ 0 →
  10 ^ Z.of_nat (length ds) ≤ undigits (d :: ds).
Proof.
  intros H Hd. apply Forall_cons in H as [H1 H2].
  change (d :: ds) with ([d] ++ ds). rewrite undigits_app.
  change (undigits [d]) with (0 * 10 + d).
  pose proof (undigits_nonneg ds H2). unfold is_decimal_digit in H1.
  assert (0 < 10 ^ Z.of_nat (length ds)) by (apply Z.pow_pos_nonneg; lia).
  nia.
Qed.

Lemma undigits_replicate_zero k : undigits (replicate k 0) = 0.
Proof.
  induction k as [|k IH]; [done|].
  change (replicate (S k) 0) with ([0] ++ replicate k 0).
  rewrite undigits_app, IH. done.
Qed.

(** The digits of a positive number. *)
Lemma digits_aux_spec fuel : ∀ n acc,
  0 < n < 10 ^ Z.of_nat fuel →
  ∃ d ds, digits_aux fuel n acc = (d :: ds) ++ acc
          ∧ Forall is_decimal_digit (d :: ds) ∧ d ≠ 0 ∧ undigits (d :: ds) = n.
Proof.
  induction fuel as [|fuel IH]; intros n acc Hn; [simpl in Hn; lia|].
  simpl. destruct (Z.ltb_spec n 10) as [Hlt|Hge].
  - exists n, []. split; [done|]. split; [|split; [lia|unfold undigits; simpl; lia]].
    apply Forall_singleton. unfold is_decimal_digit. lia.
  - rewrite Nat2Z.inj_succ, Z.pow_succ_r in Hn by lia.
    destruct (IH (n / 10) (n mod 10 :: acc)) as (d & ds & Heq & Hall & Hd & Hval).
    { split; [apply Z.div_str_pos; lia|]. apply Z.div_lt_upper_bound; lia. }
    exists d, (ds ++ [n mod 10]). rewrite Heq. split; [by rewrite <- app_assoc|].
    split; [|split; [done|]].
    + change (d :: ds ++ [n mod 10]) with ((d :: ds) ++ [n mod 10]).
      apply Forall_app. split; [done|]. apply Forall_singleton.
      unfold is_decimal_digit. pose proof (Z.mod_pos_bound n 10). lia.
    + change (d :: ds ++ [n mod 10]) with ((d :: ds) ++ [n mod 10]).
      rewrite undigits_app, Hval. change (undigits [n mod 10]) with (0 * 10 + n mod 10).
      change (10 ^ Z.of_nat (length [n mod 10])) with 10.
      pose proof (Z.div_mod n 10). lia.
Qed.

Lemma digits_spec n :
  0 < n →
  ∃ d ds, digits n = d :: ds
          ∧ Forall is_decimal_digit (d :: ds) ∧ d ≠ 0 ∧ undigits (d :: ds) = n.
Proof.
  intros Hn. unfold digits. rewrite (proj2 (Z.leb_gt _ _)) by done.
  destruct (digits_aux_spec (S (Z.to_nat (Z.log2 n))) n []) as (d & ds & Heq & H).
  { split; [done|]. destruct (Z.log2_spec n Hn) as [_ H2].
    rewrite Nat2Z.inj_succ, Z2Nat.id by apply Z.log2_nonneg.
    apply Z.lt_le_trans with (2 ^ Z.succ (Z.log2 n)); [done|].
    apply Z.pow_le_mono_l. lia. }
  exists d, ds. by rewrite Heq, app_nil_r.
Qed.

Lemma digits_bounds n :
  0 < n →
  10 ^ (Z.of_nat (length (digits n)) - 1) ≤ n < 10 ^ Z.of_nat (length (digits n)).
Proof.
  intros Hn. destruct (digits_spec n Hn) as (d & ds & -> & Hall & Hd & Hval).
  split.
  - rewrite <- Hval. rewrite length_cons, Nat2Z.inj_succ.
    replace (Z.succ (Z.of_nat (length ds)) - 1) with (Z.of_nat (length ds)) by lia.
    by apply undigits_lower.
  - rewrite <- Hval. by apply undigits_upper.
Qed.

Lemma digits_nonpos n : n ≤ 0 → digits n = [].
Proof. intros. unfold digits. by rewrite (proj2 (Z.leb_le _ _)). Qed.

(** *** Characters *)

Lemma decimal_digit_cases d :
  is_decimal_digit d →
  d = 0 ∨ d = 1 ∨ d = 2 ∨ d = 3 ∨ d = 4 ∨ d = 5 ∨ d = 6 ∨ d = 7 ∨ d = 8 ∨ d = 9.
Proof. unfold is_decimal_digit. lia. Qed.

Ltac by_digit_cases H :=
  apply decimal_digit_cases in H;
  repeat (destruct H as [H|H]); subst; vm_compute; try reflexivity; try discriminate.

Lemma byte_digit_char d : is_decimal_digit d → byte (digit_char d) = 48 + d.
Proof. intros H. by_digit_cases H. Qed.

Lemma is_digit_digit_char d : is_decimal_digit d → is_digit (digit_char d) = true.
Proof. intros H. by_digit_cases H. Qed.

Lemma digit_char_eqb_zero d :
  is_decimal_digit d → Ascii.eqb (digit_char d) "0" = (d =? 0).
Proof. intros H. by_digit_cases H. Qed.

Lemma digit_char_not_special d c :
  is_decimal_digit d → is_digit c = false → Ascii.eqb (digit_char d) c = false.
Proof.
  intros H Hc. destruct (Ascii.eqb_spec (digit_char d) c) as [<-|]; [|done].
  by rewrite is_digit_digit_char in Hc.
Qed.

Lemma lower_digit_char d : is_decimal_digit d → lower (digit_char d) = 48 + d.
Proof. intros H. by_digit_cases H. Qed.

(** A character that is a digit is the character of its digit. *)
Lemma is_digit_inv c :
  is_digit c = true → is_decimal_digit (byte c - 48) ∧ c = digit_char (byte c - 48).
Proof.
  unfold is_digit, is_decimal_digit. intros H.
  apply andb_true_iff in H as [H1 H2]. apply Z.leb_le in H1, H2.
  split; [lia|]. unfold digit_char, char.
  replace (48 + (byte c - 48)) with (byte c) by lia.
  unfold byte. by rewrite N2Z.id, ascii_N_embedding.
Qed.

End Digits.

(** * Reading back what FormatFloat writes *)

Section Lexing.
Import strconv.
#[local] Open Scope Z_scope.

Lemma append_cons c (a b : string) : String c a +:+ b = String c (a +:+ b).
Proof. reflexivity. Qed.

Lemma append_nil_l (a : string) : "" +:+ a = a.
Proof. reflexivity. Qed.

Lemma string_of_digits_cons d ds :
  string_of_digits (d :: ds) = String (digit_char d) (string_of_digits ds).
Proof. done. Qed.

Lemma string_of_digits_app ds ds' :
  string_of_digits (ds ++ ds') = string_of_digits ds +:+ string_of_digits ds'.
Proof.
  induction ds as [|d ds IH]; [done|].
  rewrite <- app_comm_cons, !string_of_digits_cons, IH. by rewrite append_cons.
Qed.

Lemma length_string_of_digits ds : String.length (string_of_digits ds) = length ds.
Proof.
  induction ds as [|d ds IH]; [done|].
  rewrite string_of_digits_cons. simpl. by rewrite IH.
Qed.

Lemma length_append (a b : string) :
  String.length (a +:+ b) = (String.length a + String.length b)%nat.
Proof. induction a as [|c a IH]; [done|]. rewrite append_cons. simpl. by rewrite IH. Qed.

Lemma append_assoc (a b c : string) : (a +:+ b) +:+ c = a +:+ (b +:+ c).
Proof. induction a as [|x a IH]; [done|]. rewrite !append_cons. by rewrite IH. Qed.

Lemma append_nil_r (a : string) : a +:+ "" = a.
Proof. induction a as [|x a IH]; [done|]. rewrite append_cons. by rewrite IH. Qed.

(** One step of the mantissa loop at the character of a digit. *)
Lemma read_mantissa_digit d rest st :
  is_decimal_digit d →
  read_mantissa false (String (digit_char d) rest) st
  = if (d =? 0) && (nd st =? 0) then
      read_mantissa false rest
        (MantState (sawdot st) true (nd st) (dp st - 1) (mantissa st) (underscores st))
    else
      read_mantissa false rest
        (MantState (sawdot st) true (nd st + 1) (dp st) (mantissa st * 10 + d)
           (underscores st)).
Proof.
  intros Hd. simpl.
  rewrite (digit_char_not_special d "_"), (digit_char_not_special d ".") by done.
  rewrite is_digit_digit_char, digit_char_eqb_zero, byte_digit_char by done.
  replace (48 + d - 48) with d by lia. done.
Qed.

(** The loop over digits none of which is a leading zero. *)
Lemma read_mantissa_digits ds : ∀ st rest,
  Forall is_decimal_digit ds → 0 ≤ nd st →
  (0 < nd st ∨ head ds ≠ Some 0) →
  read_mantissa false (string_of_digits ds +:+ rest) st
  = read_mantissa false rest
      (MantState (sawdot st) (sawdigits st || bool_decide (ds ≠ []))
         (nd st + Z.of_nat (length ds)) (dp st)
         (undigits_from (mantissa st) ds) (underscores st)).
Proof.
  induction ds as [|d ds IH]; intros st rest Hall Hnd Hlead.
  - rewrite append_nil_l. simpl. rewrite orb_false_r, Z.add_0_r. by destruct st.
  - apply Forall_cons in Hall as [Hd Hall].
    rewrite string_of_digits_cons, append_cons.
    rewrite read_mantissa_digit by done.
    replace ((d =? 0) && (nd st =? 0)) with false.
    2:{ symmetry. apply andb_false_iff. destruct Hlead as [H|H].
        - right. apply Z.eqb_neq. lia.
        - left. apply Z.eqb_neq. intros ->. by apply H. }
    rewrite IH; [|done|simpl; lia|left; simpl; lia]. simpl.
    rewrite orb_true_r. f_equal. f_equal. lia.
Qed.

(** The loop over leading zeros. *)
Lemma read_mantissa_zeros k : ∀ st rest,
  nd st = 0 →
  read_mantissa false (zeros k +:+ rest) st
  = read_mantissa false rest
      (MantState (sawdot st) (sawdigits st || bool_decide (k ≠ 0%nat)) 0
         (dp st - Z.of_nat k) (mantissa st) (underscores st)).
Proof.
  induction k as [|k IH]; intros st rest Hnd.
  - rewrite append_nil_l. simpl. rewrite orb_false_r, Z.sub_0_r.
    destruct st; simpl in *. by subst.
  - unfold zeros. simpl replicate. rewrite string_of_digits_cons, append_cons.
    rewrite read_mantissa_digit by (unfold is_decimal_digit; lia).
    rewrite Hnd. simpl andb. cbv iota.
    fold (zeros k). rewrite IH by done. simpl.
    rewrite orb_true_r. f_equal. f_equal. lia.
Qed.

Lemma read_mantissa_dot rest st :
  sawdot st = false →
  read_mantissa false (String "." rest) st
  = read_mantissa false rest
      (MantState true (sawdigits st) (nd st) (nd st) (mantissa st) (underscores st)).
Proof. intros H. simpl. by rewrite H. Qed.

Lemma read_mantissa_nil st : read_mantissa false "" st = (st, "").
Proof. done. Qed.

Lemma read_mantissa_e rest st :
  read_mantissa false (String "e" rest) st = (st, String "e" rest).
Proof. done. Qed.

(** The exponent: digits that stay below the cap. *)
Lemma undigits_from_mono a ds :
  0 ≤ a → Forall is_decimal_digit ds → a ≤ undigits_from a ds.
Proof.
  revert a. induction ds as [|d ds IH]; intros a Ha Hall; [done|].
  apply Forall_cons in Hall as [Hd Hall]. unfold is_decimal_digit in Hd.
  rewrite undigits_from_cons. specialize (IH (a * 10 + d) ltac:(lia) Hall). lia.
Qed.

Lemma read_exp_digits_digits ds : ∀ e us,
  Forall is_decimal_digit ds → 0 ≤ e → undigits_from e ds < 10000 →
  read_exp_digits (string_of_digits ds) e us = (undigits_from e ds, us, "").
Proof.
  induction ds as [|d ds IH]; intros e us Hall He Hcap; [done|].
  apply Forall_cons in Hall as [Hd Hall].
  rewrite string_of_digits_cons. simpl read_exp_digits.
  rewrite is_digit_digit_char, byte_digit_char by done.
  rewrite undigits_from_cons in *.
  pose proof (undigits_from_mono (e * 10 + d) ds) as Hm.
  unfold is_decimal_digit in Hd. specialize (Hm ltac:(lia) Hall).
  rewrite (proj2 (Z.ltb_lt e 10000)) by lia.
  replace (48 + d - 48) with d by lia.
  apply IH; [done|lia|done].
Qed.

(** The exponent as [fmtE] writes it: a sign and two or three digits. *)
Lemma exponent_digits_spec exp :
  0 ≤ exp < 1000 →
  Forall is_decimal_digit (exponent_digits exp) ∧ undigits (exponent_digits exp) = exp
  ∧ ∃ d ds, exponent_digits exp = d :: ds.
Proof.
  intros Hexp. unfold exponent_digits, undigits, undigits_from, is_decimal_digit.
  destruct (Z.ltb_spec exp 10); [|destruct (Z.ltb_spec exp 100)].
  - split; [repeat constructor; lia|]. split; [cbn [fold_left]; lia|eauto].
  - assert (0 ≤ exp / 10 < 10)
      by (split; [apply Z.div_pos; lia|apply Z.div_lt_upper_bound; lia]).
    pose proof (Z.mod_pos_bound exp 10). pose proof (Z.div_mod exp 10).
    split; [repeat constructor; lia|]. split; [cbn [fold_left]; lia|eauto].
  - assert (0 ≤ exp / 100 < 10)
      by (split; [apply Z.div_pos; lia|apply Z.div_lt_upper_bound; lia]).
    pose proof (Z.mod_pos_bound exp 10). pose proof (Z.mod_pos_bound (exp / 10) 10).
    pose proof (Z.div_mod exp 10). pose proof (Z.div_mod (exp / 10) 10).
    assert (exp / 10 / 10 = exp / 100) by (rewrite Z.div_div by lia; reflexivity).
    split; [repeat constructor; lia|]. split; [cbn [fold_left]; lia|eauto].
Qed.

Lemma read_exponent_written (exp : Z) :
  -1000 < exp < 1000 →
  read_exponent ((if exp <? 0 then "-" else "+")
                 +:+ string_of_digits (exponent_digits (Z.abs exp)))
  = Some (exp, false, "").
Proof.
  intros Hexp.
  destruct (exponent_digits_spec (Z.abs exp)) as (Hall & Hval & d & ds & Heq); [lia|].
  assert (Hread : read_exp_digits (string_of_digits (exponent_digits (Z.abs exp))) 0 false
                  = (Z.abs exp, false, "")).
  { rewrite read_exp_digits_digits; [|done|lia|].
    - f_equal. f_equal. exact Hval.
    - fold (undigits (exponent_digits (Z.abs exp))). lia. }
  assert (Hd : is_decimal_digit d).
  { rewrite Heq in Hall. by apply Forall_cons in Hall as [? _]. }
  rewrite Heq in *. rewrite string_of_digits_cons in *.
  destruct (Z.ltb_spec exp 0); rewrite append_cons, append_nil_l; unfold read_exponent;
    simpl Ascii.eqb; cbv iota; simpl orb; cbv iota;
    rewrite is_digit_digit_char by done; rewrite Hread; f_equal; f_equal; f_equal; lia.
Qed.

End Lexing.

(** * ParseFloat after FormatFloat *)

Section RoundTrip.
Import strconv.
#[local] Open Scope Z_scope.

Lemma special_decimal neg d body :
  is_decimal_digit d →
  special (sign_string neg +:+ String (digit_char d) body) = None.
Proof.
  intros Hd. apply decimal_digit_cases in Hd.
  destruct neg; repeat (destruct Hd as [Hd|Hd]); subst; vm_compute; reflexivity.
Qed.

Lemma has_hex_prefix_nonzero d body :
  is_decimal_digit d → d ≠ 0 → has_hex_prefix (String (digit_char d) body) = false.
Proof.
  intros Hd Hne. unfold has_hex_prefix.
  destruct body as [|b [|c body]]; try done.
  rewrite digit_char_eqb_zero by done. by rewrite (proj2 (Z.eqb_neq d 0)).
Qed.

(** [readFloat] on a sign and a decimal mantissa, with or without an
    exponent, and nothing after it. *)
Lemma readFloat_signed sgn neg d body st r e :
  (sgn = "" ∧ neg = false ∨ sgn = "+" ∧ neg = false ∨ sgn = "-" ∧ neg = true) →
  is_decimal_digit d →
  has_hex_prefix (String (digit_char d) body) = false →
  read_mantissa false (String (digit_char d) body) (MantState false false 0 0 0 false)
  = (st, r) →
  sawdigits st = true → underscores st = false →
  (r = "" ∧ e = 0 ∨ ∃ r1, r = String "e" r1 ∧ read_exponent r1 = Some (e, false, "")) →
  readFloat (sgn +:+ String (digit_char d) body)
  = Some (mantissa st,
          (if mantissa st =? 0 then 0
           else (if sawdot st then dp st else nd st) + e - nd st),
          neg, false,
          String.length (sgn +:+ String (digit_char d) body)).
Proof.
  intros Hsgn Hd Hhex Hread Hsaw Hus Hr.
  assert (Hstart : ∀ s0 : string,
    s0 = String (digit_char d) body →
    ∀ s : string, (String.length s0 ≤ String.length s)%nat →
    (let hex := has_hex_prefix s0 in
     let s2 := if hex then String.substring 2 (String.length s0 - 2) s0 else s0 in
     let '(st, r) := read_mantissa hex s2 (MantState false false 0 0 0 false) in
     if negb (sawdigits st) then None
     else
       let dp0 := if sawdot st then dp st else nd st in
       let dp1 := if hex then dp0 * 4 else dp0 in
       let ndMant := if hex then nd st * 4 else nd st in
       let finish (dp2 : Z) (us : bool) (r' : string) :=
         let n := (String.length s - String.length r')%nat in
         if us && negb (underscoreOK (String.substring 0 n s)) then None
         else Some (mantissa st, (if mantissa st =? 0 then 0 else dp2 - ndMant), neg, hex, n) in
       match r with
       | String c r1 =>
           if lower c =? (if hex then 112 else 101) then
             match read_exponent r1 with
             | None => None
             | Some (e, us, r2) => finish (dp1 + e) (underscores st || us) r2
             end
           else if hex then None
           else finish dp1 (underscores st) r
       | EmptyString => if hex then None else finish dp1 (underscores st) r
       end)
    = Some (mantissa st,
            (if mantissa st =? 0 then 0
             else (if sawdot st then dp st else nd st) + e - nd st),
            neg, false, String.length s)).
  { intros s0 -> s Hlen. cbv zeta. rewrite Hhex. rewrite Hread, Hsaw. simpl negb. cbv iota.
    rewrite Hus. simpl andb.
    destruct Hr as [[-> ->]|(r1 & -> & Hexp)].
    - cbv iota. rewrite Nat.sub_0_r, Z.add_0_r. done.
    - change (lower "e" =? 101) with true. cbv iota. rewrite Hexp.
      simpl andb. cbv iota. by rewrite Nat.sub_0_r. }
  destruct Hsgn as [ [-> ->] | [ [-> ->] | [-> ->] ] ].
  - rewrite append_nil_l. unfold readFloat.
    rewrite (digit_char_not_special d "-"), (digit_char_not_special d "+") by done.
    simpl orb. cbv iota. apply Hstart; [done|simpl; lia].
  - change ("+" +:+ String (digit_char d) body)
      with (String "+" (String (digit_char d) body)).
    unfold readFloat. change (Ascii.eqb "+" "+") with true.
    change (Ascii.eqb "+" "-") with false.
    simpl orb. cbv iota. apply Hstart; [done|simpl; lia].
  - change ("-" +:+ String (digit_char d) body)
      with (String "-" (String (digit_char d) body)).
    unfold readFloat. change (Ascii.eqb "-" "-") with true.
    rewrite orb_true_r. cbv iota. apply Hstart; [done|simpl; lia].
Qed.

Lemma readFloat_decimal neg d body st r e :
  is_decimal_digit d →
  has_hex_prefix (String (digit_char d) body) = false →
  read_mantissa false (String (digit_char d) body) (MantState false false 0 0 0 false)
  = (st, r) →
  sawdigits st = true → underscores st = false →
  (r = "" ∧ e = 0 ∨ ∃ r1, r = String "e" r1 ∧ read_exponent r1 = Some (e, false, "")) →
  readFloat (sign_string neg +:+ String (digit_char d) body)
  = Some (mantissa st,
          (if mantissa st =? 0 then 0
           else (if sawdot st then dp st else nd st) + e - nd st),
          neg, false,
          String.length (sign_string neg +:+ String (digit_char d) body)).
Proof.
  apply readFloat_signed. destruct neg; auto.
Qed.

Lemma special_signed sgn d body :
  (sgn = "" ∨ sgn = "+" ∨ sgn = "-") → is_decimal_digit d →
  special (sgn +:+ String (digit_char d) body) = None.
Proof.
  intros Hsgn Hd. apply decimal_digit_cases in Hd.
  destruct Hsgn as [-> | [-> | ->] ]; repeat (destruct Hd as [Hd|Hd]); subst;
    vm_compute; reflexivity.
Qed.



(** *** What [fmtE] and [fmtF] write *)

Lemma fmtE_shape neg d0 ds' dp :
  fmtE neg (d0 :: ds') dp (Z.of_nat (length ds'))
  = sign_string neg
    +:+ String (digit_char d0)
          ((match ds' with [] => "" | _ => "." +:+ string_of_digits ds' end)
           +:+ String "e"
                 ((if dp - 1 <? 0 then "-" else "+")
                  +:+ string_of_digits (exponent_digits (Z.abs (dp - 1))))).
Proof.
  unfold fmtE. cbv zeta.
  rewrite length_cons, Nat2Z.inj_succ.
  replace (Z.succ (Z.of_nat (length ds')) =? 0) with false by (symmetry; apply Z.eqb_neq; lia).
  f_equal. rewrite append_cons. f_equal. f_equal.
  destruct ds' as [|d1 ds']; [done|].
  rewrite (proj2 (Z.ltb_lt 0 _)) by (rewrite length_cons; lia).
  rewrite Z.min_l by lia.
  rewrite (proj2 (Z.ltb_lt 1 _)) by (rewrite length_cons; lia).
  replace (Z.to_nat (Z.succ (Z.of_nat (length (d1 :: ds'))) - 1)) with (length (d1 :: ds'))
    by lia.
  replace (Z.to_nat (Z.of_nat (length (d1 :: ds')) + 1
                     - Z.succ (Z.of_nat (length (d1 :: ds'))))) with 0%nat by lia.
  change (drop 1 (d0 :: d1 :: ds')) with (d1 :: ds'). rewrite firstn_all.
  change (zeros 0) with "". by rewrite append_nil_r.
Qed.

(** The digits after the point: zeros down to the first digit, then the
    digits right of the point. *)
Lemma fraction_digits ds dp :
  dp < Z.of_nat (length ds) →
  map (λ i : nat,
         let j := dp + Z.of_nat i in
         if (0 <=? j) && (j <? Z.of_nat (length ds)) then nth (Z.to_nat j) ds 0 else 0)
      (seq 0 (Z.to_nat (Z.of_nat (length ds) - dp)))
  = replicate (Z.to_nat (- dp)) 0 ++ drop (Z.to_nat dp) ds.
Proof.
  intros Hdp. apply list_eq. intros i.
  rewrite list_lookup_fmap.
  destruct (decide (i < Z.to_nat (Z.of_nat (length ds) - dp))%nat) as [Hi|Hi].
  - rewrite lookup_seq_lt by done. simpl.
    destruct (decide (i < Z.to_nat (- dp))%nat) as [Hk|Hk].
    + rewrite lookup_app_l by (rewrite length_replicate; lia).
      rewrite (proj2 (lookup_replicate _ _ _ _)) by done.
      replace (0 <=? dp + Z.of_nat i) with false by (symmetry; apply Z.leb_gt; lia).
      done.
    + rewrite lookup_app_r by (rewrite length_replicate; lia).
      rewrite length_replicate, lookup_drop.
      rewrite (proj2 (Z.leb_le 0 _)) by lia. rewrite (proj2 (Z.ltb_lt _ _)) by lia.
      simpl. replace (Z.to_nat dp + (i - Z.to_nat (- dp)))%nat
        with (Z.to_nat (dp + Z.of_nat i)) by lia.
      destruct (ds !! Z.to_nat (dp + Z.of_nat i)) as [x|] eqn:Hx.
      * f_equal. by apply nth_lookup_Some.
      * apply lookup_ge_None in Hx. lia.
  - rewrite lookup_seq_ge by lia. simpl. symmetry. apply lookup_ge_None.
    rewrite length_app, length_replicate, length_drop. lia.
Qed.

Lemma fmtF_shape_fraction neg ds dp :
  dp ≤ 0 → 0 < Z.of_nat (length ds) →
  fmtF neg ds dp (Z.max (Z.of_nat (length ds) - dp) 0)
  = sign_string neg
    +:+ String (digit_char 0)
          (String "." (zeros (Z.to_nat (- dp)) +:+ string_of_digits ds)).
Proof.
  intros Hdp Hnd. unfold fmtF. cbv zeta.
  rewrite (proj2 (Z.ltb_ge 0 dp)) by done.
  rewrite Z.max_l by lia. rewrite (proj2 (Z.ltb_lt 0 _)) by lia.
  rewrite fraction_digits by lia.
  replace (Z.to_nat dp) with 0%nat by lia. rewrite drop_0.
  rewrite string_of_digits_app. done.
Qed.

Lemma fmtF_shape_point neg ds dp :
  0 < dp < Z.of_nat (length ds) →
  fmtF neg ds dp (Z.max (Z.of_nat (length ds) - dp) 0)
  = sign_string neg
    +:+ string_of_digits (take (Z.to_nat dp) ds)
    +:+ String "." (string_of_digits (drop (Z.to_nat dp) ds)).
Proof.
  intros Hdp. unfold fmtF. cbv zeta.
  rewrite (proj2 (Z.ltb_lt 0 dp)) by lia.
  rewrite Z.max_l by lia. rewrite (proj2 (Z.ltb_lt 0 _)) by lia.
  rewrite fraction_digits by lia.
  replace (Z.to_nat (- dp)) with 0%nat by lia. rewrite app_nil_l.
  rewrite Z.min_r by lia. replace (Z.to_nat (dp - dp)) with 0%nat by lia.
  change (zeros 0) with "". by rewrite append_nil_r.
Qed.

Lemma fmtF_shape_integer neg ds dp :
  0 < Z.of_nat (length ds) ≤ dp →
  fmtF neg ds dp (Z.max (Z.of_nat (length ds) - dp) 0)
  = sign_string neg
    +:+ string_of_digits (ds ++ replicate (Z.to_nat (dp - Z.of_nat (length ds))) 0).
Proof.
  intros Hdp. unfold fmtF. cbv zeta.
  rewrite (proj2 (Z.ltb_lt 0 dp)) by lia.
  rewrite Z.max_r by lia. change (0 <? 0) with false. cbv iota.
  rewrite Z.min_l by lia. rewrite Nat2Z.id, firstn_all.
  rewrite append_nil_r. by rewrite string_of_digits_app.
Qed.


(** *** Reading them back *)

Lemma undigits_pos d0 ds' :
  Forall is_decimal_digit (d0 :: ds') → d0 ≠ 0 → 0 < undigits (d0 :: ds').
Proof.
  intros Hall Hd0. pose proof (undigits_lower d0 ds' Hall Hd0).
  assert (0 < 10 ^ Z.of_nat (length ds')) by (apply Z.pow_pos_nonneg; lia). lia.
Qed.

Lemma readFloat_fmtE neg d0 ds' dp :
  Forall is_decimal_digit (d0 :: ds') → d0 ≠ 0 → -1000 < dp - 1 < 1000 →
  readFloat (fmtE neg (d0 :: ds') dp (Z.of_nat (length ds')))
  = Some (undigits (d0 :: ds'), dp - Z.of_nat (length (d0 :: ds')), neg, false,
          String.length (fmtE neg (d0 :: ds') dp (Z.of_nat (length ds')))).
Proof.
  intros Hall Hd0 Hdp. pose proof (undigits_pos d0 ds' Hall Hd0) as Hpos.
  apply Forall_cons in Hall as [Hd Hall].
  rewrite fmtE_shape.
  set (R := (if dp - 1 <? 0 then "-" else "+")
            +:+ string_of_digits (exponent_digits (Z.abs (dp - 1)))).
  set (st := MantState (bool_decide (ds' ≠ [])) true (1 + Z.of_nat (length ds')) 
               (if bool_decide (ds' ≠ []) then 1 else 0) (undigits (d0 :: ds')) false).
  rewrite (readFloat_decimal neg d0 _ st (String "e" R) (dp - 1)); try done.
  - simpl mantissa. rewrite (proj2 (Z.eqb_neq _ 0)) by lia.
    f_equal. f_equal. f_equal. f_equal. f_equal. unfold st. simpl.
    destruct ds' as [|d1 ds']; [simpl; lia|].
    rewrite !(bool_decide_true (d1 :: ds' ≠ [])) by done. lia.
  - by apply has_hex_prefix_nonzero.
  - rewrite read_mantissa_digit by done.
    rewrite (proj2 (Z.eqb_neq d0 0)) by done. simpl andb. cbv iota.
    destruct ds' as [|d1 ds'].
    + rewrite append_nil_l, read_mantissa_e. done.
    + rewrite append_cons, append_nil_l, append_cons, read_mantissa_dot by done.
      rewrite read_mantissa_digits; [|done|simpl; lia|left; simpl; lia].
      rewrite read_mantissa_e. reflexivity.
  - right. exists R. split; [done|]. by apply read_exponent_written.
Qed.

Lemma readFloat_fmtF_fraction neg d0 ds' dp :
  Forall is_decimal_digit (d0 :: ds') → d0 ≠ 0 → dp ≤ 0 →
  readFloat (fmtF neg (d0 :: ds') dp (Z.max (Z.of_nat (length (d0 :: ds')) - dp) 0))
  = Some (undigits (d0 :: ds'), dp - Z.of_nat (length (d0 :: ds')), neg, false,
          String.length
            (fmtF neg (d0 :: ds') dp (Z.max (Z.of_nat (length (d0 :: ds')) - dp) 0))).
Proof.
  intros Hall Hd0 Hdp. pose proof (undigits_pos d0 ds' Hall Hd0) as Hpos.
  rewrite fmtF_shape_fraction by (rewrite ?length_cons; lia).
  set (st := MantState true true (Z.of_nat (length (d0 :: ds'))) dp
               (undigits (d0 :: ds')) false).
  assert (Hzero : is_decimal_digit 0) by (unfold is_decimal_digit; lia).
  rewrite (readFloat_decimal neg 0 _ st "" 0); [|done| | |done|done|by left].
  - simpl mantissa. rewrite (proj2 (Z.eqb_neq _ 0)) by lia.
    f_equal. f_equal. f_equal. f_equal. f_equal. unfold st. simpl. lia.
  - unfold has_hex_prefix. by destruct (_ +:+ _).
  - rewrite read_mantissa_digit by done. simpl andb. cbv iota.
    rewrite read_mantissa_dot by done.
    rewrite read_mantissa_zeros by done.
    rewrite <- (append_nil_r (string_of_digits (d0 :: ds'))).
    rewrite read_mantissa_digits; [|done|simpl; lia|right; simpl; congruence].
    rewrite read_mantissa_nil. unfold st. simpl.
    f_equal; f_equal; (lia || reflexivity).
Qed.

Lemma readFloat_fmtF_point neg d0 ds' dp :
  Forall is_decimal_digit (d0 :: ds') → d0 ≠ 0 →
  0 < dp < Z.of_nat (length (d0 :: ds')) →
  readFloat (fmtF neg (d0 :: ds') dp (Z.max (Z.of_nat (length (d0 :: ds')) - dp) 0))
  = Some (undigits (d0 :: ds'), dp - Z.of_nat (length (d0 :: ds')), neg, false,
          String.length
            (fmtF neg (d0 :: ds') dp (Z.max (Z.of_nat (length (d0 :: ds')) - dp) 0))).
Proof.
  intros Hall Hd0 Hdp. pose proof (undigits_pos d0 ds' Hall Hd0) as Hpos.
  rewrite fmtF_shape_point by done.
  destruct (Z.to_nat dp) as [|k] eqn:Hk; [lia|].
  rewrite firstn_cons, string_of_digits_cons, append_cons.
  change (drop (S k) (d0 :: ds')) with (drop k ds').
  set (st := MantState true true (Z.of_nat (length (d0 :: ds'))) dp
               (undigits (d0 :: ds')) false).
  apply Forall_cons in Hall as [Hd Hall].
  rewrite length_cons in Hdp.
  rewrite (readFloat_decimal neg d0 _ st "" 0); try done.
  - simpl mantissa. rewrite (proj2 (Z.eqb_neq _ 0)) by lia.
    f_equal. f_equal. f_equal. f_equal. f_equal. unfold st. simpl. lia.
  - by apply has_hex_prefix_nonzero.
  - rewrite read_mantissa_digit by done.
    rewrite (proj2 (Z.eqb_neq d0 0)) by done. simpl andb. cbv iota.
    rewrite read_mantissa_digits;
      [|by apply Forall_take|simpl; lia|left; simpl; lia].
    rewrite read_mantissa_dot by done.
    rewrite <- (append_nil_r (string_of_digits (drop k ds'))).
    rewrite read_mantissa_digits;
      [|by apply Forall_drop|simpl; lia|left; simpl; lia].
    rewrite read_mantissa_nil. unfold st. simpl. f_equal. f_equal.
    + rewrite length_take, length_drop. lia.
    + rewrite length_take. lia.
    + rewrite <- undigits_from_app, take_drop. done.
  - by left.
Qed.

Lemma readFloat_fmtF_integer neg d0 ds' dp :
  Forall is_decimal_digit (d0 :: ds') → d0 ≠ 0 →
  Z.of_nat (length (d0 :: ds')) ≤ dp →
  readFloat (fmtF neg (d0 :: ds') dp (Z.max (Z.of_nat (length (d0 :: ds')) - dp) 0))
  = Some (undigits (d0 :: ds') * 10 ^ (dp - Z.of_nat (length (d0 :: ds'))), 0, neg, false,
          String.length
            (fmtF neg (d0 :: ds') dp (Z.max (Z.of_nat (length (d0 :: ds')) - dp) 0))).
Proof.
  intros Hall Hd0 Hdp. pose proof (undigits_pos d0 ds' Hall Hd0) as Hpos.
  rewrite fmtF_shape_integer by (rewrite length_cons in *; lia).
  set (k := Z.to_nat (dp - Z.of_nat (length (d0 :: ds')))).
  rewrite <- app_comm_cons, string_of_digits_cons.
  set (st := MantState false true dp 0
               (undigits (d0 :: ds') * 10 ^ (dp - Z.of_nat (length (d0 :: ds')))) false).
  assert (Hval : undigits_from d0 (ds' ++ replicate k 0)
                 = undigits (d0 :: ds') * 10 ^ (dp - Z.of_nat (length (d0 :: ds')))).
  { change (undigits_from d0 (ds' ++ replicate k 0))
      with (undigits ((d0 :: ds') ++ replicate k 0)).
    rewrite undigits_app, undigits_replicate_zero, length_replicate. unfold k.
    rewrite Z2Nat.id by lia. lia. }
  assert (0 < 10 ^ (dp - Z.of_nat (length (d0 :: ds')))) by (apply Z.pow_pos_nonneg; lia).
  assert (Hne : undigits (d0 :: ds') * 10 ^ (dp - Z.of_nat (length (d0 :: ds'))) ≠ 0)
    by (apply Z.neq_mul_0; lia).
  apply Forall_cons in Hall as [Hd Hall].
  rewrite (readFloat_decimal neg d0 _ st "" 0); try done.
  - unfold st at 1 2. cbn [mantissa]. rewrite (proj2 (Z.eqb_neq _ 0)) by exact Hne.
    f_equal. f_equal. f_equal. f_equal. f_equal. unfold st. simpl. lia.
  - by apply has_hex_prefix_nonzero.
  - rewrite read_mantissa_digit by done.
    rewrite (proj2 (Z.eqb_neq d0 0)) by done. simpl andb. cbv iota.
    rewrite <- (append_nil_r (string_of_digits (ds' ++ replicate k 0))).
    rewrite read_mantissa_digits; [| |simpl; lia|left; simpl; lia].
    2:{ apply Forall_app. split; [done|]. apply Forall_replicate.
        unfold is_decimal_digit. lia. }
    rewrite read_mantissa_nil. unfold st. f_equal. f_equal.
    + cbn [nd]. rewrite length_app, length_replicate. unfold k.
      rewrite length_cons in *. lia.
    + cbn [mantissa]. rewrite <- Hval. done.
  - by left.
Qed.


(** *** Rounding decimals *)

Lemma round_decimal_integer neg M k :
  0 ≤ k → round_decimal neg (M * 10 ^ k) 0 = round_decimal neg M k.
Proof.
  intros Hk. unfold round_decimal, scale.
  rewrite (Z.max_l k 0), (Z.max_r (- k) 0) by lia. simpl Z.max.
  rewrite Z.pow_0_r. by rewrite Z.mul_1_r.
Qed.

Lemma round_decimal_shift neg M q :
  round_decimal neg (10 * M) q = round_decimal neg M (q + 1).
Proof.
  unfold round_decimal, scale. destruct (Z.le_gt_cases 0 q) as [Hq|Hq].
  - rewrite (Z.max_l q 0), (Z.max_r (- q) 0), (Z.max_l (q + 1) 0),
      (Z.max_r (- (q + 1)) 0) by lia.
    rewrite Z.pow_add_r by lia. f_equal. change (10 ^ 1) with 10. ring.
  - rewrite (Z.max_r q 0), (Z.max_l (- q) 0), (Z.max_r (q + 1) 0),
      (Z.max_l (- (q + 1)) 0) by lia.
    replace (- q) with (1 + - (q + 1)) by lia. rewrite Z.pow_add_r by lia.
    change (10 ^ 1) with 10. rewrite Z.pow_0_r, !Z.mul_1_r.
    replace (1 + - (q + 1) - 1) with (- (q + 1)) by lia.
    apply round_float_scale; [lia|]. apply Z.pow_pos_nonneg; lia.
Qed.

Lemma round_float_finite_inv neg n d s m e ovf :
  round_float neg n d = (S754_finite s m e, ovf) → s = neg ∧ ovf = false.
Proof.
  unfold round_float. destruct (n <=? 0); [done|].
  destruct (round_pos n d) as [m0 e0].
  destruct (m0 =? 0); [done|]. destruct (emax <? e0); [done|].
  intros H. by inversion H.
Qed.

Lemma round_float_sign neg neg' n d m e :
  round_float neg n d = (S754_finite neg m e, false) →
  round_float neg' n d = (S754_finite neg' m e, false).
Proof.
  unfold round_float. destruct (n <=? 0); [done|].
  destruct (round_pos n d) as [m0 e0].
  destruct (m0 =? 0); [done|]. destruct (emax <? e0); [done|].
  intros H. by inversion H.
Qed.

Lemma scale_den_pos M q : 0 < snd (scale 10 M q).
Proof. unfold scale. simpl. apply Z.pow_pos_nonneg; lia. Qed.

Lemma rounds_to_spec m e M q :
  rounds_to m e M q = true ↔ round_decimal false M q = (S754_finite false m e, false).
Proof.
  unfold rounds_to. split.
  - destruct (round_decimal false M q) as [[| | |s m' e'] ovf] eqn:Hr; try done.
    intros H. apply andb_true_iff in H as [H1 H2].
    apply Z.eqb_eq in H1, H2. inversion H1; subst.
    unfold round_decimal in Hr. destruct (scale 10 M q) as [n d].
    by destruct (round_float_finite_inv _ _ _ _ _ _ _ Hr) as [-> ->].
  - intros ->. by rewrite !Z.eqb_refl.
Qed.

(** *** The shortest decimal parses back *)

Lemma exact_decimal_rounds m e :
  canonical (Z.pos m) e → e ≤ emax →
  0 < fst (exact_decimal m e)
  ∧ rounds_to m e (fst (exact_decimal m e)) (snd (exact_decimal m e)) = true.
Proof.
  intros Hc He. unfold exact_decimal.
  destruct (Z.leb_spec 0 e) as [H0|H0]; simpl.
  - assert (0 < 2 ^ e) by (by apply Z.pow_pos_nonneg).
    split; [lia|]. apply rounds_to_spec. unfold round_decimal, scale.
    change (Z.max (- 0) 0) with 0. change (Z.max 0 0) with 0.
    rewrite Z.pow_0_r, Z.mul_1_r.
    rewrite <- (Pos2Z.id m) at 2.
    apply round_float_exact; [lia|lia|done|done|].
    unfold shl. rewrite (Z.max_r (- e) 0), (Z.max_l e 0) by lia.
    rewrite Z.pow_0_r. ring.
  - assert (0 < 5 ^ (- e)) by (apply Z.pow_pos_nonneg; lia).
    split; [lia|]. apply rounds_to_spec. unfold round_decimal, scale.
    rewrite (Z.max_r e 0), (Z.max_l (- e) 0) by lia.
    rewrite Z.pow_0_r, Z.mul_1_r.
    rewrite <- (Pos2Z.id m) at 2.
    assert (0 < 10 ^ (- e)) by (apply Z.pow_pos_nonneg; lia).
    apply round_float_exact; [lia|lia|done|done|].
    unfold shl. rewrite (Z.max_l (- e) 0), (Z.max_r e 0) by lia.
    rewrite Z.pow_0_r, Z.mul_1_r.
    change 10 with (5 * 2). rewrite Z.pow_mul_l. ring.
Qed.

Lemma shortest_from_rounds m e N p j :
  0 < N → rounds_to m e N p = true →
  0 < fst (shortest_from m e N p j)
  ∧ rounds_to m e (fst (shortest_from m e N p j)) (snd (shortest_from m e N p j)) = true.
Proof.
  intros HN Hexact. induction j as [|j IH]; [done|].
  cbn [shortest_from]. cbv zeta.
  set (w := 10 ^ Z.of_nat (S j)).
  assert (0 < w) by (apply Z.pow_pos_nonneg; lia).
  assert (0 ≤ N / w) by (apply Z.div_pos; lia).
  destruct (0 <? N / w) eqn:Hpos;
    destruct (rounds_to m e (N / w) (p + Z.of_nat (S j))) eqn:Hdown;
    destruct (rounds_to m e (N / w + 1) (p + Z.of_nat (S j))) eqn:Hup;
    simpl andb; cbv iota; try done;
    try (split; [simpl; lia|done]);
    try (apply Z.ltb_lt in Hpos; split; [simpl; lia|done]).
  all: destruct (_ || _); simpl; (split; [lia|done]) || (apply Z.ltb_lt in Hpos; split; [lia|done]).
Qed.

Lemma trim_aux_rounds m e fuel : ∀ N p,
  0 < N → rounds_to m e N p = true →
  0 < fst (trim_aux fuel N p)
  ∧ rounds_to m e (fst (trim_aux fuel N p)) (snd (trim_aux fuel N p)) = true.
Proof.
  induction fuel as [|fuel IH]; intros N p HN Hr; [done|].
  cbn [trim_aux].
  destruct (Z.eqb_spec (N mod 10) 0) as [Hmod|]; [|done].
  rewrite (proj2 (Z.ltb_lt 0 N)) by done. simpl andb. cbv iota.
  assert (HN10 : N = 10 * (N / 10)) by (pose proof (Z.div_mod N 10); lia).
  apply IH; [lia|].
  apply rounds_to_spec. rewrite <- round_decimal_shift, <- HN10. by apply rounds_to_spec.
Qed.

Lemma shortest_rounds m e :
  canonical (Z.pos m) e → e ≤ emax →
  0 < fst (shortest m e)
  ∧ round_decimal false (fst (shortest m e)) (snd (shortest m e))
    = (S754_finite false m e, false).
Proof.
  intros Hc He. unfold shortest.
  destruct (exact_decimal_rounds m e Hc He) as [HN Hexact].
  destruct (exact_decimal m e) as [N p]. simpl in HN, Hexact.
  pose proof (shortest_from_rounds m e N p (length (digits N)) HN Hexact) as [HM Hr].
  destruct (shortest_from m e N p (length (digits N))) as [M q]. simpl in HM, Hr.
  unfold trim.
  destruct (trim_aux_rounds m e (S (Z.to_nat (Z.log2 M))) M q HM Hr) as [H1 H2].
  split; [done|]. by apply rounds_to_spec.
Qed.


Lemma pow2_1024_lt : 2 ^ 1024 < 10 ^ 1000.
Proof.
  apply Z.lt_trans with (10 ^ 512); [|apply Z.pow_lt_mono_r; lia].
  change 1024 with (4 * 256). change 512 with (2 * 256).
  rewrite !Z.pow_mul_r by lia. apply Z.pow_lt_mono_l; lia.
Qed.

Lemma pow2_1075_lt : 2 ^ 1075 < 10 ^ 999.
Proof.
  apply Z.lt_trans with (2 ^ 1076); [apply Z.pow_lt_mono_r; lia|].
  apply Z.lt_trans with (10 ^ 538); [|apply Z.pow_lt_mono_r; lia].
  change 1076 with (4 * 269). change 538 with (2 * 269).
  rewrite !Z.pow_mul_r by lia. apply Z.pow_lt_mono_l; lia.
Qed.

(** A number of [L] digits times [10^q] between [1 / D] and [B], for [B]
    below [10^a] and [D] below [10^c], has its decimal point between [-c]
    and [a]. *)
Lemma decimal_point_between B D a c M L q :
  0 < B → 0 < D → 0 ≤ a → 0 ≤ c → B < 10 ^ a → D < 10 ^ c →
  1 ≤ L → 10 ^ (L - 1) ≤ M < 10 ^ L →
  M * 10 ^ Z.max q 0 < B * 10 ^ Z.max (- q) 0 →
  10 ^ Z.max (- q) 0 < M * 10 ^ Z.max q 0 * D →
  - (c + 1) < L + q - 1 < a.
Proof.
  intros HB HD Ha Hc HBa HDc HL [HL1 HL2] Hup Hlow.
  assert (0 < 10 ^ L) by (apply Z.pow_pos_nonneg; lia).
  split.
  - apply Z.nle_gt. intros Hle.
    assert (Hq : q < 0) by lia.
    rewrite (Z.max_r q 0), (Z.max_l (- q) 0) in * by lia.
    rewrite Z.pow_0_r, Z.mul_1_r in *.
    assert (10 ^ c * 10 ^ L ≤ 10 ^ (- q)).
    { rewrite <- Z.pow_add_r by lia. apply Z.pow_le_mono_r; lia. }
    assert (M * D < 10 ^ L * D) by (apply Z.mul_lt_mono_pos_r; lia).
    assert (10 ^ L * D ≤ 10 ^ L * 10 ^ c) by (apply Z.mul_le_mono_nonneg_l; lia).
    lia.
  - apply Z.nle_gt. intros Hge.
    destruct (Z.le_gt_cases 0 q) as [Hq|Hq].
    + rewrite (Z.max_l q 0), (Z.max_r (- q) 0) in * by lia.
      rewrite Z.pow_0_r, Z.mul_1_r in *.
      assert (10 ^ a ≤ 10 ^ (L - 1) * 10 ^ q).
      { rewrite <- Z.pow_add_r by lia. apply Z.pow_le_mono_r; lia. }
      assert (0 < 10 ^ q) by (apply Z.pow_pos_nonneg; lia).
      assert (10 ^ (L - 1) * 10 ^ q ≤ M * 10 ^ q) by (apply Z.mul_le_mono_nonneg_r; lia).
      lia.
    + rewrite (Z.max_r q 0), (Z.max_l (- q) 0) in * by lia.
      rewrite Z.pow_0_r, Z.mul_1_r in *.
      assert (10 ^ a * 10 ^ (- q) ≤ 10 ^ (L - 1)).
      { rewrite <- Z.pow_add_r by lia. apply Z.pow_le_mono_r; lia. }
      assert (0 < 10 ^ (- q)) by (apply Z.pow_pos_nonneg; lia).
      assert (B * 10 ^ (- q) < 10 ^ a * 10 ^ (- q)) by (apply Z.mul_lt_mono_pos_r; lia).
      lia.
Qed.

(** A decimal that rounds to a finite float has its decimal point where
    three digits suffice for the exponent. *)
Lemma decimal_point_bounds M q s m e ovf :
  0 < M → round_decimal false M q = (S754_finite s m e, ovf) →
  -1000 < Z.of_nat (length (digits M)) + q - 1 < 1000.
Proof.
  intros HM Hr. unfold round_decimal, scale in Hr.
  assert (Hd : 0 < 10 ^ Z.max (- q) 0) by (apply Z.pow_pos_nonneg; lia).
  destruct (round_float_finite_bounds _ _ _ _ _ _ _ Hd Hr) as (_ & Hup & Hlow).
  clear Hr Hd.
  pose proof (digits_bounds M HM) as Hbounds.
  assert (HL : 1 ≤ Z.of_nat (length (digits M))).
  { destruct (digits_spec M HM) as (d & ds & Heq & _). rewrite Heq.
    rewrite length_cons. clear. lia. }
  apply (decimal_point_between (2 ^ 1024) (2 ^ 1075) 1000 999 M _ q);
    [by apply Z.pow_pos_nonneg|by apply Z.pow_pos_nonneg|done|done
    |exact pow2_1024_lt|exact pow2_1075_lt|exact HL|exact Hbounds|exact Hup|exact Hlow].
Qed.

(** What [formatDigits] writes for the digits [d0 :: ds'] and the decimal
    point [dp] parses to the float nearest to that decimal. *)
Lemma special_formatDigits neg d0 ds' dp :
  Forall is_decimal_digit (d0 :: ds') → d0 ≠ 0 →
  special (formatDigits neg (d0 :: ds') dp) = None.
Proof.
  intros Hall Hd0. pose proof Hall as Hall'. apply Forall_cons in Hall' as [Hd _].
  unfold formatDigits. cbv zeta.
  destruct ((dp - 1 <? -4) || (6 <=? dp - 1)).
  - replace (Z.of_nat (length (d0 :: ds')) - 1) with (Z.of_nat (length ds'))
      by (rewrite length_cons; lia).
    rewrite fmtE_shape. by apply special_decimal.
  - destruct (Z.le_gt_cases dp 0) as [H0|H0];
      [|destruct (Z.lt_ge_cases dp (Z.of_nat (length (d0 :: ds')))) as [H1|H1]].
    + rewrite fmtF_shape_fraction by (rewrite ?length_cons; lia).
      apply special_decimal. unfold is_decimal_digit. lia.
    + rewrite fmtF_shape_point by lia.
      destruct (Z.to_nat dp) as [|k] eqn:Hk; [lia|].
      rewrite firstn_cons, string_of_digits_cons, append_cons.
      by apply special_decimal.
    + rewrite fmtF_shape_integer by (rewrite length_cons in *; lia).
      rewrite <- app_comm_cons, string_of_digits_cons.
      by apply special_decimal.
Qed.

Lemma readFloat_formatDigits neg d0 ds' dp :
  Forall is_decimal_digit (d0 :: ds') → d0 ≠ 0 → -1000 < dp - 1 < 1000 →
  ∃ M q,
    readFloat (formatDigits neg (d0 :: ds') dp)
    = Some (M, q, neg, false, String.length (formatDigits neg (d0 :: ds') dp))
    ∧ round_decimal neg M q
      = round_decimal neg (undigits (d0 :: ds')) (dp - Z.of_nat (length (d0 :: ds'))).
Proof.
  intros Hall Hd0 Hdp.
  unfold formatDigits. cbv zeta.
  destruct ((dp - 1 <? -4) || (6 <=? dp - 1)).
  - replace (Z.of_nat (length (d0 :: ds')) - 1) with (Z.of_nat (length ds'))
      by (rewrite length_cons; lia).
    eexists _, _. split; [by apply readFloat_fmtE|done].
  - destruct (Z.le_gt_cases dp 0) as [H0|H0];
      [|destruct (Z.lt_ge_cases dp (Z.of_nat (length (d0 :: ds')))) as [H1|H1]].
    + eexists _, _. split; [by apply readFloat_fmtF_fraction|done].
    + eexists _, _. split; [by apply readFloat_fmtF_point|done].
    + eexists _, _. split; [by apply readFloat_fmtF_integer|].
      apply round_decimal_integer. lia.
Qed.

Lemma ParseFloat_formatDigits neg d0 ds' dp m e :
  Forall is_decimal_digit (d0 :: ds') → d0 ≠ 0 → -1000 < dp - 1 < 1000 →
  round_decimal neg (undigits (d0 :: ds')) (dp - Z.of_nat (length (d0 :: ds')))
  = (S754_finite neg m e, false) →
  ParseFloat (formatDigits neg (d0 :: ds') dp) = (S754_finite neg m e, None).
Proof.
  intros Hall Hd0 Hdp Hround. unfold ParseFloat.
  rewrite special_formatDigits by done.
  destruct (readFloat_formatDigits neg d0 ds' dp Hall Hd0 Hdp) as (M & q & -> & Hr).
  rewrite Hr, Hround. by rewrite Nat.eqb_refl.
Qed.

(** The round trip: a float prints to a text that parses to it. *)
Theorem ParseFloat_FormatFloat f :
  valid_float f → ParseFloat (FormatFloat f) = (f, None).
Proof.
  destruct f as [neg|neg| |neg m e]; intros Hvalid.
  - by destruct neg.
  - by destruct neg.
  - done.
  - destruct Hvalid as [Hc He]. unfold FormatFloat.
    destruct (shortest_rounds m e Hc He) as [HM Hround].
    destruct (shortest m e) as [M q]. simpl in HM, Hround.
    pose proof (decimal_point_bounds M q _ _ _ _ HM Hround) as Hdp.
    destruct (digits_spec M HM) as (d0 & ds' & Hds & Hall & Hd0 & Hval).
    rewrite Hds in *.
    apply ParseFloat_formatDigits; [done|done|lia|].
    rewrite Hval.
    replace (Z.of_nat (length (d0 :: ds')) + q - Z.of_nat (length (d0 :: ds'))) with q by lia.
    unfold round_decimal in *. destruct (scale 10 M q) as [n d].
    by apply (round_float_sign false).
Qed.

End RoundTrip.

(** * Integers through ParseInt, ParseFloat and FormatFloat *)

Section Integers.
Import strconv.
#[local] Open Scope Z_scope.

(** *** ParseUint *)

Lemma ParseUint_loop_inv s : ∀ a v,
  ParseUint_loop s a = inr v →
  ∃ ds, s = string_of_digits ds ∧ Forall is_decimal_digit ds ∧ v = undigits_from a ds.
Proof.
  induction s as [|c s IH]; intros a v H.
  - exists []. simpl in H. by inversion H.
  - simpl in H. destruct (is_digit c) eqn:Hc; [|done]. simpl in H.
    destruct (maxUint64 / 10 + 1 <=? a); [done|].
    destruct (maxUint64 <? a * 10 + (byte c - 48)); [done|].
    destruct (IH _ _ H) as (ds & -> & Hall & ->).
    destruct (is_digit_inv c Hc) as [Hd Heq].
    exists ((byte c - 48) :: ds). split; [|split].
    + rewrite string_of_digits_cons. by rewrite <- Heq.
    + by constructor.
    + done.
Qed.

Lemma ParseUint_loop_digits ds : ∀ a v,
  Forall is_decimal_digit ds →
  ParseUint_loop (string_of_digits ds) a = inr v → v = undigits_from a ds.
Proof.
  induction ds as [|d ds IH]; intros a v Hall H.
  - simpl in H. by inversion H.
  - apply Forall_cons in Hall as [Hd Hall].
    rewrite string_of_digits_cons in H. simpl in H.
    rewrite is_digit_digit_char, byte_digit_char in H by done. simpl in H.
    destruct (maxUint64 / 10 + 1 <=? a); [done|].
    destruct (maxUint64 <? a * 10 + (48 + d - 48)); [done|].
    apply IH in H; [|done]. rewrite H, undigits_from_cons. f_equal. lia.
Qed.

(** A byte that is no digit stops [ParseUint] with an error. *)
Lemma ParseUint_loop_nondigit ds c rest : ∀ a,
  Forall is_decimal_digit ds → is_digit c = false →
  ∃ err, ParseUint_loop (string_of_digits ds +:+ String c rest) a = inl err.
Proof.
  induction ds as [|d ds IH]; intros a Hall Hc.
  - rewrite append_nil_l. simpl. rewrite Hc. eauto.
  - apply Forall_cons in Hall as [Hd Hall].
    rewrite string_of_digits_cons, append_cons. simpl.
    rewrite is_digit_digit_char by done. simpl.
    destruct (maxUint64 / 10 + 1 <=? a); [eauto|].
    destruct (maxUint64 <? _); [eauto|]. by apply IH.
Qed.

(** *** ParseInt *)

Lemma ParseUint_ok_inv s un :
  ParseUint s = inr un →
  ∃ d ds, s = string_of_digits (d :: ds) ∧ Forall is_decimal_digit (d :: ds)
          ∧ un = undigits (d :: ds).
Proof.
  unfold ParseUint. destruct s as [|c s']; [done|]. intros H.
  apply ParseUint_loop_inv in H as (ds & Heq & Hall & ->).
  destruct ds as [|d ds]; [done|]. eauto.
Qed.

Lemma ParseInt_ok_inv t n :
  ParseInt t = (n, None) →
  ∃ sgn neg d ds,
    (sgn = "" ∧ neg = false ∨ sgn = "+" ∧ neg = false ∨ sgn = "-" ∧ neg = true)
    ∧ Forall is_decimal_digit (d :: ds)
    ∧ t = sgn +:+ string_of_digits (d :: ds)
    ∧ n = (if neg then - undigits (d :: ds) else undigits (d :: ds)).
Proof.
  unfold ParseInt. destruct t as [|c rest]; [done|].
  destruct (Ascii.eqb_spec c "+") as [->|Hplus];
    [|destruct (Ascii.eqb_spec c "-") as [->|Hminus]].
  - change (Ascii.eqb "+" "-") with false. simpl orb. cbv iota.
    destruct (ParseUint rest) as [[]|un] eqn:Hun; [done|done|].
    simpl negb. simpl andb. destruct (2 ^ 63 <=? un); [done|]. intros H.
    apply ParseUint_ok_inv in Hun as (d & ds & -> & Hall & ->).
    exists "+", false, d, ds. inversion H. auto 10.
  - simpl orb. cbv iota.
    destruct (ParseUint rest) as [[]|un] eqn:Hun; [done|done|].
    simpl negb. simpl andb. destruct (2 ^ 63 <? un); [done|]. intros H.
    apply ParseUint_ok_inv in Hun as (d & ds & -> & Hall & ->).
    exists "-", true, d, ds. inversion H. auto 10.
  - simpl orb. cbv iota.
    destruct (ParseUint (String c rest)) as [[]|un] eqn:Hun; [done|done|].
    simpl negb. simpl andb. destruct (2 ^ 63 <=? un); [done|]. intros H.
    apply ParseUint_ok_inv in Hun as (d & ds & Heq & Hall & ->).
    exists "", false, d, ds. inversion H. rewrite append_nil_l. auto 10.
Qed.

Lemma ParseInt_signed neg d body n :
  is_decimal_digit d →
  ParseInt (sign_string neg +:+ String (digit_char d) body) = (n, None) →
  ∃ un, ParseUint_loop (String (digit_char d) body) 0 = inr un
        ∧ n = if neg then - un else un.
Proof.
  intros Hd. destruct neg.
  - change (sign_string true +:+ String (digit_char d) body)
      with (String "-" (String (digit_char d) body)).
    unfold ParseInt. change (Ascii.eqb "-" "-") with true. rewrite orb_true_r.
    unfold ParseUint.
    destruct (ParseUint_loop _ 0) as [[]|un]; [done|done|].
    intros H. exists un. split; [done|].
    simpl negb in H. simpl andb in H. cbv iota in H.
    destruct (2 ^ 63 <? un); [done|]. by inversion H.
  - rewrite append_nil_l. unfold ParseInt.
    rewrite (digit_char_not_special d "-"), (digit_char_not_special d "+") by done.
    simpl orb. cbv iota. unfold ParseUint.
    destruct (ParseUint_loop _ 0) as [[]|un]; [done|done|].
    intros H. exists un. split; [done|].
    simpl negb in H. simpl andb in H.
    destruct (2 ^ 63 <=? un); [done|]. by inversion H.
Qed.

(** *** ParseFloat on the text of an integer *)

Lemma has_hex_prefix_digits ds :
  Forall is_decimal_digit ds → has_hex_prefix (string_of_digits ds) = false.
Proof.
  intros Hall. destruct ds as [|d [|d1 [|d2 ds]]]; try done.
  rewrite !string_of_digits_cons. unfold has_hex_prefix.
  apply Forall_cons in Hall as [_ Hall]. apply Forall_cons in Hall as [Hd1 _].
  rewrite lower_digit_char by done. unfold is_decimal_digit in Hd1.
  rewrite (proj2 (Z.eqb_neq (48 + d1) 120)) by lia. apply andb_false_r.
Qed.

Lemma leading_zeros_split ds :
  Forall is_decimal_digit ds →
  ∃ k ds1, ds = replicate k 0 ++ ds1 ∧ head ds1 ≠ Some 0 ∧ undigits ds1 = undigits ds.
Proof.
  induction ds as [|d ds IH]; intros Hall.
  - exists 0%nat, []. done.
  - apply Forall_cons in Hall as [Hd Hall].
    destruct (Z.eq_dec d 0) as [->|Hne].
    + destruct (IH Hall) as (k & ds1 & -> & Hhd & Hval).
      exists (S k), ds1. split; [done|]. split; [done|].
      rewrite Hval. change (0 :: replicate k 0 ++ ds1) with ([0] ++ (replicate k 0 ++ ds1)).
      by rewrite (undigits_app [0]).
    + exists 0%nat, (d :: ds). split; [done|]. split; [|done]. simpl. congruence.
Qed.

Lemma ParseFloat_integer_text sgn neg d ds :
  (sgn = "" ∧ neg = false ∨ sgn = "+" ∧ neg = false ∨ sgn = "-" ∧ neg = true) →
  Forall is_decimal_digit (d :: ds) →
  ParseFloat (sgn +:+ string_of_digits (d :: ds))
  = (fst (round_decimal neg (undigits (d :: ds)) 0),
     if snd (round_decimal neg (undigits (d :: ds)) 0)
     then Some (rangeError "ParseFloat" (sgn +:+ string_of_digits (d :: ds)))
     else None).
Proof.
  intros Hsgn Hall. pose proof Hall as Hall'. apply Forall_cons in Hall' as [Hd _].
  unfold ParseFloat.
  rewrite string_of_digits_cons.
  rewrite special_signed by (done || destruct Hsgn as [ [? _] | [ [? _] | [? _] ] ]; auto).
  rewrite <- string_of_digits_cons.
  destruct (leading_zeros_split (d :: ds) Hall) as (k & ds1 & Heq & Hhd & Hval).
  set (st := MantState false true (Z.of_nat (length ds1)) (- Z.of_nat k)
               (undigits (d :: ds)) false).
  rewrite string_of_digits_cons.
  rewrite (readFloat_signed sgn neg d _ st "" 0); [|done|done| | |done|done|by left].
  - unfold st. cbn [mantissa sawdot nd].
    replace (if undigits (d :: ds) =? 0 then 0
             else Z.of_nat (length ds1) + 0 - Z.of_nat (length ds1)) with 0
      by (destruct (_ =? 0); lia).
    rewrite Nat.eqb_refl. simpl negb. cbv iota.
    by destruct (round_decimal neg (undigits (d :: ds)) 0) as [f []].
  - rewrite <- string_of_digits_cons. by apply has_hex_prefix_digits.
  - rewrite <- string_of_digits_cons, Heq, string_of_digits_app.
    fold (zeros k). rewrite read_mantissa_zeros by done.
    rewrite <- (append_nil_r (string_of_digits ds1)).
    rewrite read_mantissa_digits; [| |simpl; lia|by right].
    2:{ rewrite Heq in Hall. by apply Forall_app in Hall as [_ ?]. }
    rewrite read_mantissa_nil. unfold st.
    cbn [sawdot sawdigits nd dp mantissa underscores].
    assert (Hsaw : false || bool_decide (k ≠ 0%nat) || bool_decide (ds1 ≠ []) = true).
    { destruct k, ds1; done. }
    rewrite Hsaw. f_equal. f_equal; (lia || exact Hval).
Qed.

(** *** Integers below [2^53] are floats *)

Lemma round_pos_integer Y :
  0 < Y < 2 ^ 53 →
  round_pos Y 1 = (Y * 2 ^ (52 - Z.log2 Y), Z.log2 Y - 52).
Proof.
  intros HY. destruct (Z.log2_spec Y) as [Hl1 Hl2]; [lia|].
  pose proof (Z.log2_nonneg Y) as Hl0.
  assert (Hl : Z.log2 Y < 53) by (apply (Z.pow_lt_mono_r_iff 2); lia).
  set (l := Z.log2 Y) in *.
  assert (H52 : 2 ^ 52 = 2 ^ l * 2 ^ (52 - l))
    by (rewrite <- Z.pow_add_r by lia; f_equal; lia).
  assert (H53 : 2 ^ 53 = 2 ^ Z.succ l * 2 ^ (52 - l))
    by (rewrite <- Z.pow_add_r by lia; f_equal; lia).
  assert (0 < 2 ^ (52 - l)) by (apply Z.pow_pos_nonneg; lia).
  apply round_pos_exact; [lia|lia| |].
  - unfold canonical, emin. split; [nia|]. split; [lia|]. right. nia.
  - unfold shl. rewrite (Z.max_l (- (l - 52)) 0), (Z.max_r (l - 52) 0) by lia.
    rewrite Z.pow_0_r. replace (- (l - 52)) with (52 - l) by lia. ring.
Qed.

Lemma round_pos_integer_large Y m e :
  2 ^ 53 ≤ Y → round_pos Y 1 = (m, e) → 1 ≤ e.
Proof.
  intros HY. assert (0 < Y) by (assert (0 < 2 ^ 53) by done; lia).
  destruct (ilog2_ratio_spec Y 1 ltac:(done) ltac:(done)) as [_ Hnab].
  assert (53 ≤ ilog2_ratio Y 1).
  { apply Z.nlt_ge. intros Hlt. apply Hnab.
    apply (above_antitone Y 1 _ 53); [done|done|lia|].
    unfold above, shl. change (Z.max 53 0) with 53. change (Z.max (- 53) 0) with 0.
    rewrite Z.pow_0_r. lia. }
  unfold round_pos. cbv zeta. destruct (_ =? 2 ^ 53); intros Heq; inversion Heq; lia.
Qed.

(** Two integers that round to the same float, one of them below [2^53],
    are equal. *)
Lemma round_float_integer_inj neg X Y f :
  0 < X < 2 ^ 53 → 0 < Y →
  round_float neg X 1 = (f, false) → round_float neg Y 1 = (f, false) → X = Y.
Proof.
  intros HX HY. unfold round_float.
  rewrite (proj2 (Z.leb_gt X 0)), (proj2 (Z.leb_gt Y 0)) by lia.
  rewrite (round_pos_integer X HX).
  destruct (round_pos Y 1) as [m e] eqn:HrY.
  destruct (Z.log2_spec X) as [Hl1 Hl2]; [lia|].
  pose proof (Z.log2_nonneg X) as Hl0.
  assert (Hl : Z.log2 X < 53) by (apply (Z.pow_lt_mono_r_iff 2); lia).
  assert (0 < 2 ^ (52 - Z.log2 X)) by (apply Z.pow_pos_nonneg; lia).
  rewrite (proj2 (Z.eqb_neq _ 0)) by nia.
  rewrite (proj2 (Z.ltb_ge emax _)) by (unfold emax; lia).
  intros <-.
  destruct (m =? 0); [done|]. destruct (emax <? e); [done|].
  intros Heq. inversion Heq as [[Hm He]].
  destruct (Z.lt_ge_cases Y (2 ^ 53)) as [Hsmall|Hlarge].
  - rewrite (round_pos_integer Y) in HrY by lia. inversion HrY as [[Hm' He']].
    assert (Z.log2 Y = Z.log2 X) as Hlog by lia.
    rewrite Hlog in Hm'. subst m.
    apply Z2Pos.inj in Hm; nia.
  - pose proof (round_pos_integer_large Y m e Hlarge HrY). lia.
Qed.

End Integers.

(** * The numeric fields of the decoder *)

Section NumericFields.
Import strconv.
#[local] Open Scope Z_scope.

Lemma ParseFloat_valid s : valid_float (fst (ParseFloat s)).
Proof.
  unfold ParseFloat. destruct (special s) as [[f n]|] eqn:Hs.
  - destruct (n =? String.length s)%nat; [|done]. simpl.
    unfold special in Hs. destruct s as [|c rest]; [done|].
    unfold special_inf in Hs.
    repeat (match type of Hs with context [if ?b then _ else _] => destruct b end);
      by inversion Hs.
  - destruct (readFloat s) as [[[[[mant exp] neg] hex] n]|]; [|done].
    destruct hex.
    + pose proof (round_float_valid neg (fst (scale 2 mant exp)) (snd (scale 2 mant exp))) as Hv.
      unfold round_binary. destruct (scale 2 mant exp) as [a b] eqn:Hsc. simpl in Hv.
      assert (0 < b).
      { unfold scale in Hsc. inversion Hsc. apply Z.pow_pos_nonneg; lia. }
      specialize (Hv ltac:(done)).
      destruct (round_float neg a b) as [f ovf]. by destruct (negb _).
    + pose proof (round_float_valid neg (fst (scale 10 mant exp)) (snd (scale 10 mant exp))) as Hv.
      unfold round_decimal. destruct (scale 10 mant exp) as [a b] eqn:Hsc. simpl in Hv.
      assert (0 < b).
      { unfold scale in Hsc. inversion Hsc. apply Z.pow_pos_nonneg; lia. }
      specialize (Hv ltac:(done)).
      destruct (round_float neg a b) as [f ovf]. by destruct (negb _).
Qed.

(** What [formatDigits] writes starts with the sign and a digit. *)
Lemma formatDigits_shape neg d0 ds' dp :
  Forall is_decimal_digit (d0 :: ds') → d0 ≠ 0 →
  ∃ d body, is_decimal_digit d
            ∧ formatDigits neg (d0 :: ds') dp
              = sign_string neg +:+ String (digit_char d) body.
Proof.
  intros Hall Hd0. pose proof Hall as Hall'. apply Forall_cons in Hall' as [Hd _].
  unfold formatDigits. cbv zeta.
  destruct ((dp - 1 <? -4) || (6 <=? dp - 1)).
  - replace (Z.of_nat (length (d0 :: ds')) - 1) with (Z.of_nat (length ds'))
      by (rewrite length_cons; lia).
    rewrite fmtE_shape. eauto.
  - destruct (Z.le_gt_cases dp 0) as [H0|H0];
      [|destruct (Z.lt_ge_cases dp (Z.of_nat (length (d0 :: ds')))) as [H1|H1]].
    + rewrite fmtF_shape_fraction by (rewrite ?length_cons; lia).
      eexists 0, _. split; [unfold is_decimal_digit; lia|done].
    + rewrite fmtF_shape_point by lia.
      destruct (Z.to_nat dp) as [|k] eqn:Hk; [lia|].
      rewrite firstn_cons, string_of_digits_cons, append_cons. eauto.
    + rewrite fmtF_shape_integer by (rewrite length_cons in *; lia).
      rewrite <- app_comm_cons, string_of_digits_cons. eauto.
Qed.

(** The text of a float is neither empty nor ["<nil>"]. *)
Lemma FormatFloat_text f :
  valid_float f →
  (String.length (FormatFloat f) =? 0)%nat || String.eqb (FormatFloat f) "<nil>" = false.
Proof.
  destruct f as [neg|neg| |neg m e]; intros Hvalid.
  - by destruct neg.
  - by destruct neg.
  - done.
  - destruct Hvalid as [Hc He]. unfold FormatFloat.
    destruct (shortest_rounds m e Hc He) as [HM _].
    destruct (shortest m e) as [M q]. simpl in HM.
    destruct (digits_spec M HM) as (d0 & ds' & -> & Hall & Hd0 & _).
    destruct (formatDigits_shape neg d0 ds' (Z.of_nat (length (d0 :: ds')) + q) Hall Hd0)
      as (d & body & Hd & ->).
    destruct neg; [done|]. rewrite append_nil_l. simpl.
    change (String.eqb (String (digit_char d) body) "<nil>")
      with (if Ascii.eqb (digit_char d) "<" then String.eqb body "nil>" else false).
    by rewrite digit_char_not_special.
Qed.

Lemma numeric_text_float fields k f :
  valid_float f → fields !! k = Some (VFloat f) →
  numeric_text fields k = FormatFloat f.
Proof.
  intros Hvalid Hk. unfold numeric_text, field. rewrite Hk. simpl.
  by rewrite FormatFloat_text.
Qed.

Lemma numeric_text_absent fields k :
  fields !! k = None ∨ fields !! k = Some VNil → numeric_text fields k = "0".
Proof. intros [Hk|Hk]; unfold numeric_text, field; by rewrite Hk. Qed.

Lemma numeric_text_string fields k t f :
  ParseFloat t = (f, None) → fields !! k = Some (VString t) →
  numeric_text fields k = t.
Proof.
  intros Hparse Hk. unfold numeric_text, field. rewrite Hk.
  change (fmt.Sprintf_v (default VNil (Some (VString t)))) with t.
  destruct (String.eqb_spec t "<nil>") as [->|_]; [by vm_compute in Hparse|].
  rewrite orb_false_r. destruct t as [|c t]; [by vm_compute in Hparse|]. done.
Qed.

(** *** The integer fields *)

Lemma ParseInt_formatDigits neg d0 ds' dp n :
  Forall is_decimal_digit (d0 :: ds') → d0 ≠ 0 →
  ParseInt (formatDigits neg (d0 :: ds') dp) = (n, None) →
  Z.of_nat (length (d0 :: ds')) ≤ dp ≤ 6
  ∧ n = (if neg then - (undigits (d0 :: ds') * 10 ^ (dp - Z.of_nat (length (d0 :: ds'))))
         else undigits (d0 :: ds') * 10 ^ (dp - Z.of_nat (length (d0 :: ds')))).
Proof.
  intros Hall Hd0. pose proof Hall as Hall'. apply Forall_cons in Hall' as [Hd Hall'].
  assert (Hpoint : is_digit "." = false) by done.
  assert (He : is_digit "e" = false) by done.
  unfold formatDigits. cbv zeta.
  destruct ((dp - 1 <? -4) || (6 <=? dp - 1)) eqn:Hform.
  - replace (Z.of_nat (length (d0 :: ds')) - 1) with (Z.of_nat (length ds'))
      by (rewrite length_cons; lia).
    rewrite fmtE_shape. intros H.
    apply ParseInt_signed in H as (un & Hun & _); [|done]. exfalso.
    set (R := (if dp - 1 <? 0 then "-" else "+")
              +:+ string_of_digits (exponent_digits (Z.abs (dp - 1)))) in *.
    destruct ds' as [|d1 ds'].
    + rewrite append_nil_l in Hun.
      destruct (ParseUint_loop_nondigit [d0] "e" R 0) as [err Herr];
        [by constructor|done|].
      rewrite string_of_digits_cons, append_cons, append_nil_l in Herr.
      by rewrite Herr in Hun.
    + assert (Hshape : ("." +:+ string_of_digits (d1 :: ds')) +:+ String "e" R
                       = String "." (string_of_digits (d1 :: ds') +:+ String "e" R))
        by reflexivity.
      rewrite Hshape in Hun.
      destruct (ParseUint_loop_nondigit [d0] "."
                  (string_of_digits (d1 :: ds') +:+ String "e" R) 0) as [err Herr];
        [by constructor|done|].
      rewrite string_of_digits_cons, append_cons, append_nil_l in Herr.
      by rewrite Herr in Hun.
  - apply orb_false_iff in Hform as [_ H6]. apply Z.leb_gt in H6.
    destruct (Z.le_gt_cases dp 0) as [H0|H0];
      [|destruct (Z.lt_ge_cases dp (Z.of_nat (length (d0 :: ds')))) as [H1|H1]].
    + rewrite fmtF_shape_fraction by (rewrite ?length_cons; lia). intros H.
      apply ParseInt_signed in H as (un & Hun & _); [|unfold is_decimal_digit; lia].
      exfalso.
      match type of Hun with
      | ParseUint_loop (String _ (String "." ?r)) _ = _ =>
          destruct (ParseUint_loop_nondigit [0] "." r 0) as [err Herr];
            [repeat constructor; unfold is_decimal_digit; lia|done|]
      end.
      rewrite string_of_digits_cons, append_cons, append_nil_l in Herr.
      by rewrite Herr in Hun.
    + rewrite fmtF_shape_point by lia.
      destruct (Z.to_nat dp) as [|k] eqn:Hk; [lia|].
      rewrite firstn_cons, string_of_digits_cons, append_cons. intros H.
      apply ParseInt_signed in H as (un & Hun & _); [|done]. exfalso.
      match type of Hun with
      | ParseUint_loop (String _ (_ +:+ String "." ?r)) _ = _ =>
          destruct (ParseUint_loop_nondigit (d0 :: take k ds') "." r 0) as [err Herr];
            [constructor; [done|by apply Forall_take]|done|]
      end.
      rewrite string_of_digits_cons, append_cons in Herr.
      by rewrite Herr in Hun.
    + rewrite fmtF_shape_integer by (rewrite length_cons in *; lia).
      rewrite <- app_comm_cons, string_of_digits_cons. intros H.
      apply ParseInt_signed in H as (un & Hun & ->); [|done].
      split; [lia|].
      rewrite <- string_of_digits_cons in Hun.
      apply ParseUint_loop_digits in Hun.
      2:{ constructor; [done|]. apply Forall_app. split; [done|].
          apply Forall_replicate. unfold is_decimal_digit. lia. }
      assert (un = undigits (d0 :: ds') * 10 ^ (dp - Z.of_nat (length (d0 :: ds')))) as ->.
      { rewrite Hun. change (undigits_from 0 (d0 :: ds' ++ ?z))
          with (undigits ((d0 :: ds') ++ z)).
        rewrite undigits_app, undigits_replicate_zero, length_replicate.
        rewrite Z2Nat.id by lia. lia. }
      done.
Qed.

Lemma round_pos_integer_mantissa X m e :
  1 ≤ X → round_pos X 1 = (m, e) → 0 < m.
Proof.
  intros HX Hr. destruct (Z.lt_ge_cases X (2 ^ 53)) as [Hsmall|Hlarge].
  - rewrite round_pos_integer in Hr by lia. inversion Hr.
    destruct (Z.log2_spec X) as [Hl1 Hl2]; [lia|].
    assert (Z.log2 X < 53) by (apply (Z.pow_lt_mono_r_iff 2); lia).
    assert (0 < 2 ^ (52 - Z.log2 X)) by (apply Z.pow_pos_nonneg; lia). nia.
  - pose proof (round_pos_integer_large X m e Hlarge Hr).
    destruct (round_pos_canonical X 1 m e ltac:(lia) ltac:(lia) Hr) as (_ & _ & [He|Hm]).
    + unfold emin in He. lia.
    + assert (0 < 2 ^ 52) by done. lia.
Qed.

(** An integer text and the text of the float it parses to are the same
    integer, when [ParseInt] accepts both. *)
Lemma int_field_roundtrip t n f n' :
  ParseInt t = (n, None) → ParseFloat t = (f, None) →
  ParseInt (FormatFloat f) = (n', None) → n' = n.
Proof.
  intros Hint Hfloat Hback.
  apply ParseInt_ok_inv in Hint as (sgn & neg & d & ds & Hsgn & Hall & -> & ->).
  rewrite (ParseFloat_integer_text sgn neg d ds Hsgn Hall) in Hfloat.
  pose proof (undigits_nonneg _ Hall) as HX.
  set (X := undigits (d :: ds)) in *.
  unfold round_decimal, scale in Hfloat. change (Z.max 0 0) with 0 in Hfloat.
  change (Z.max (- 0) 0) with 0 in Hfloat. rewrite Z.pow_0_r, Z.mul_1_r in Hfloat.
  destruct (round_float neg X 1) as [f0 ovf] eqn:Hround. simpl in Hfloat.
  destruct ovf; [done|]. inversion Hfloat; subst f0. clear Hfloat.
  destruct (Z.eq_dec X 0) as [HX0|HX0].
  - rewrite HX0 in *. unfold round_float in Hround. simpl in Hround.
    inversion Hround; subst f. destruct neg; vm_compute in Hback; by inversion Hback.
  - unfold round_float in Hround. rewrite (proj2 (Z.leb_gt X 0)) in Hround by lia.
    destruct (round_pos X 1) as [m e] eqn:Hpos.
    pose proof (round_pos_integer_mantissa X m e ltac:(lia) Hpos) as Hm.
    rewrite (proj2 (Z.eqb_neq m 0)) in Hround by lia.
    destruct (emax <? e) eqn:He; [done|]. apply Z.ltb_ge in He.
    inversion Hround; subst f. clear Hround.
    assert (Hvalid : canonical (Z.pos (Z.to_pos m)) e).
    { rewrite Z2Pos.id by done.
      destruct (round_pos_canonical X 1 m e ltac:(lia) ltac:(lia) Hpos) as (? & ? & ?).
      unfold canonical. split; [lia|]. split; done. }
    unfold FormatFloat in Hback.
    destruct (shortest_rounds (Z.to_pos m) e Hvalid He) as [HM Hshort].
    destruct (shortest (Z.to_pos m) e) as [M q]. simpl in HM, Hshort.
    destruct (digits_spec M HM) as (d0 & ds' & Hds & Hall0 & Hd0 & Hval).
    rewrite Hds in Hback.
    apply ParseInt_formatDigits in Hback as [Hdp ->]; [|done|done].
    rewrite Hval.
    replace (Z.of_nat (length (d0 :: ds')) + q - Z.of_nat (length (d0 :: ds'))) with q by lia.
    assert (Hq : 0 ≤ q) by lia.
    assert (HMq : M * 10 ^ q = X).
    { unfold round_decimal, scale in Hshort.
      rewrite (Z.max_l q 0), (Z.max_r (- q) 0), Z.pow_0_r in Hshort by lia.
      assert (Hsmall : M * 10 ^ q < 10 ^ 6).
      { pose proof (undigits_upper _ Hall0) as Hup. rewrite Hval in Hup.
        assert (0 < 10 ^ q) by (by apply Z.pow_pos_nonneg).
        apply Z.lt_le_trans with (10 ^ Z.of_nat (length (d0 :: ds')) * 10 ^ q); [nia|].
        rewrite <- Z.pow_add_r by lia. apply Z.pow_le_mono_r; lia. }
      assert (0 < 10 ^ q) by (by apply Z.pow_pos_nonneg).
      apply (round_float_integer_inj false (M * 10 ^ q) X
               (S754_finite false (Z.to_pos m) e)); [|lia|done|].
      - split; [nia|]. apply Z.lt_trans with (10 ^ 6); [done|]. done.
      - unfold round_float. rewrite (proj2 (Z.leb_gt X 0)) by lia. rewrite Hpos.
        rewrite (proj2 (Z.eqb_neq m 0)) by lia.
        by rewrite (proj2 (Z.ltb_ge emax e)) by done. }
    by rewrite HMq.
Qed.

End NumericFields.

(** * Integers as texts and as floats *)

Section DecimalTexts.
Import strconv.
#[local] Open Scope Z_scope.

(** [ParseUint] on a text of digits: the number, unless it leaves 64 bits. *)
Lemma ParseUint_loop_decimal ds : ∀ a,
  Forall is_decimal_digit ds → 0 ≤ a ≤ maxUint64 →
  ParseUint_loop (string_of_digits ds) a
  = if undigits_from a ds <=? maxUint64 then inr (undigits_from a ds) else inl ErrRange.
Proof.
  induction ds as [|d ds IH]; intros a Hall Ha.
  - simpl. unfold undigits_from. simpl.
    destruct (Z.leb_spec a maxUint64); [done|lia].
  - apply Forall_cons in Hall as [Hd Hall].
    rewrite string_of_digits_cons, undigits_from_cons. simpl ParseUint_loop.
    rewrite is_digit_digit_char, byte_digit_char by done. simpl negb. cbv iota.
    replace (48 + d - 48) with d by lia.
    assert (Hmono : a * 10 + d ≤ undigits_from (a * 10 + d) ds).
    { apply undigits_from_mono; [unfold is_decimal_digit in Hd; lia|done]. }
    unfold is_decimal_digit in Hd.
    change (maxUint64 / 10 + 1) with 1844674407370955162.
    unfold maxUint64 in *. 
    destruct (Z.leb_spec 1844674407370955162 a).
    { destruct (Z.leb_spec (undigits_from (a * 10 + d) ds) (2 ^ 64 - 1)); [lia|done]. }
    destruct (Z.ltb_spec (2 ^ 64 - 1) (a * 10 + d)).
    { destruct (Z.leb_spec (undigits_from (a * 10 + d) ds) (2 ^ 64 - 1)); [lia|done]. }
    apply IH; [done|lia].
Qed.

(** [ParseInt] on an optional sign and digits: the number when it is an
    [int64]; else the nearest [int64] and a range error. *)
Lemma ParseInt_decimal sgn d ds :
  sgn ∈ [""; "+"; "-"]%string → Forall is_decimal_digit (d :: ds) →
  ParseInt (sgn +:+ string_of_digits (d :: ds))
  = if bool_decide (int64 (signed sgn (undigits (d :: ds))))
    then (signed sgn (undigits (d :: ds)), None)
    else (if String.eqb sgn "-" then - 2 ^ 63 else 2 ^ 63 - 1,
          Some (NumError "ParseInt" (sgn +:+ string_of_digits (d :: ds)) ErrRange)).
Proof.
  intros Hsgn Hall.
  assert (Hpos : 0 ≤ undigits (d :: ds)) by by apply undigits_nonneg.
  assert (Hu : ParseUint (string_of_digits (d :: ds))
               = if undigits (d :: ds) <=? maxUint64 then inr (undigits (d :: ds))
                 else inl ErrRange).
  { unfold ParseUint. rewrite string_of_digits_cons. rewrite <- string_of_digits_cons.
    apply (ParseUint_loop_decimal (d :: ds) 0); [done|]. unfold maxUint64. lia. }
  apply Forall_cons in Hall as [Hd Hall]. 
  set (un := undigits (d :: ds)) in *. unfold int64, signed, maxUint64 in *.
  assert (Hcases : sgn = "" ∨ sgn = "+" ∨ sgn = "-").
  { apply elem_of_cons in Hsgn as [->|Hsgn]; [by left|].
    apply elem_of_cons in Hsgn as [->|Hsgn]; [by right; left|].
    apply list_elem_of_singleton in Hsgn as ->. by right; right. }
  destruct Hcases as [->|[->| ->]].
  - rewrite append_nil_l. rewrite string_of_digits_cons in *. unfold ParseInt.
    rewrite !(digit_char_not_special d) by done. simpl orb. cbv iota.
    rewrite Hu. clear Hu. simpl String.eqb. cbv iota.
    destruct (Z.leb_spec un (2 ^ 64 - 1)).
    + simpl negb. simpl andb.
      destruct (Z.leb_spec (2 ^ 63) un).
      * rewrite bool_decide_eq_false_2 by lia. done.
      * rewrite bool_decide_eq_true_2 by lia. done.
    + rewrite bool_decide_eq_false_2 by lia. done.
  - rewrite append_cons, append_nil_l. unfold ParseInt.
    change (Ascii.eqb "+" "-") with false. change (Ascii.eqb "+" "+") with true.
    simpl orb. cbv iota. rewrite Hu. clear Hu.
    change (String.eqb "+" "-") with false. cbv iota.
    destruct (Z.leb_spec un (2 ^ 64 - 1)).
    + simpl negb. simpl andb.
      destruct (Z.leb_spec (2 ^ 63) un).
      * rewrite bool_decide_eq_false_2 by lia. done.
      * rewrite bool_decide_eq_true_2 by lia. done.
    + rewrite bool_decide_eq_false_2 by lia. done.
  - rewrite append_cons, append_nil_l. unfold ParseInt.
    change (Ascii.eqb "-" "-") with true. change (Ascii.eqb "-" "+") with false.
    simpl orb. cbv iota. rewrite Hu. clear Hu.
    change (String.eqb "-" "-") with true. cbv iota.
    destruct (Z.leb_spec un (2 ^ 64 - 1)).
    + simpl negb. simpl andb.
      destruct (Z.ltb_spec (2 ^ 63) un).
      * rewrite bool_decide_eq_false_2 by lia. done.
      * rewrite bool_decide_eq_true_2 by lia. done.
    + rewrite bool_decide_eq_false_2 by lia. done.
Qed.

End DecimalTexts.

(** [ParseInt] reads back what [FormatInt] writes. *)
Lemma ParseInt_FormatInt (i : Z) :
  int64 i → strconv.ParseInt (strconv.FormatInt i) = (i, None).
Proof.
  intros Hi. unfold strconv.FormatInt.
  destruct (Z.eqb_spec i 0) as [->|Hne]; [done|].
  destruct (digits_spec (Z.abs i) ltac:(lia)) as (d & ds & Hds & Hall & _ & Hval).
  rewrite Hds.
  rewrite (ParseInt_decimal (strconv.sign_string (i <? 0)%Z) d ds); [|by destruct (i <? 0)%Z; simpl;
    [do 2 apply list_elem_of_further|]; apply list_elem_of_here|done].
  rewrite Hval.
  assert (Hsig : signed (strconv.sign_string (i <? 0)%Z) (Z.abs i) = i).
  { destruct (Z.ltb_spec i 0); unfold signed; simpl; lia. }
  rewrite Hsig. by rewrite bool_decide_eq_true_2.
Qed.

(** ** JSON numbers in the [int] fields *)

Section IntegerNumbers.
Import strconv.
#[local] Open Scope Z_scope.

(** The float of a positive integer below [2^53] is the integer. *)
Lemma round_float_integer neg a :
  0 < a < 2 ^ 53 →
  round_float neg a 1
  = (S754_finite neg (Z.to_pos (a * 2 ^ (52 - Z.log2 a))) (Z.log2 a - 52), false).
Proof.
  intros Ha. unfold round_float.
  rewrite (proj2 (Z.leb_gt a 0)) by lia. rewrite (round_pos_integer a Ha).
  destruct (Z.log2_spec a) as [Hl1 Hl2]; [lia|].
  pose proof (Z.log2_nonneg a) as Hl0.
  assert (Hl : Z.log2 a < 53) by (apply (Z.pow_lt_mono_r_iff 2); lia).
  assert (0 < 2 ^ (52 - Z.log2 a)) by (apply Z.pow_pos_nonneg; lia).
  rewrite (proj2 (Z.eqb_neq _ 0)) by nia.
  unfold emax. rewrite (proj2 (Z.ltb_ge 971 _)) by lia. done.
Qed.

Lemma round_decimal_nonneg_exp neg M t :
  0 ≤ t → round_decimal neg M t = round_float neg (M * 10 ^ t) 1.
Proof.
  intros Ht. unfold round_decimal, scale.
  by rewrite (Z.max_l t 0), (Z.max_r (- t) 0), Z.pow_0_r by lia.
Qed.

(** A decimal integer that parses to the float of [a] is [a]. *)
Lemma rounds_to_integer a m e M t :
  0 < a < 2 ^ 53 → round_float false a 1 = (S754_finite false m e, false) →
  0 ≤ t → 0 < M → rounds_to m e M t = true → M * 10 ^ t = a.
Proof.
  intros Ha Hf Ht HM Hr. apply rounds_to_spec in Hr.
  rewrite round_decimal_nonneg_exp in Hr by done.
  assert (0 < 10 ^ t) by (by apply Z.pow_pos_nonneg).
  symmetry.
  apply (round_float_integer_inj false a (M * 10 ^ t) (S754_finite false m e) Ha);
    [nia|done|done].
Qed.

Lemma rounds_to_integer_self a m e :
  round_float false a 1 = (S754_finite false m e, false) → rounds_to m e a 0 = true.
Proof.
  intros Hf. apply rounds_to_spec. rewrite round_decimal_nonneg_exp by done.
  by rewrite Z.pow_0_r, Z.mul_1_r.
Qed.

Lemma shortest_from_S m e N p j :
  shortest_from m e N p (S j)
  = (let w := 10 ^ Z.of_nat (S j) in
     let down := N / w in
     let rem := N mod w in
     let q := p + Z.of_nat (S j) in
     let okdown := (0 <? down) && rounds_to m e down q in
     let okup := rounds_to m e (down + 1) q in
     if okdown && okup then
       if (w <? 2 * rem) || ((w =? 2 * rem) && Z.odd down) then (down + 1, q) else (down, q)
     else if okdown then (down, q)
     else if okup then (down + 1, q)
     else shortest_from m e N p j).
Proof. reflexivity. Qed.

(** The walk along the digits of [a * 10^E] stops at the last digit of [a]
    that is not zero. *)
Lemma shortest_from_integer a m e E :
  0 < a < 2 ^ 53 → round_float false a 1 = (S754_finite false m e, false) → 0 ≤ E →
  ∀ j : nat, (Z.to_nat E ≤ j)%nat →
    ∃ M q, shortest_from m e (a * 10 ^ E) (- E) j = (M, q)
           ∧ 0 < M ∧ 0 ≤ q ∧ M * 10 ^ q = a.
Proof.
  intros Ha Hf HE. induction j as [|j IH]; intros Hj.
  - assert (E = 0) as -> by lia. exists a, 0. simpl.
    rewrite Z.mul_1_r. repeat split; lia.
  - rewrite shortest_from_S. cbv zeta.
    assert (HE10 : 0 < 10 ^ E) by (by apply Z.pow_pos_nonneg).
    destruct (Z.eq_dec (Z.of_nat (S j)) E) as [Heq|Hne].
    + rewrite Heq. rewrite Z.div_mul, Z.mod_mul by lia.
      replace (- E + E) with 0 by lia.
      rewrite (rounds_to_integer_self a m e Hf).
      rewrite (proj2 (Z.ltb_lt 0 a)) by lia. simpl andb.
      change (2 * 0) with 0.
      rewrite (proj2 (Z.ltb_ge (10 ^ E) 0)) by lia.
      rewrite (proj2 (Z.eqb_neq (10 ^ E) 0)) by lia. simpl.
      exists a, 0. rewrite Z.mul_1_r.
      destruct (rounds_to m e (a + 1) 0); repeat split; lia.
    + set (t := Z.of_nat (S j) - E). assert (Ht : 0 < t) by lia.
      assert (Ht10 : 0 < 10 ^ t) by (apply Z.pow_pos_nonneg; lia).
      replace (Z.of_nat (S j)) with (t + E) by lia.
      rewrite Z.pow_add_r by lia.
      rewrite Z.div_mul_cancel_r by lia.
      replace (- E + (t + E)) with t by lia.
      pose proof (Z.div_mod a (10 ^ t) ltac:(lia)) as Hdm.
      pose proof (Z.mod_pos_bound a (10 ^ t) Ht10) as Hmod.
      assert (Hdown : 0 ≤ a / 10 ^ t) by (apply Z.div_pos; lia).
      assert (Hup : rounds_to m e (a / 10 ^ t + 1) t = false).
      { destruct (rounds_to m e (a / 10 ^ t + 1) t) eqn:Hr; [|done].
        apply (rounds_to_integer a m e _ t Ha Hf) in Hr; [|lia|lia]. nia. }
      rewrite Hup. rewrite andb_false_r.
      destruct ((0 <? a / 10 ^ t) && rounds_to m e (a / 10 ^ t) t) eqn:Hok.
      * apply andb_prop in Hok as [Hpos Hr]. apply Z.ltb_lt in Hpos.
        exists (a / 10 ^ t), t. repeat split; [done|lia|].
        apply (rounds_to_integer a m e _ t Ha Hf); [lia|done|done].
      * apply IH. lia.
Qed.

Lemma trim_aux_value fuel : ∀ N p,
  0 < N →
  ∃ N' k, trim_aux fuel N p = (N', p + k) ∧ 0 ≤ k ∧ 0 < N' ∧ N' * 10 ^ k = N.
Proof.
  induction fuel as [|fuel IH]; intros N p HN.
  - exists N, 0. simpl. rewrite Z.add_0_r, Z.mul_1_r. repeat split; lia.
  - simpl. destruct (Z.eqb_spec (N mod 10) 0) as [Hmod|Hmod]; simpl.
    + rewrite (proj2 (Z.ltb_lt 0 N)) by done.
      pose proof (Z.div_mod N 10 ltac:(lia)) as Hdm.
      destruct (IH (N / 10) (p + 1) ltac:(lia)) as (N' & k & Heq & Hk & HN' & Hval).
      exists N', (k + 1). rewrite Heq. repeat split; [f_equal; lia|lia|done|].
      rewrite Z.pow_add_r by lia. change (10 ^ 1) with 10. lia.
    + exists N, 0. rewrite Z.add_0_r, Z.mul_1_r. repeat split; lia.
Qed.

(** The shortest decimal of the float of [a] writes [a]. *)
Lemma shortest_integer a m e :
  0 < a < 2 ^ 53 → round_float false a 1 = (S754_finite false m e, false) →
  ∃ M q, shortest m e = (M, q) ∧ 0 < M ∧ 0 ≤ q ∧ M * 10 ^ q = a.
Proof.
  intros Ha Hf. pose proof Hf as Hf'. rewrite (round_float_integer false a Ha) in Hf'.
  inversion Hf' as [[Hm He]]. clear Hf'.
  destruct (Z.log2_spec a) as [Hl1 Hl2]; [lia|].
  pose proof (Z.log2_nonneg a) as Hl0.
  assert (Hl : Z.log2 a < 53) by (apply (Z.pow_lt_mono_r_iff 2); lia).
  set (E := 52 - Z.log2 a) in *.
  assert (HE2 : 0 < 2 ^ E) by (apply Z.pow_pos_nonneg; lia).
  assert (HE10 : 0 < 10 ^ E) by (apply Z.pow_pos_nonneg; lia).
  assert (Hexact : exact_decimal m e = (a * 10 ^ E, - E)).
  { unfold exact_decimal. rewrite <- Hm, <- He. rewrite Z2Pos.id by nia.
    destruct (Z.leb_spec 0 (Z.log2 a - 52)) as [Hge|Hlt].
    - assert (E = 0) as HE0 by lia. rewrite HE0.
      replace (Z.log2 a - 52) with 0 by lia. rewrite !Z.pow_0_r. f_equal; lia.
    - replace (- (Z.log2 a - 52)) with E by lia.
      change 10 with (2 * 5). rewrite Z.pow_mul_l. f_equal; lia. }
  unfold shortest. rewrite Hm, He, Hexact.
  destruct (shortest_from_integer a m e E Ha Hf ltac:(lia)
              (length (digits (a * 10 ^ E)))) as (M & q & Hs & HM & Hq & Hval).
  { pose proof (digits_bounds (a * 10 ^ E) ltac:(nia)) as [_ Hub].
    assert (10 ^ E < 10 ^ Z.of_nat (length (digits (a * 10 ^ E)))) by nia.
    apply Z.pow_lt_mono_r_iff in H; lia. }
  rewrite Hs. unfold trim.
  destruct (trim_aux_value (S (Z.to_nat (Z.log2 M))) M q HM) as (N' & k & Ht & Hk & HN' & Hv).
  exists N', (q + k). rewrite Ht. repeat split; [done|lia|].
  rewrite Z.pow_add_r by lia. nia.
Qed.

End IntegerNumbers.

Section IntegerFields.
Import strconv.
#[local] Open Scope Z_scope.

(** Digits without a leading zero are the digits of their number. *)
Lemma undigits_inj l1 : ∀ l2,
  Forall is_decimal_digit l1 → Forall is_decimal_digit l2 →
  length l1 = length l2 → undigits l1 = undigits l2 → l1 = l2.
Proof.
  induction l1 as [|d1 l1 IH] using rev_ind; intros l2 H1 H2 Hlen Heq.
  - destruct l2; [done|discriminate Hlen].
  - destruct l2 as [|d2 l2 _] using rev_ind.
    { rewrite length_app in Hlen. simpl in Hlen. lia. }
    rewrite !length_app in Hlen. simpl in Hlen.
    apply Forall_app in H1 as [H1 Hd1]. apply Forall_app in H2 as [H2 Hd2].
    rewrite Forall_singleton in Hd1. rewrite Forall_singleton in Hd2.
    rewrite !undigits_app in Heq. simpl length in Heq.
    change (10 ^ Z.of_nat 1) with 10 in Heq.
    change (undigits [d1]) with d1 in Heq. change (undigits [d2]) with d2 in Heq.
    unfold is_decimal_digit in Hd1, Hd2.
    assert (d1 = d2 ∧ undigits l1 = undigits l2) as [-> Hu] by lia.
    f_equal. apply IH; [done|done|lia|done].
Qed.

Lemma digits_of_undigits d ds :
  Forall is_decimal_digit (d :: ds) → d ≠ 0 → digits (undigits (d :: ds)) = d :: ds.
Proof.
  intros Hall Hd. pose proof (undigits_pos d ds Hall Hd) as Hpos.
  destruct (digits_spec _ Hpos) as (d' & ds' & Hds & Hall' & Hd' & Hval).
  rewrite Hds. apply undigits_inj; [done|done| |done].
  pose proof (undigits_lower d ds Hall Hd) as Hl.
  pose proof (undigits_upper _ Hall) as Hu.
  pose proof (undigits_lower d' ds' Hall' Hd') as Hl'.
  pose proof (undigits_upper _ Hall') as Hu'.
  rewrite Hval in Hl', Hu'. simpl length in *.
  assert (H1 : 10 ^ Z.of_nat (length ds) < 10 ^ Z.of_nat (S (length ds'))) by lia.
  assert (H2 : 10 ^ Z.of_nat (length ds') < 10 ^ Z.of_nat (S (length ds))) by lia.
  apply Z.pow_lt_mono_r_iff in H1; [|lia|lia].
  apply Z.pow_lt_mono_r_iff in H2; [|lia|lia]. lia.
Qed.

(** The rendering of the float of a positive integer below [10^6] is the
    decimal text of the integer. *)
Lemma FormatFloat_integer neg a :
  0 < a < 10 ^ 6 →
  FormatFloat (integer_float neg a) = sign_string neg +:+ string_of_digits (digits a).
Proof.
  intros Ha.
  assert (Ha53 : 0 < a < 2 ^ 53).
  { split; [lia|]. apply Z.lt_trans with (10 ^ 6); [lia|done]. }
  unfold integer_float. rewrite (round_float_integer neg a Ha53). simpl fst.
  destruct (shortest_integer a _ _ Ha53 (round_float_integer false a Ha53))
    as (M & q & Hs & HM & Hq & Hval).
  unfold FormatFloat. rewrite Hs.
  destruct (digits_spec M HM) as (d0 & ds' & Hds & Hall & Hd0 & Hund).
  pose proof (digits_bounds M HM) as [Hlb _].
  rewrite Hds in *. set (ds := d0 :: ds') in *.
  assert (Hlen : 0 < Z.of_nat (length ds)) by (unfold ds; simpl; lia).
  assert (H10q : 0 < 10 ^ q) by (by apply Z.pow_pos_nonneg).
  assert (Hdp : Z.of_nat (length ds) + q ≤ 6).
  { assert (Hlt : 10 ^ (Z.of_nat (length ds) - 1 + q) < 10 ^ 6).
    { rewrite Z.pow_add_r by lia. nia. }
    apply Z.pow_lt_mono_r_iff in Hlt; lia. }
  unfold formatDigits. cbv zeta.
  rewrite (proj2 (Z.ltb_ge (Z.of_nat (length ds) + q - 1) (-4))) by lia.
  rewrite (proj2 (Z.leb_gt 6 (Z.of_nat (length ds) + q - 1))) by lia.
  simpl orb. cbv iota.
  rewrite fmtF_shape_integer by lia.
  replace (Z.of_nat (length ds) + q - Z.of_nat (length ds)) with q by lia.
  assert (Hund' : undigits (d0 :: (ds' ++ replicate (Z.to_nat q) 0)) = a).
  { change (d0 :: (ds' ++ replicate (Z.to_nat q) 0)) with (ds ++ replicate (Z.to_nat q) 0).
    rewrite undigits_app, undigits_replicate_zero, Hund, length_replicate.
    rewrite Z2Nat.id by done. lia. }
  assert (Hall' : Forall is_decimal_digit (d0 :: (ds' ++ replicate (Z.to_nat q) 0))).
  { change (d0 :: (ds' ++ replicate (Z.to_nat q) 0)) with (ds ++ replicate (Z.to_nat q) 0).
    apply Forall_app. split; [done|]. apply Forall_replicate. unfold is_decimal_digit. lia. }
  change (ds ++ replicate (Z.to_nat q) 0) with (d0 :: (ds' ++ replicate (Z.to_nat q) 0)).
  by rewrite <- (digits_of_undigits d0 _ Hall' Hd0), Hund'.
Qed.

(** [ParseInt] reads that text back. *)
Lemma ParseInt_FormatFloat_integer neg a :
  0 ≤ a < 10 ^ 6 →
  ParseInt (FormatFloat (integer_float neg a)) = (if neg then - a else a, None).
Proof.
  intros Ha. destruct (Z.eq_dec a 0) as [->|Hne].
  { destruct neg; vm_compute; reflexivity. }
  rewrite FormatFloat_integer by lia.
  destruct (digits_spec a ltac:(lia)) as (d & ds & Hds & Hall & _ & Hval).
  rewrite Hds.
  rewrite (ParseInt_decimal (sign_string neg) d ds);
    [|destruct neg; simpl; [do 2 apply list_elem_of_further|]; apply list_elem_of_here|done].
  rewrite Hval.
  assert (Hsig : signed (sign_string neg) a = if neg then - a else a) by by destruct neg.
  rewrite Hsig. rewrite bool_decide_eq_true_2; [done|].
  unfold int64. assert (10 ^ 6 < 2 ^ 63) by done. destruct neg; lia.
Qed.

(** A float whose rendering [ParseInt] takes is an integer below [10^6]. *)
Lemma ParseInt_FormatFloat_inv f n :
  valid_float f → ParseInt (FormatFloat f) = (n, None) →
  ∃ neg a, 0 ≤ a < 10 ^ 6 ∧ f = integer_float neg a ∧ n = (if neg then - a else a).
Proof.
  intros Hf Hp. destruct f as [s|s| |s m e].
  - exists s, 0. split; [done|]. split; [done|].
    destruct s; vm_compute in Hp; by inversion Hp.
  - destruct s; vm_compute in Hp; discriminate Hp.
  - vm_compute in Hp. discriminate Hp.
  - destruct Hf as [Hcan He].
    destruct (shortest_rounds m e Hcan He) as [HM Hshort].
    unfold FormatFloat in Hp.
    destruct (shortest m e) as [M q]. simpl in HM, Hshort.
    destruct (digits_spec M HM) as (d0 & ds' & Hds & Hall & Hd0 & Hund).
    rewrite Hds in Hp.
    apply ParseInt_formatDigits in Hp as [Hdp Hn]; [|done|done].
    assert (Hq : 0 ≤ q) by lia.
    replace (Z.of_nat (length (d0 :: ds')) + q - Z.of_nat (length (d0 :: ds'))) with q
      in Hn by lia.
    rewrite Hund in Hn.
    assert (H10q : 0 < 10 ^ q) by (by apply Z.pow_pos_nonneg).
    exists s, (M * 10 ^ q). split; [|split; [|done]].
    + split; [nia|].
      pose proof (undigits_upper _ Hall) as Hup. rewrite Hund in Hup.
      apply Z.lt_le_trans with (10 ^ Z.of_nat (length (d0 :: ds')) * 10 ^ q); [nia|].
      rewrite <- Z.pow_add_r by lia. apply Z.pow_le_mono_r; lia.
    + rewrite round_decimal_nonneg_exp in Hshort by done.
      unfold integer_float.
      by rewrite (round_float_sign false s _ _ _ _ Hshort).
Qed.

End IntegerFields.

(** * The claims on the numeric fields *)

(** After a successful decode every numeric field is what its parser
    returns on the text of the field. *)
Lemma decoded_numbers s fields s' :
  UnmarshalJSON_fields s fields = (s', None) →
  Forall (λ e : string * bool * (Server.t → number),
            parse_number (snd (fst e)) (numeric_text fields (fst (fst e)))
            = (snd e s', None))
         numeric_table.
Proof.
  intros H. apply UnmarshalJSON_fields_ok in H
    as (vcpu & region & plan & pc & cb & ab & H1 & H2 & H3 & H4 & H5 & H6 & ->).
  unfold numeric_table, parse_number.
  repeat constructor; simpl; by rewrite ?H1, ?H2, ?H3, ?H4, ?H5, ?H6.
Qed.

Lemma parse_number_zero (is_float : bool) :
  parse_number is_float "0" = (number_zero is_float, None).
Proof. by destruct is_float. Qed.

(** The example of the specification: a number and a string in one payload. *)
Example decode_mixed_number_string :
  let fields : gmap string value :=
    <["DCID" := VString "7"]> (<["vcpu_count" := json_number "2"]> ∅) in
  snd (UnmarshalJSON_fields Server.zero fields) = None
  ∧ Server.VCpus (fst (UnmarshalJSON_fields Server.zero fields)) = 2%Z
  ∧ Server.RegionID (fst (UnmarshalJSON_fields Server.zero fields)) = 7%Z.
Proof. repeat split; vm_compute; reflexivity. Qed.

(** After a successful decode every numeric field keeps what its parser
    returned on the text of the field, for either width of [int]. *)
Lemma decoded_number_on intSize s fields s' k is_float proj :
  (k, is_float, proj) ∈ numeric_table →
  UnmarshalJSON_fields_on intSize s fields = (s', None) →
  snd (parse_number is_float (numeric_text fields k)) = None
  ∧ proj s' = stored intSize (fst (parse_number is_float (numeric_text fields k))).
Proof.
  intros Hin H. apply UnmarshalJSON_fields_on_ok in H
    as (vcpu & region & plan & pc & cb & ab & H1 & H2 & H3 & H4 & H5 & H6 & ->).
  unfold numeric_table in Hin. unfold parse_number.
  repeat (apply elem_of_cons in Hin as [Hin|Hin];
          [injection Hin as -> -> ->; simpl; by rewrite ?H1, ?H2, ?H3, ?H4, ?H5, ?H6|]).
  by apply elem_of_nil in Hin.
Qed.

Lemma numeric_table_fields k is_float proj :
  (k, is_float, proj) ∈ numeric_table → (k, is_float) ∈ numeric_fields.
Proof.
  intros H. apply (list_elem_of_fmap_2 fst) in H. exact H.
Qed.

(** The conversion keeps the integers below [10^6] on both targets. *)
Lemma int_of_int64_small (intSize n : Z) :
  intSize = 32%Z ∨ intSize = 64%Z → (Z.abs n < 10 ^ 6)%Z → int_of_int64 intSize n = n.
Proof.
  intros Hsize Hn. apply int_of_int64_fits; [lia|].
  assert (H31 : (10 ^ 6 < 2 ^ 31)%Z) by done.
  assert (H63 : (10 ^ 6 < 2 ^ 63)%Z) by done.
  destruct Hsize as [->| ->]; simpl Z.sub; lia.
Qed.

(** The float of an integer text is the float of the integer. *)
Lemma integer_text_float t n f :
  strconv.ParseInt t = (n, None) → strconv.ParseFloat t = (f, None) →
  ∃ neg : bool, f = integer_float neg (Z.abs n)
                ∧ n = (if neg then - Z.abs n else Z.abs n)%Z.
Proof.
  intros Hint Hfloat.
  apply ParseInt_ok_inv in Hint as (sgn & neg & d & ds & Hsgn & Hall & -> & ->).
  rewrite (ParseFloat_integer_text sgn neg d ds Hsgn Hall) in Hfloat.
  pose proof (undigits_nonneg _ Hall) as HX.
  set (X := undigits (d :: ds)) in *.
  unfold strconv.round_decimal, strconv.scale in Hfloat.
  change (Z.max 0 0) with 0%Z in Hfloat. change (Z.max (- 0) 0) with 0%Z in Hfloat.
  rewrite Z.pow_0_r, Z.mul_1_r in Hfloat.
  exists neg. unfold integer_float.
  assert (Habs : Z.abs (if neg then (- X)%Z else X) = X) by (destruct neg; lia).
  rewrite Habs. split; [|done].
  destruct (strconv.round_float neg X 1) as [f0 ovf]. simpl in *.
  destruct ovf; [done|]. by inversion Hfloat.
Qed.

(** A number in an [int] field and the decimal text of the same integer:
    the number decodes exactly below [10^6], and then to the integer. *)
Lemma integer_number_text t n f :
  strconv.ParseInt t = (n, None) → strconv.ParseFloat t = (f, None) →
  (snd (strconv.ParseInt (strconv.FormatFloat f)) = None ↔ (Z.abs n < 10 ^ 6)%Z)
  ∧ (snd (strconv.ParseInt (strconv.FormatFloat f)) = None →
     fst (strconv.ParseInt (strconv.FormatFloat f)) = n).
Proof.
  intros Hint Hfloat.
  assert (Hback : snd (strconv.ParseInt (strconv.FormatFloat f)) = None →
                  fst (strconv.ParseInt (strconv.FormatFloat f)) = n ∧ (Z.abs n < 10 ^ 6)%Z).
  { destruct (strconv.ParseInt (strconv.FormatFloat f)) as [n' o] eqn:Hp. simpl.
    intros ->. pose proof (int_field_roundtrip t n f n' Hint Hfloat Hp) as ->.
    split; [done|].
    apply ParseInt_FormatFloat_inv in Hp as (neg & a & Ha & _ & ->);
      [|pose proof (ParseFloat_valid t) as Hv; by rewrite Hfloat in Hv].
    destruct neg; lia. }
  split; [split|].
  - intros H. by apply Hback.
  - intros Hsmall.
    destruct (integer_text_float t n f Hint Hfloat) as (neg & -> & _).
    rewrite ParseInt_FormatFloat_integer by lia. done.
  - intros H. by apply Hback.
Qed.

(** C1, as stated, fails: an [int] field takes the JSON number of an
    integer only below [10^6].  The string ["1000000"] in [vcpu_count]
    decodes to 1000000; the number 1000000, of which it is a string, is
    rendered as ["1e+06"], which [ParseInt] rejects, and the payload does not
    decode at all.  So it is on both targets. *)
Lemma C1_counterexample :
  let of_string : gmap string value := <["vcpu_count" := VString "1000000"]> ∅ in
  let of_number : gmap string value := <["vcpu_count" := json_number "1000000"]> ∅ in
  strconv.ParseFloat "1000000" = (fst (strconv.ParseFloat "1000000"), None)
  ∧ snd (UnmarshalJSON_fields_on 64 Server.zero of_string) = None
  ∧ Server.VCpus (fst (UnmarshalJSON_fields_on 64 Server.zero of_string)) = 1000000%Z
  ∧ snd (UnmarshalJSON_fields_on 32 Server.zero of_string) = None
  ∧ Server.VCpus (fst (UnmarshalJSON_fields_on 32 Server.zero of_string)) = 1000000%Z
  ∧ strconv.FormatFloat (fst (strconv.ParseFloat "1000000")) = "1e+06"
  ∧ snd (UnmarshalJSON_fields_on 64 Server.zero of_number)
    = Some (NumError "ParseInt" "1e+06" ErrSyntax)
  ∧ snd (UnmarshalJSON_fields_on 32 Server.zero of_number)
    = Some (NumError "ParseInt" "1e+06" ErrSyntax).
Proof. repeat split; vm_compute; reflexivity. Qed.

(** C1 (amended), for either width [intSize] of [int].  A numeric field
    that is absent or [null] raises no error and decodes to zero.  A
    [float64] field raises no error on a JSON number and on a JSON string of
    that number (a [text] that [ParseFloat] reads as the number), and decodes
    both to the number.  An [int] field raises no error on a JSON string
    that [ParseInt] reads as [n], and decodes it to [int(n)]; on the JSON
    number of which that string is a string it raises no error exactly when
    [n] is of magnitude below [10^6], and then decodes it to the same
    value, [n] itself. *)
Theorem C1_numeric_fields
    (intSize : Z) (s : Server.t) (fields : gmap string value)
    (k : string) (is_float : bool) (proj : Server.t → number) :
  intSize = 32%Z ∨ intSize = 64%Z →
  (k, is_float, proj) ∈ numeric_table →
  (fields !! k = None ∨ fields !! k = Some VNil →
   coercion_error fields (k, is_float) = None
   ∧ (∀ s' : Server.t,
        UnmarshalJSON_fields_on intSize s fields = (s', None) →
        proj s' = number_zero is_float))
  ∧ (∀ (f : spec_float) (text : string),
       is_float = true →
       strconv.ParseFloat text = (f, None) →
       fields !! k = Some (VFloat f) ∨ fields !! k = Some (VString text) →
       coercion_error fields (k, is_float) = None
       ∧ (∀ s' : Server.t,
            UnmarshalJSON_fields_on intSize s fields = (s', None) →
            proj s' = Float f))
  ∧ (∀ (f : spec_float) (text : string) (n : Z),
       is_float = false →
       strconv.ParseFloat text = (f, None) →
       strconv.ParseInt text = (n, None) →
       (fields !! k = Some (VString text) →
        coercion_error fields (k, is_float) = None
        ∧ (∀ s' : Server.t,
             UnmarshalJSON_fields_on intSize s fields = (s', None) →
             proj s' = Int (int_of_int64 intSize n)))
       ∧ (fields !! k = Some (VFloat f) →
          (coercion_error fields (k, is_float) = None ↔ (Z.abs n < 10 ^ 6)%Z)
          ∧ (∀ s' : Server.t,
               UnmarshalJSON_fields_on intSize s fields = (s', None) →
               proj s' = Int (int_of_int64 intSize n) ∧ int_of_int64 intSize n = n))).
Proof.
  intros Hsize Hk. split; [|split].
  - intros Hnone. pose proof (numeric_text_absent fields k Hnone) as Ht. split.
    + unfold coercion_error. simpl. rewrite Ht. by destruct is_float.
    + intros s' Hok. destruct (decoded_number_on _ _ _ _ _ _ _ Hk Hok) as [_ ->].
      rewrite Ht, parse_number_zero.
      destruct is_float; [done|]. simpl. f_equal. by apply int_of_int64_small.
  - intros f text -> Hf Hwire.
    assert (Hvalid : valid_float f).
    { pose proof (ParseFloat_valid text) as Hv. by rewrite Hf in Hv. }
    assert (Hp : strconv.ParseFloat (numeric_text fields k) = (f, None)).
    { destruct Hwire as [Hwire|Hwire].
      - rewrite (numeric_text_float fields k f Hvalid Hwire).
        by apply ParseFloat_FormatFloat.
      - by rewrite (numeric_text_string fields k text f Hf Hwire). }
    split.
    + unfold coercion_error. simpl. by rewrite Hp.
    + intros s' Hok. destruct (decoded_number_on _ _ _ _ _ _ _ Hk Hok) as [_ ->].
      unfold parse_number. by rewrite Hp.
  - intros f text n -> Hf Hn.
    assert (Hvalid : valid_float f).
    { pose proof (ParseFloat_valid text) as Hv. by rewrite Hf in Hv. }
    split.
    + intros Hwire. pose proof (numeric_text_string fields k text f Hf Hwire) as Ht. split.
      * unfold coercion_error. simpl. by rewrite Ht, Hn.
      * intros s' Hok. destruct (decoded_number_on _ _ _ _ _ _ _ Hk Hok) as [_ ->].
        unfold parse_number. by rewrite Ht, Hn.
    + intros Hwire. pose proof (numeric_text_float fields k f Hvalid Hwire) as Ht.
      destruct (integer_number_text text n f Hn Hf) as [Hiff Hval].
      split.
      * unfold coercion_error. simpl. by rewrite Ht.
      * intros s' Hok. destruct (decoded_number_on _ _ _ _ _ _ _ Hk Hok) as [Hnone ->].
        unfold parse_number in *. rewrite Ht in *. simpl in Hnone. simpl.
        rewrite (Hval Hnone). split; [done|].
        apply int_of_int64_small; [done|]. by apply Hiff.
Qed.

Lemma C1_witness :
  let price : spec_float := fst (strconv.ParseFloat "0.1") in
  let seven : spec_float := fst (strconv.ParseFloat "7") in
  let absent : gmap string value := <["DCID" := VNil]> ∅ in
  let of_number : gmap string value :=
    <["DCID" := VFloat seven]> (<["pending_charges" := VFloat price]> ∅) in
  let of_string : gmap string value :=
    <["DCID" := VString "7"]> (<["pending_charges" := VString "0.1"]> ∅) in
  (snd (UnmarshalJSON_fields_on 32 Server.zero absent) = None
   ∧ snd (UnmarshalJSON_fields_on 32 Server.zero of_number) = None
   ∧ snd (UnmarshalJSON_fields_on 32 Server.zero of_string) = None)
  ∧ (coercion_error absent ("pending_charges", true) = None
     ∧ (∀ s' : Server.t,
          UnmarshalJSON_fields_on 32 Server.zero absent = (s', None) →
          Float (Server.PendingCharges s') = number_zero true))
  ∧ (coercion_error absent ("DCID", false) = None
     ∧ (∀ s' : Server.t,
          UnmarshalJSON_fields_on 32 Server.zero absent = (s', None) →
          Int (Server.RegionID s') = number_zero false))
  ∧ (coercion_error of_number ("pending_charges", true) = None
     ∧ (∀ s' : Server.t,
          UnmarshalJSON_fields_on 32 Server.zero of_number = (s', None) →
          Float (Server.PendingCharges s') = Float price))
  ∧ (coercion_error of_string ("pending_charges", true) = None
     ∧ (∀ s' : Server.t,
          UnmarshalJSON_fields_on 32 Server.zero of_string = (s', None) →
          Float (Server.PendingCharges s') = Float price))
  ∧ (coercion_error of_string ("DCID", false) = None
     ∧ (∀ s' : Server.t,
          UnmarshalJSON_fields_on 32 Server.zero of_string = (s', None) →
          Int (Server.RegionID s') = Int (int_of_int64 32 7)))
  ∧ ((coercion_error of_number ("DCID", false) = None ↔ (Z.abs 7 < 10 ^ 6)%Z)
     ∧ (∀ s' : Server.t,
          UnmarshalJSON_fields_on 32 Server.zero of_number = (s', None) →
          Int (Server.RegionID s') = Int (int_of_int64 32 7) ∧ int_of_int64 32 7 = 7%Z)).
Proof.
  intros price seven absent of_number of_string.
  assert (Hcharges : ("pending_charges", true, λ s : Server.t, Float (Server.PendingCharges s))
                     ∈ numeric_table).
  { do 3 apply list_elem_of_further. apply list_elem_of_here. }
  assert (Hregion : ("DCID", false, λ s : Server.t, Int (Server.RegionID s)) ∈ numeric_table).
  { apply list_elem_of_further. apply list_elem_of_here. }
  assert (Hprice : strconv.ParseFloat "0.1" = (price, None)) by (vm_compute; reflexivity).
  assert (Hseven : strconv.ParseFloat "7" = (seven, None)) by (vm_compute; reflexivity).
  assert (Hint : strconv.ParseInt "7" = (7%Z, None)) by reflexivity.
  split; [repeat split; vm_compute; reflexivity|].
  split; [|split; [|split; [|split; [|split]]]].
  - apply (C1_numeric_fields 32 Server.zero absent "pending_charges" true _
             (or_introl eq_refl) Hcharges).
    left. reflexivity.
  - apply (C1_numeric_fields 32 Server.zero absent "DCID" false _
             (or_introl eq_refl) Hregion).
    right. reflexivity.
  - apply (C1_numeric_fields 32 Server.zero of_number "pending_charges" true _
             (or_introl eq_refl) Hcharges) with (text := "0.1");
      [reflexivity|exact Hprice|left; reflexivity].
  - apply (C1_numeric_fields 32 Server.zero of_string "pending_charges" true _
             (or_introl eq_refl) Hcharges) with (text := "0.1");
      [reflexivity|exact Hprice|right; reflexivity].
  - apply (C1_numeric_fields 32 Server.zero of_string "DCID" false _
             (or_introl eq_refl) Hregion) with (f := seven) (text := "7");
      [reflexivity|exact Hseven|exact Hint|reflexivity].
  - apply (C1_numeric_fields 32 Server.zero of_number "DCID" false _
             (or_introl eq_refl) Hregion) with (f := seven) (text := "7");
      [reflexivity|exact Hseven|exact Hint|reflexivity].
Defined.

Lemma first_error_is_Some l err : Some err ∈ l → is_Some (first_error l).
Proof.
  induction l as [|[e|] l IH]; intros H.
  - by apply elem_of_nil in H.
  - simpl. eauto.
  - simpl. apply elem_of_cons in H as [?|?]; [done|auto].
Qed.

(** C10: a JSON number in an integer field fails the decode whenever its
    text is no decimal integer.  The number 2.5 prints as ["2.5"] and the
    number 10000000 as ["1e+07"]; [ParseInt] rejects both, and so it does
    every text of a number that it does not accept. *)
Theorem C10_number_in_integer_field :
  strconv.FormatFloat (fst (strconv.ParseFloat "2.5")) = "2.5"
  ∧ strconv.FormatFloat (fst (strconv.ParseFloat "10000000")) = "1e+07"
  ∧ (∀ (s : Server.t) (k : string),
       k ∈ ["vcpu_count"; "DCID"; "VPSPLANID"] →
       snd (UnmarshalJSON_fields s (<[k := json_number "2.5"]> ∅))
       = Some (NumError "ParseInt" "2.5" ErrSyntax)
       ∧ snd (UnmarshalJSON_fields s (<[k := json_number "10000000"]> ∅))
         = Some (NumError "ParseInt" "1e+07" ErrSyntax))
  ∧ (∀ (s : Server.t) (fields : gmap string value) (k : string)
       (literal : string) (err : error),
       k ∈ ["vcpu_count"; "DCID"; "VPSPLANID"] →
       fields !! k = Some (json_number literal) →
       snd (strconv.ParseInt (strconv.FormatFloat (fst (strconv.ParseFloat literal))))
       = Some err →
       is_Some (snd (UnmarshalJSON_fields s fields))).
Proof.
  split; [vm_compute; reflexivity|]. split; [vm_compute; reflexivity|]. split.
  - intros s k Hk. rewrite !UnmarshalJSON_fields_error.
    repeat (apply elem_of_cons in Hk as [->|Hk]); [| | |by apply elem_of_nil in Hk];
      split; vm_compute; reflexivity.
  - intros s fields k literal err Hk Hfield Herr.
    rewrite UnmarshalJSON_fields_error.
    apply (first_error_is_Some _ err).
    apply list_elem_of_fmap. exists (k, false). split.
    + unfold coercion_error. simpl.
      rewrite (numeric_text_float fields k (fst (strconv.ParseFloat literal)));
        [done|apply ParseFloat_valid|done].
    + unfold numeric_fields.
      repeat (apply elem_of_cons in Hk as [->|Hk]); [| | |by apply elem_of_nil in Hk].
      * left.
      * right. left.
      * right. right. left.
Qed.

(** * The decoder beyond the single fields *)

Ltac known_key :=
  unfold known_keys; simpl;
  repeat first [apply list_elem_of_here | apply list_elem_of_further].

Ltac split_parse :=
  match goal with
  | |- context [strconv.ParseInt (numeric_text ?f ?k)] =>
      destruct (strconv.ParseInt (numeric_text f k)) as [? [?|]]
  | |- context [strconv.ParseFloat (numeric_text ?f ?k)] =>
      destruct (strconv.ParseFloat (numeric_text f k)) as [? [?|]]
  end.

Lemma field_agree (fields1 fields2 : gmap string value) k :
  fields1 !! k = fields2 !! k → field fields1 k = field fields2 k.
Proof. unfold field. by intros ->. Qed.

Lemma numeric_text_agree (fields1 fields2 : gmap string value) k :
  fields1 !! k = fields2 !! k → numeric_text fields1 k = numeric_text fields2 k.
Proof. unfold numeric_text. by intros ->%field_agree. Qed.

Lemma assign_text_fields_agree s (fields1 fields2 : gmap string value) :
  (∀ k, k ∈ known_keys → fields1 !! k = fields2 !! k) →
  assign_text_fields s fields1 = assign_text_fields s fields2.
Proof.
  intros H. unfold assign_text_fields.
  repeat match goal with
  | |- context [field fields1 ?k] =>
      rewrite (field_agree fields1 fields2 k) by (apply H; known_key)
  end.
  reflexivity.
Qed.

(** X1.  The decoder reads the payload at its 26 keys only: two payloads
    that agree on these keys decode alike, into the same entity or into the
    same error, whatever else they hold. *)
Theorem decode_reads_known_keys_only
    (json1 json2 : string → error + gmap string value)
    (s : Server.t) (data1 data2 : string) (fields1 fields2 : gmap string value) :
  json1 data1 = inr fields1 → json2 data2 = inr fields2 →
  (∀ k : string, k ∈ known_keys → fields1 !! k = fields2 !! k) →
  UnmarshalJSON json1 s data1 = UnmarshalJSON json2 s data2.
Proof.
  intros H1 H2 H. rewrite !UnmarshalJSON_unfold. rewrite H1, H2.
  rewrite !UnmarshalJSON_fields_unfold. cbv zeta.
  repeat match goal with
  | |- context [numeric_text fields1 ?k] =>
      rewrite (numeric_text_agree fields1 fields2 k) by (apply H; known_key)
  end.
  repeat (split_parse; [done|]).
  by rewrite (assign_text_fields_agree _ fields1 fields2 H).
Qed.

Lemma decode_reads_known_keys_only_witness :
  let fields : gmap string value := <["label" := VString "web"]> ∅ in
  UnmarshalJSON (λ _, inr (<["comment" := VBool true]> fields)) Server.zero "a"
  = UnmarshalJSON (λ _, inr fields) Server.zero "b".
Proof.
  intros fields.
  apply (decode_reads_known_keys_only
           (λ _, inr (<["comment" := VBool true]> fields)) (λ _, inr fields)
           Server.zero "a" "b" (<["comment" := VBool true]> fields) fields);
    [reflexivity|reflexivity|].
  intros k Hk. apply lookup_insert_ne. intros <-. revert Hk. vm_compute.
  intros Hk. repeat (inversion Hk as [|? ? ? Hk']; clear Hk; rename Hk' into Hk; subst).
Defined.

(** X2.  Decoding is idempotent on the receiver: decoding the same payload
    once more into the receiver that a decode left, failed or not, changes
    nothing and ends the same way. *)
Theorem decode_twice
    (json_Unmarshal : string → error + gmap string value)
    (s : Server.t) (data : string) :
  UnmarshalJSON json_Unmarshal (fst (UnmarshalJSON json_Unmarshal s data)) data
  = UnmarshalJSON json_Unmarshal s data.
Proof.
  rewrite !UnmarshalJSON_unfold. destruct (json_Unmarshal data) as [err|fields]; [done|].
  rewrite !UnmarshalJSON_fields_unfold. cbv zeta.
  repeat (split_parse; [destruct s; reflexivity|]).
  unfold assign_text_fields, fst. f_equal. destruct s; simpl.
  f_equal. by destruct (field fields "v6_networks").
Qed.

(** X3.  A successful decode overwrites every field of the receiver but,
    when the payload has no array at [v6_networks], the network collection:
    two receivers with the same collection, or any two receivers when the
    array is there, end as the same entity. *)
Theorem decode_overwrites_receiver
    (json_Unmarshal : string → error + gmap string value)
    (s1 s2 s' : Server.t) (data : string) :
  UnmarshalJSON json_Unmarshal s1 data = (s', None) →
  Server.V6Networks s1 = Server.V6Networks s2
  ∨ (∃ (fields : gmap string value) (networks : list value),
       json_Unmarshal data = inr fields
       ∧ fields !! "v6_networks" = Some (VSlice networks)) →
  UnmarshalJSON json_Unmarshal s2 data = (s', None).
Proof.
  rewrite !UnmarshalJSON_unfold. destruct (json_Unmarshal data) as [err|fields]; [done|].
  rewrite !UnmarshalJSON_fields_unfold. cbv zeta.
  repeat (split_parse; [done|]).
  intros H Hv6. inversion H as [Hs']. f_equal.
  unfold assign_text_fields. destruct s1, s2; simpl in *. f_equal.
  destruct Hv6 as [->|(fields' & networks & Heq & Hl)]; [done|].
  inversion Heq; subst fields'. unfold field. by rewrite Hl.
Qed.

Lemma decode_overwrites_receiver_witness :
  let fields : gmap string value := <["v6_networks" := VSlice []]> ∅ in
  let old := Server.set_Name "old" (Server.set_VCpus 8 Server.zero) in
  UnmarshalJSON (λ _, inr fields) old "payload"
  = (fst (UnmarshalJSON (λ _, inr fields) Server.zero "payload"), None).
Proof.
  intros fields old.
  apply (decode_overwrites_receiver (λ _, inr fields) Server.zero old
           (fst (UnmarshalJSON (λ _, inr fields) Server.zero "payload")) "payload").
  - vm_compute. reflexivity.
  - right. exists fields, []. split; reflexivity.
Defined.

(** ** Values of the wrong type in a numeric field *)

Lemma no_number_start_inv c :
  no_number_start c = true →
  strconv.is_digit c = false
  ∧ Forall (λ c', Ascii.eqb c c' = false) ["+"; "-"; "."; "_"; "i"; "I"; "n"; "N"; "0"]%char.
Proof.
  unfold no_number_start. intros [Hd Hc]%andb_prop.
  apply negb_true_iff in Hd, Hc. split; [done|].
  simpl in Hc. repeat (apply orb_false_elim in Hc as [? Hc]).
  repeat (constructor; [done|]). constructor; [|constructor].
  destruct (Ascii.eqb_spec c "0") as [->|]; [discriminate Hd|done].
Qed.

Lemma ParseInt_no_number c rest :
  no_number_start c = true →
  strconv.ParseInt (String c rest)
  = (0%Z, Some (NumError "ParseInt" (String c rest) ErrSyntax)).
Proof.
  intros (Hd & Hc)%no_number_start_inv.
  repeat (apply Forall_cons in Hc as [? Hc]).
  unfold strconv.ParseInt.
  repeat match goal with H : Ascii.eqb c _ = false |- _ => rewrite H; clear H end.
  simpl. by rewrite Hd.
Qed.

Lemma ParseFloat_no_number c rest :
  no_number_start c = true →
  strconv.ParseFloat (String c rest)
  = (S754_zero false, Some (NumError "ParseFloat" (String c rest) ErrSyntax)).
Proof.
  intros (Hd & Hc)%no_number_start_inv.
  repeat (apply Forall_cons in Hc as [? Hc]).
  assert (Hhex : strconv.has_hex_prefix (String c rest) = false).
  { unfold strconv.has_hex_prefix. destruct rest as [|b [|? ?]]; [done|done|].
    match goal with H : Ascii.eqb c "0" = false |- _ => by rewrite H end. }
  unfold strconv.ParseFloat, strconv.special, strconv.readFloat.
  repeat match goal with H : Ascii.eqb c _ = false |- _ => rewrite ?H; revert H end.
  intros. simpl orb. cbv iota. rewrite Hhex.
  unfold strconv.read_mantissa.
  repeat match goal with H : Ascii.eqb c _ = false |- _ => rewrite ?H; clear H end.
  by rewrite Hd.
Qed.

(** The rendering of a boolean, an array or an object is no empty text and
    starts with no byte of a number. *)
Lemma not_numeric_text v :
  not_numeric v →
  ∃ c rest, fmt.Sprintf_v v = String c rest ∧ no_number_start c = true
            ∧ String c rest ≠ "<nil>".
Proof.
  destruct v as [|[]| | |l|m]; try done; intros _.
  - by exists "t"%char, "rue".
  - by exists "f"%char, "alse".
  - eexists "["%char, _. simpl. rewrite append_cons, append_nil_l. done.
  - eexists "m"%char, _. simpl. rewrite append_cons. done.
Qed.

Lemma rejected_text v :
  not_numeric v ∨ (starts_no_number (fmt.Sprintf_v v) ∧ fmt.Sprintf_v v ≠ "<nil>") →
  ∃ c rest, fmt.Sprintf_v v = String c rest ∧ no_number_start c = true
            ∧ String c rest ≠ "<nil>".
Proof.
  intros [Hv|[Hs Hnil]]; [by apply not_numeric_text|].
  destruct (fmt.Sprintf_v v) as [|c rest]; [done|]. by exists c, rest.
Qed.

Lemma numeric_text_rejected fields k v :
  fields !! k = Some v →
  not_numeric v ∨ (starts_no_number (fmt.Sprintf_v v) ∧ fmt.Sprintf_v v ≠ "<nil>") →
  numeric_text fields k = fmt.Sprintf_v v.
Proof.
  intros Hk (c & rest & Ht & _ & Hnil)%rejected_text.
  unfold numeric_text, field. rewrite Hk. simpl default. rewrite Ht.
  simpl String.length. simpl Nat.eqb.
  destruct (String.eqb_spec (String c rest) "<nil>"); done.
Qed.

(** The text ["<nil>"] is read as ["0"], wherever it comes from. *)
Lemma numeric_text_nil fields k :
  fmt.Sprintf_v (field fields k) = "<nil>" → numeric_text fields k = "0".
Proof. unfold numeric_text. by intros ->. Qed.

(** X4.  A numeric field never decodes from a JSON boolean, array or
    object, nor from a string other than ["<nil>"] that starts with a byte
    with which no number starts (a space, a letter other than [i] and [n],
    ...): the parser of the field rejects the rendering of the value with a
    syntax error, so the decode ends in an error.  The string ["<nil>"]
    starts with such a byte too, but it is read like [null], as ["0"]: the
    field raises no error and decodes to zero.  So it is for either width
    [intSize] of [int]. *)
Theorem numeric_field_of_wrong_type
    (intSize : Z) (s : Server.t) (fields : gmap string value) (k : string)
    (is_float : bool) (proj : Server.t → number) (v : value) :
  intSize = 32%Z ∨ intSize = 64%Z →
  (k, is_float, proj) ∈ numeric_table →
  fields !! k = Some v →
  (not_numeric v ∨ (starts_no_number (fmt.Sprintf_v v) ∧ fmt.Sprintf_v v ≠ "<nil>") →
   coercion_error fields (k, is_float)
   = Some (NumError (if is_float then "ParseFloat" else "ParseInt")
                    (fmt.Sprintf_v v) ErrSyntax)
   ∧ is_Some (snd (UnmarshalJSON_fields_on intSize s fields)))
  ∧ (v = VString "<nil>" →
     starts_no_number (fmt.Sprintf_v v)
     ∧ coercion_error fields (k, is_float) = None
     ∧ (∀ s' : Server.t,
          UnmarshalJSON_fields_on intSize s fields = (s', None) →
          proj s' = number_zero is_float)).
Proof.
  intros Hsize Hin Hk. split.
  - intros Hv.
    assert (Herr : coercion_error fields (k, is_float)
                   = Some (NumError (if is_float then "ParseFloat" else "ParseInt")
                                    (fmt.Sprintf_v v) ErrSyntax)).
    { unfold coercion_error. simpl fst. simpl snd.
      rewrite (numeric_text_rejected fields k v Hk Hv).
      destruct (rejected_text v Hv) as (c & rest & -> & Hc & _).
      destruct is_float.
      - by rewrite ParseFloat_no_number.
      - by rewrite ParseInt_no_number. }
    split; [done|].
    rewrite UnmarshalJSON_fields_on_error.
    apply first_error_is_Some
      with (err := NumError (if is_float then "ParseFloat" else "ParseInt")
                            (fmt.Sprintf_v v) ErrSyntax).
    rewrite <- Herr. apply list_elem_of_fmap. exists (k, is_float).
    split; [done|]. by eapply numeric_table_fields.
  - intros ->.
    assert (Ht : numeric_text fields k = "0").
    { apply numeric_text_nil. unfold field. by rewrite Hk. }
    split; [reflexivity|]. split.
    + unfold coercion_error. simpl. rewrite Ht. by destruct is_float.
    + intros s' Hok. destruct (decoded_number_on _ _ _ _ _ _ _ Hin Hok) as [_ ->].
      rewrite Ht, parse_number_zero.
      destruct is_float; [done|]. simpl. f_equal. by apply int_of_int64_small.
Qed.

Lemma numeric_field_of_wrong_type_witness :
  (coercion_error (<["pending_charges" := VSlice [VBool true; VNil]]> ∅)
                  ("pending_charges", true)
   = Some (NumError "ParseFloat" "[true <nil>]" ErrSyntax)
   ∧ is_Some (snd (UnmarshalJSON_fields_on 64 Server.zero
                     (<["pending_charges" := VSlice [VBool true; VNil]]> ∅))))
  ∧ (coercion_error (<["DCID" := VString " 7"]> ∅) ("DCID", false)
     = Some (NumError "ParseInt" " 7" ErrSyntax)
     ∧ is_Some (snd (UnmarshalJSON_fields_on 32 Server.zero (<["DCID" := VString " 7"]> ∅))))
  ∧ (starts_no_number "<nil>"
     ∧ coercion_error (<["DCID" := VString "<nil>"]> ∅) ("DCID", false) = None
     ∧ (∀ s' : Server.t,
          UnmarshalJSON_fields_on 32 (Server.set_RegionID 7 Server.zero)
            (<["DCID" := VString "<nil>"]> ∅) = (s', None) →
          Int (Server.RegionID s') = Int 0))
  ∧ snd (UnmarshalJSON_fields_on 32 (Server.set_RegionID 7 Server.zero)
           (<["DCID" := VString "<nil>"]> ∅)) = None.
Proof.
  split; [|split; [|split]].
  - apply (numeric_field_of_wrong_type 64 Server.zero
             (<["pending_charges" := VSlice [VBool true; VNil]]> ∅)
             "pending_charges" true (λ s, Float (Server.PendingCharges s))
             (VSlice [VBool true; VNil])).
    + right. reflexivity.
    + do 3 apply list_elem_of_further. apply list_elem_of_here.
    + reflexivity.
    + left. exact I.
  - apply (numeric_field_of_wrong_type 32 Server.zero (<["DCID" := VString " 7"]> ∅)
             "DCID" false (λ s, Int (Server.RegionID s)) (VString " 7")).
    + left. reflexivity.
    + apply list_elem_of_further. apply list_elem_of_here.
    + reflexivity.
    + right. split; [reflexivity|discriminate].
  - apply (numeric_field_of_wrong_type 32 (Server.set_RegionID 7 Server.zero)
             (<["DCID" := VString "<nil>"]> ∅)
             "DCID" false (λ s, Int (Server.RegionID s)) (VString "<nil>")).
    + left. reflexivity.
    + apply list_elem_of_further. apply list_elem_of_here.
    + reflexivity.
    + reflexivity.
  - vm_compute. reflexivity.
Defined.

(** * Which numbers and texts the numeric fields take *)

(** ** From the parsers to the fields *)

Lemma coercion_error_fails s fields kf err :
  kf ∈ numeric_fields → coercion_error fields kf = Some err →
  is_Some (snd (UnmarshalJSON_fields s fields)).
Proof.
  intros Hin Herr. rewrite UnmarshalJSON_fields_error.
  apply first_error_is_Some with (err := err).
  rewrite <- Herr. apply list_elem_of_fmap. by exists kf.
Qed.

Lemma decoded_number s fields s' k is_float proj :
  (k, is_float, proj) ∈ numeric_table →
  UnmarshalJSON_fields s fields = (s', None) →
  parse_number is_float (numeric_text fields k) = (proj s', None).
Proof.
  intros Hin Hok. apply decoded_numbers in Hok.
  rewrite Forall_forall in Hok. exact (Hok _ Hin).
Qed.

Lemma numeric_text_text fields k t :
  fields !! k = Some (VString t) → t ≠ "" → t ≠ "<nil>" → numeric_text fields k = t.
Proof.
  intros Hk Hne Hnil. unfold numeric_text, field. rewrite Hk.
  change (fmt.Sprintf_v (default VNil (Some (VString t)))) with t.
  destruct t as [|c t]; [done|]. simpl String.length. simpl Nat.eqb.
  by destruct (String.eqb_spec (String c t) "<nil>").
Qed.

Lemma signed_text_not_empty sgn d rest :
  sgn ∈ [""; "+"; "-"] → is_decimal_digit d →
  sgn +:+ String (strconv.digit_char d) rest ≠ ""
  ∧ sgn +:+ String (strconv.digit_char d) rest ≠ "<nil>".
Proof.
  intros Hsgn Hd.
  apply elem_of_cons in Hsgn as [->|Hsgn]; [|apply elem_of_cons in Hsgn as [->|Hsgn];
    [|apply list_elem_of_singleton in Hsgn as ->]].
  - rewrite append_nil_l. split; [done|]. intros H. inversion H as [[Hc Hr]].
    pose proof (digit_char_not_special d "<" Hd eq_refl) as Hneq.
    rewrite Hc in Hneq. discriminate Hneq.
  - rewrite append_cons. split; done.
  - rewrite append_cons. split; done.
Qed.

(** X5.  A [float64] field takes every JSON number: the parse of its
    rendering never fails, and the field of a decoded entity is the number
    on the wire, bit for bit. *)
Theorem float_field_of_number
    (s : Server.t) (fields : gmap string value) (k : string)
    (proj : Server.t → number) (f : spec_float) :
  (k, true, proj) ∈ numeric_table →
  valid_float f → fields !! k = Some (VFloat f) →
  coercion_error fields (k, true) = None
  ∧ (∀ s' : Server.t, UnmarshalJSON_fields s fields = (s', None) → proj s' = Float f).
Proof.
  intros Hin Hf Hk.
  pose proof (numeric_text_float fields k f Hf Hk) as Ht.
  pose proof (ParseFloat_FormatFloat f Hf) as Hrt.
  split.
  - unfold coercion_error. simpl. by rewrite Ht, Hrt.
  - intros s' Hok. pose proof (decoded_number _ _ _ _ _ _ Hin Hok) as Hn.
    unfold parse_number in Hn. rewrite Ht, Hrt in Hn. simpl in Hn. by inversion Hn.
Qed.

Lemma float_field_of_number_witness :
  let f := fst (strconv.ParseFloat "12.34") in
  coercion_error (<["pending_charges" := VFloat f]> ∅) ("pending_charges", true) = None
  ∧ (∀ s' : Server.t,
       UnmarshalJSON_fields Server.zero (<["pending_charges" := VFloat f]> ∅) = (s', None) →
       Float (Server.PendingCharges s') = Float f).
Proof.
  intros f.
  apply (float_field_of_number Server.zero (<["pending_charges" := VFloat f]> ∅)
           "pending_charges" (λ s, Float (Server.PendingCharges s)) f).
  - do 3 apply list_elem_of_further. apply list_elem_of_here.
  - exact (ParseFloat_valid "12.34").
  - reflexivity.
Defined.

(** X6.  An [int] field that holds a text of decimal digits with an
    optional sign, writing the number [n]: when [n] is no [int64] the
    field is rejected with a range error of [ParseInt], for either width
    [intSize] of [int].  When [n] is an [int64] the field raises no error
    and stores [int(n)]: that is [n] exactly when [n] fits [intSize] bits,
    so always where [int] has 64 bits, while a 32-bit [int] stores the low
    32 bits of a larger [n]. *)
Theorem integer_field_of_decimal_text
    (intSize : Z) (s : Server.t) (fields : gmap string value) (k : string)
    (proj : Server.t → number) (sgn : string) (d : Z) (ds : list Z) :
  intSize = 32%Z ∨ intSize = 64%Z →
  (k, false, proj) ∈ numeric_table →
  sgn ∈ [""; "+"; "-"] → Forall is_decimal_digit (d :: ds) →
  fields !! k = Some (VString (sgn +:+ strconv.string_of_digits (d :: ds))) →
  (int64 (signed sgn (undigits (d :: ds))) →
   coercion_error fields (k, false) = None
   ∧ (∀ s' : Server.t,
        UnmarshalJSON_fields_on intSize s fields = (s', None) →
        proj s' = Int (int_of_int64 intSize (signed sgn (undigits (d :: ds)))))
   ∧ (int_of_int64 intSize (signed sgn (undigits (d :: ds))) = signed sgn (undigits (d :: ds))
      ↔ (- 2 ^ (intSize - 1) ≤ signed sgn (undigits (d :: ds)) < 2 ^ (intSize - 1))%Z)
   ∧ (intSize = 64%Z →
      int_of_int64 intSize (signed sgn (undigits (d :: ds))) = signed sgn (undigits (d :: ds))))
  ∧ (¬ int64 (signed sgn (undigits (d :: ds))) →
     coercion_error fields (k, false)
     = Some (NumError "ParseInt" (sgn +:+ strconv.string_of_digits (d :: ds)) ErrRange)
     ∧ is_Some (snd (UnmarshalJSON_fields_on intSize s fields))).
Proof.
  intros Hsize Hin Hsgn Hall Hk.
  assert (Ht : numeric_text fields k = sgn +:+ strconv.string_of_digits (d :: ds)).
  { apply numeric_text_text; [done| |]; rewrite string_of_digits_cons;
      apply signed_text_not_empty; try done; by apply Forall_cons in Hall as [? _]. }
  pose proof (ParseInt_decimal sgn d ds Hsgn Hall) as Hp.
  split; intros Hrange.
  - rewrite bool_decide_eq_true_2 in Hp by done. split; [|split; [|split]].
    + unfold coercion_error. simpl. by rewrite Ht, Hp.
    + intros s' Hok. destruct (decoded_number_on _ _ _ _ _ _ _ Hin Hok) as [_ ->].
      unfold parse_number. by rewrite Ht, Hp.
    + apply int_of_int64_fits. destruct Hsize as [->| ->]; done.
    + intros ->. by apply int_of_int64_64.
  - rewrite bool_decide_eq_false_2 in Hp by done.
    assert (Herr : coercion_error fields (k, false)
                   = Some (NumError "ParseInt"
                             (sgn +:+ strconv.string_of_digits (d :: ds)) ErrRange)).
    { unfold coercion_error. simpl. by rewrite Ht, Hp. }
    split; [done|].
    rewrite UnmarshalJSON_fields_on_error.
    apply first_error_is_Some
      with (err := NumError "ParseInt" (sgn +:+ strconv.string_of_digits (d :: ds)) ErrRange).
    rewrite <- Herr. apply list_elem_of_fmap. exists (k, false).
    split; [done|]. by eapply numeric_table_fields.
Qed.

(** The text ["4294967297"], which writes [2^32 + 1], in [DCID] on a
    target with a 32-bit [int]: the field ends as 1. *)
Lemma integer_field_of_decimal_text_witness :
  let n : Z := signed "" (undigits [4; 2; 9; 4; 9; 6; 7; 2; 9; 7]%Z) in
  let fields : gmap string value := <["DCID" := VString "4294967297"]> ∅ in
  n = (2 ^ 32 + 1)%Z
  ∧ snd (UnmarshalJSON_fields_on 32 Server.zero fields) = None
  ∧ Server.RegionID (fst (UnmarshalJSON_fields_on 32 Server.zero fields)) = 1%Z
  ∧ Server.RegionID (fst (UnmarshalJSON_fields_on 64 Server.zero fields)) = (2 ^ 32 + 1)%Z
  ∧ (int64 n →
     coercion_error fields ("DCID", false) = None
     ∧ (∀ s' : Server.t,
          UnmarshalJSON_fields_on 32 Server.zero fields = (s', None) →
          Int (Server.RegionID s') = Int (int_of_int64 32 n))
     ∧ (int_of_int64 32 n = n ↔ (- 2 ^ (32 - 1) ≤ n < 2 ^ (32 - 1))%Z)
     ∧ (32%Z = 64%Z → int_of_int64 32 n = n))
  ∧ (¬ int64 n →
     coercion_error fields ("DCID", false)
     = Some (NumError "ParseInt" "4294967297" ErrRange)
     ∧ is_Some (snd (UnmarshalJSON_fields_on 32 Server.zero fields))).
Proof.
  intros n fields.
  split; [reflexivity|]. split; [vm_compute; reflexivity|].
  split; [vm_compute; reflexivity|]. split; [vm_compute; reflexivity|].
  apply (integer_field_of_decimal_text 32 Server.zero fields
           "DCID" (λ s, Int (Server.RegionID s)) "" 4%Z [2; 9; 4; 9; 6; 7; 2; 9; 7]%Z).
  - left. reflexivity.
  - apply list_elem_of_further. apply list_elem_of_here.
  - apply list_elem_of_here.
  - repeat constructor; unfold is_decimal_digit; lia.
  - reflexivity.
Defined.

(** X7.  An [int] field that holds a JSON number decodes exactly when the
    number is an integer of magnitude below [10^6], and then to that
    integer: the number is rendered as a float before [ParseInt] reads it,
    and every other number renders with a fraction or an exponent. *)
Theorem integer_field_of_number
    (s : Server.t) (fields : gmap string value) (k : string)
    (proj : Server.t → number) (f : spec_float) :
  (k, false, proj) ∈ numeric_table →
  valid_float f → fields !! k = Some (VFloat f) →
  (coercion_error fields (k, false) = None
   ↔ ∃ (neg : bool) (a : Z), (0 ≤ a < 10 ^ 6)%Z ∧ f = integer_float neg a)
  ∧ (∀ (neg : bool) (a : Z) (s' : Server.t),
       (0 ≤ a < 10 ^ 6)%Z → f = integer_float neg a →
       UnmarshalJSON_fields s fields = (s', None) →
       proj s' = Int (if neg then (- a)%Z else a)).
Proof.
  intros Hin Hf Hk.
  pose proof (numeric_text_float fields k f Hf Hk) as Ht.
  split; [split|].
  - unfold coercion_error. simpl. rewrite Ht.
    destruct (strconv.ParseInt (strconv.FormatFloat f)) as [n o] eqn:Hp. simpl.
    intros ->. apply ParseInt_FormatFloat_inv in Hp as (neg & a & Ha & Heq & _); [|done].
    by exists neg, a.
  - intros (neg & a & Ha & ->). unfold coercion_error. simpl. rewrite Ht.
    by rewrite ParseInt_FormatFloat_integer.
  - intros neg a s' Ha -> Hok.
    pose proof (decoded_number _ _ _ _ _ _ Hin Hok) as Hn.
    unfold parse_number in Hn. rewrite Ht, ParseInt_FormatFloat_integer in Hn by done.
    simpl in Hn. by inversion Hn.
Qed.

Lemma integer_field_of_number_witness :
  json_number "4" = VFloat (integer_float false 4)
  ∧ (coercion_error (<["vcpu_count" := json_number "4"]> ∅) ("vcpu_count", false) = None
     ↔ ∃ (neg : bool) (a : Z),
         (0 ≤ a < 10 ^ 6)%Z ∧ fst (strconv.ParseFloat "4") = integer_float neg a)
  ∧ (∀ (neg : bool) (a : Z) (s' : Server.t),
       (0 ≤ a < 10 ^ 6)%Z → fst (strconv.ParseFloat "4") = integer_float neg a →
       UnmarshalJSON_fields Server.zero (<["vcpu_count" := json_number "4"]> ∅) = (s', None) →
       Int (Server.VCpus s') = Int (if neg then (- a)%Z else a)).
Proof.
  split; [vm_compute; reflexivity|].
  apply (integer_field_of_number Server.zero (<["vcpu_count" := json_number "4"]> ∅)
           "vcpu_count" (λ s, Int (Server.VCpus s)) (fst (strconv.ParseFloat "4"))).
  - apply list_elem_of_here.
  - exact (ParseFloat_valid "4").
  - reflexivity.
Defined.

(** ** JSON numbers in the text fields *)

Lemma decoded_text s fields s' (kp : string * (Server.t → string)) :
  kp ∈ text_fields → UnmarshalJSON_fields s fields = (s', None) →
  snd kp s' = fmt.Sprintf_v (field fields (fst kp)).
Proof.
  intros Hin Hok.
  apply UnmarshalJSON_fields_ok in Hok
    as (vcpu & region & plan & pc & cb & ab & _ & _ & _ & _ & _ & _ & ->).
  unfold text_fields in Hin.
  repeat (apply elem_of_cons in Hin as [->|Hin]; [reflexivity|]).
  by apply elem_of_nil in Hin.
Qed.

(** X8.  A text field that holds a JSON number which is an integer from 0
    to [2^53] is the decimal text of the integer exactly when the integer
    is below [10^6]: from 1000000 on, the field gets the rendering of a
    float with an exponent, so an identifier sent as the number 12345678
    is not decoded to the text 12345678. *)
Theorem text_field_of_integer_number
    (s s' : Server.t) (fields : gmap string value)
    (kp : string * (Server.t → string)) (a : Z) :
  kp ∈ text_fields → (0 ≤ a < 2 ^ 53)%Z →
  fields !! fst kp = Some (VFloat (integer_float false a)) →
  UnmarshalJSON_fields s fields = (s', None) →
  snd kp s' = fmt.Sprintf_int a ↔ (a < 10 ^ 6)%Z.
Proof.
  intros Hin Ha Hk Hok. rewrite (decoded_text s fields s' kp Hin Hok).
  unfold field. rewrite Hk. simpl. unfold fmt.Sprintf_int. split.
  - intros Heq.
    assert (Hint : int64 a).
    { unfold int64. assert (2 ^ 53 < 2 ^ 63)%Z by done. lia. }
    pose proof (ParseInt_FormatInt a Hint) as Hp. rewrite <- Heq in Hp.
    apply ParseInt_FormatFloat_inv in Hp as (neg & a' & Ha' & Hf & Hn).
    + destruct neg; lia.
    + unfold integer_float. apply round_float_valid. lia.
  - intros Hlt. destruct (Z.eq_dec a 0%Z) as [->|Hne]; [vm_compute; reflexivity|].
    rewrite FormatFloat_integer by lia. unfold strconv.FormatInt.
    rewrite (proj2 (Z.eqb_neq a 0%Z)) by done.
    rewrite (proj2 (Z.ltb_ge a 0%Z)) by lia. by rewrite Z.abs_eq by lia.
Qed.

Lemma text_field_of_integer_number_witness :
  let fields : gmap string value := <["SUBID" := json_number "12345678"]> ∅ in
  json_number "12345678" = VFloat (integer_float false 12345678)
  ∧ Server.ID (fst (UnmarshalJSON_fields Server.zero fields)) = "1.2345678e+07"
  ∧ (Server.ID (fst (UnmarshalJSON_fields Server.zero fields)) = fmt.Sprintf_int 12345678
     ↔ (12345678 < 10 ^ 6)%Z).
Proof.
  intros fields. split; [vm_compute; reflexivity|]. split; [vm_compute; reflexivity|].
  apply (text_field_of_integer_number Server.zero
           (fst (UnmarshalJSON_fields Server.zero fields)) fields ("SUBID", Server.ID)
           12345678).
  - apply list_elem_of_here.
  - assert (12345678 < 2 ^ 53)%Z by done. lia.
  - vm_compute. reflexivity.
  - vm_compute. reflexivity.
Defined.

(** X9.  A text field loses nothing of a JSON number: the text it gets is
    one that [ParseFloat] reads back to the number on the wire, bit for
    bit. *)
Theorem text_field_of_number_reads_back
    (s s' : Server.t) (fields : gmap string value)
    (kp : string * (Server.t → string)) (f : spec_float) :
  kp ∈ text_fields → valid_float f →
  fields !! fst kp = Some (VFloat f) →
  UnmarshalJSON_fields s fields = (s', None) →
  strconv.ParseFloat (snd kp s') = (f, None).
Proof.
  intros Hin Hf Hk Hok. rewrite (decoded_text s fields s' kp Hin Hok).
  unfold field. rewrite Hk. simpl. by apply ParseFloat_FormatFloat.
Qed.

Lemma text_field_of_number_reads_back_witness :
  let fields : gmap string value := <["cost_per_month" := json_number "5.10"]> ∅ in
  Server.Cost (fst (UnmarshalJSON_fields Server.zero fields)) = "5.1"
  ∧ strconv.ParseFloat (Server.Cost (fst (UnmarshalJSON_fields Server.zero fields)))
    = (fst (strconv.ParseFloat "5.10"), None).
Proof.
  intros fields. split; [vm_compute; reflexivity|].
  apply (text_field_of_number_reads_back Server.zero
           (fst (UnmarshalJSON_fields Server.zero fields)) fields
           ("cost_per_month", Server.Cost) (fst (strconv.ParseFloat "5.10"))).
  - do 10 apply list_elem_of_further. apply list_elem_of_here.
  - exact (ParseFloat_valid "5.10").
  - reflexivity.
  - vm_compute. reflexivity.
Defined.

(** * The bandwidth join on every input *)

Section JoinFacts.
Import Bandwidth.

Lemma parse_incoming_take incoming : ∀ acc,
  parse_incoming (take 2 <$> incoming) acc = parse_incoming incoming acc.
Proof.
  induction incoming as [|b rest IH]; intros acc; [done|].
  simpl. unfold index.
  assert (H0 : take 2 b !! 0%nat = b !! 0%nat) by (by destruct b).
  assert (H1 : take 2 b !! 1%nat = b !! 1%nat) by (by destruct b as [|? [|? ?]]).
  rewrite H0, H1. destruct (b !! 0%nat); [|done]. destruct (b !! 1%nat); [|done].
  simpl. apply IH.
Qed.

Lemma patch_take b recs : patch (take 2 b) recs = patch b recs.
Proof.
  assert (H0 : take 2 b !! 0%nat = b !! 0%nat) by (by destruct b).
  assert (H1 : take 2 b !! 1%nat = b !! 1%nat) by (by destruct b as [|? [|? ?]]).
  induction recs as [|r rest IH]; [done|].
  simpl. unfold index. rewrite H0, H1, IH. done.
Qed.

Lemma parse_outgoing_take outgoing : ∀ recs,
  parse_outgoing (take 2 <$> outgoing) recs = parse_outgoing outgoing recs.
Proof.
  induction outgoing as [|b rest IH]; intros recs; [done|].
  simpl. rewrite patch_take. destruct (patch b recs); [|done]. simpl. apply IH.
Qed.

Lemma parse_outgoing_nil outgoing : parse_outgoing outgoing [] = Some [].
Proof. induction outgoing as [|b rest IH]; [done|]. simpl. exact IH. Qed.

(** [patch] changes a record at the key [outgoing] only. *)
Lemma patch_frame b recs recs' :
  patch b recs = Some recs' →
  Forall2 (λ r' r : gmap string string, ∀ k, k ≠ "outgoing" → r' !! k = r !! k) recs' recs.
Proof.
  revert recs'. induction recs as [|r rest IH]; intros recs' H; simpl in H.
  - inversion H. constructor.
  - unfold index in H. destruct (b !! 0%nat) as [d|]; [|done]. simpl in H.
    case_decide.
    + destruct (b !! 1%nat) as [v|]; [|done]. inversion H; subst.
      constructor; [|apply Forall_Forall2_diag, Forall_forall; done].
      intros k Hk. by rewrite lookup_insert_ne.
    + destruct (patch b rest) as [rest'|]; [|done]. inversion H; subst.
      constructor; [done|]. by apply IH.
Qed.

Lemma parse_outgoing_frame outgoing : ∀ recs recs',
  parse_outgoing outgoing recs = Some recs' →
  Forall2 (λ r' r : gmap string string, ∀ k, k ≠ "outgoing" → r' !! k = r !! k) recs' recs.
Proof.
  induction outgoing as [|b rest IH]; intros recs recs' H; simpl in H.
  - inversion H; subst. apply Forall_Forall2_diag, Forall_forall; done.
  - destruct (patch b recs) as [recs1|] eqn:Hp; [|done]. simpl in H.
    apply IH in H. apply patch_frame in Hp.
    eapply Forall2_trans; [|exact H|exact Hp].
    intros r2 r1 r0 H21 H10 k Hk. rewrite H21, H10; done.
Qed.

Lemma well_formed_is_Some (b : list string) : well_formed b ↔ is_Some (b !! 1%nat).
Proof. unfold well_formed. rewrite lookup_lt_is_Some. lia. Qed.

(** When the inner loop gets through: with no record at all, or with an
    entry that has a date, and a value if a record has that date. *)
Lemma patch_is_Some b recs :
  Forall is_Some (record_dates recs) →
  is_Some (patch b recs)
  ↔ recs = [] ∨ ∃ d, b !! 0%nat = Some d
                     ∧ (Some d ∈ record_dates recs → is_Some (b !! 1%nat)).
Proof.
  induction recs as [|r rest IH]; intros Hall.
  - simpl. split; [by left|eauto].
  - simpl in Hall. apply Forall_cons in Hall as [[dr Hdr] Hall]. specialize (IH Hall).
    assert (Hget : get r "date" = dr) by (unfold get; by rewrite Hdr).
    simpl. unfold index. rewrite Hget, Hdr.
    destruct (b !! 0%nat) as [d|]; simpl.
    2: { split; [by intros [? ?]|]. intros [?|(d & ? & _)]; done. }
    destruct (decide (dr = d)) as [->|Hne].
    + split.
      * intros Hs. right. exists d. split; [done|]. intros _.
        destruct (b !! 1%nat); [eauto|]. by destruct Hs.
      * intros [?|(d' & Hd' & Hv)]; [done|]. injection Hd' as <-.
        destruct Hv as [v ->]; [left|]. simpl. eauto.
    + split.
      * intros Hs.
        assert (Hp : is_Some (patch b rest)).
        { destruct (patch b rest); [eauto|by destruct Hs]. }
        right. exists d. split; [done|]. intros Hin.
        apply elem_of_cons in Hin as [Hin|Hin]; [congruence|].
        apply IH in Hp as [->|(d' & Hd' & Hv)]; [by apply elem_of_nil in Hin|].
        injection Hd' as <-. by apply Hv.
      * intros [?|(d' & Hd' & Hv)]; [done|]. injection Hd' as <-.
        assert (Hp : is_Some (patch b rest)).
        { apply IH. right. exists d. split; [done|]. intros Hin. apply Hv. by right. }
        destruct Hp as [rest' ->]. simpl. eauto.
Qed.

Lemma parse_outgoing_is_Some outgoing : ∀ recs,
  Forall is_Some (record_dates recs) →
  is_Some (parse_outgoing outgoing recs)
  ↔ recs = [] ∨ Forall (λ b : list string,
                          ∃ d, b !! 0%nat = Some d
                               ∧ (Some d ∈ record_dates recs → is_Some (b !! 1%nat)))
                       outgoing.
Proof.
  induction outgoing as [|b rest IH]; intros recs Hall.
  - simpl. split; [intros _; right; constructor|eauto].
  - destruct recs as [|r0 recs0].
    { rewrite parse_outgoing_nil. split; [by left|eauto]. }
    assert (Hne : r0 :: recs0 ≠ []) by done.
    revert Hne Hall. generalize (r0 :: recs0). clear r0 recs0. intros recs Hne Hall.
    simpl parse_outgoing. split.
    + intros Hs. destruct (patch b recs) as [recs1|] eqn:Hp; [|simpl in Hs; by destruct Hs].
      simpl in Hs. pose proof (patch_dates _ _ _ Hp) as Hdates.
      right. constructor.
      * assert (Hb : is_Some (patch b recs)) by (rewrite Hp; eauto).
        apply patch_is_Some in Hb as [?|Hb]; done.
      * apply IH in Hs as [->|Hs]; [| |by rewrite Hdates].
        -- apply record_dates_length in Hdates. by destruct recs.
        -- by rewrite Hdates in Hs.
    + intros [?|Hf]; [done|]. apply Forall_cons in Hf as [Hb Hf].
      assert (Hp : is_Some (patch b recs)) by (apply patch_is_Some; eauto).
      destruct Hp as [recs1 Hp]. rewrite Hp. simpl.
      pose proof (patch_dates _ _ _ Hp) as Hdates.
      apply IH; [by rewrite Hdates|]. right. by rewrite Hdates.
Qed.

End JoinFacts.

Lemma incoming_records_have_dates (recs : list (gmap string string)) incoming :
  Forall2 (λ (r : gmap string string) (b : list string),
             ∃ d v, b !! 0%nat = Some d ∧ b !! 1%nat = Some v ∧ r = incoming_record d v)
          recs incoming →
  Forall is_Some (record_dates recs) ∧ Forall well_formed incoming.
Proof.
  induction 1 as [|r b recs incoming (d & v & Hd & Hv & ->) _ [IH1 IH2]].
  - split; constructor.
  - split; constructor; try done. apply well_formed_is_Some. eauto.
Qed.

(** X10.  The join panics, by an index out of range, exactly when an
    incoming entry has fewer than two elements or, with at least one
    incoming entry, an outgoing entry is empty or has a single element that
    is the date of a record: an outgoing entry of one element whose date no
    record carries passes, and so does any outgoing series when there is no
    incoming entry. *)
Theorem join_gets_through_iff (incoming outgoing : list (list string)) :
  is_Some (Bandwidth.join incoming outgoing)
  ↔ Forall well_formed incoming
    ∧ (incoming = [] ∨ Forall (readable incoming) outgoing).
Proof.
  unfold Bandwidth.join. split.
  - intros Hs.
    destruct (Bandwidth.parse_incoming incoming []) as [recs|] eqn:Hin;
      [|simpl in Hs; by destruct Hs].
    simpl in Hs. apply parse_incoming_spec in Hin as (recs' & Heq & Hrecs).
    simpl in Heq. subst recs'.
    pose proof (incoming_records_dates _ _ Hrecs) as Hdates.
    destruct (incoming_records_have_dates _ _ Hrecs) as [Hsome Hwf].
    split; [done|].
    apply parse_outgoing_is_Some in Hs as [->|Hs]; [| |done].
    + left. apply Forall2_length in Hrecs. by destruct incoming.
    + right. eapply Forall_impl; [exact Hs|]. intros b (d & Hd & Hv).
      exists d. split; [done|]. rewrite <- Hdates. intros Hin.
      by apply well_formed_is_Some, Hv.
  - intros [Hwf Hout]. rewrite (parse_incoming_well_formed incoming [] Hwf). simpl.
    pose proof (parse_incoming_well_formed incoming [] Hwf) as Hin.
    apply parse_incoming_spec in Hin as (recs' & Heq & Hrecs). simpl in Heq. subst recs'.
    pose proof (incoming_records_dates _ _ Hrecs) as Hdates.
    destruct (incoming_records_have_dates _ _ Hrecs) as [Hsome _].
    apply parse_outgoing_is_Some; [done|].
    destruct Hout as [->|Hout]; [by left|]. right.
    eapply Forall_impl; [exact Hout|]. intros b (d & Hd & Hv).
    exists d. split; [done|]. rewrite Hdates. intros Hin.
    by apply well_formed_is_Some, Hv.
Qed.

(** X11.  Whatever the two series hold, a join that gets through returns one
    record per incoming entry, in the order of the incoming series, with
    the date and the value of that entry; no record has a key besides
    [date], [incoming] and [outgoing]. *)
Theorem join_keeps_incoming
    (incoming outgoing : list (list string)) (result : list (gmap string string)) :
  Bandwidth.join incoming outgoing = Some result →
  Forall2 (λ (r : gmap string string) (a : list string),
             is_Some (a !! 0%nat) ∧ r !! "date" = a !! 0%nat
             ∧ is_Some (a !! 1%nat) ∧ r !! "incoming" = a !! 1%nat
             ∧ ∀ k : string, k ∉ record_keys → r !! k = None)
          result incoming.
Proof.
  unfold Bandwidth.join. intros H.
  destruct (Bandwidth.parse_incoming incoming []) as [recs|] eqn:Hin; [|done].
  simpl in H. apply parse_incoming_spec in Hin as (recs' & Heq & Hrecs).
  simpl in Heq. subst recs'. apply parse_outgoing_frame in H.
  eapply Forall2_trans; [|exact H|exact Hrecs].
  intros r' r a Hframe (d & v & Hd & Hv & ->).
  rewrite Hd, Hv. split; [eauto|]. split.
  { rewrite Hframe by done. unfold incoming_record.
    by rewrite lookup_insert_ne, lookup_insert_eq. }
  split; [eauto|]. split.
  { rewrite Hframe by done. unfold incoming_record. by rewrite lookup_insert_eq. }
  intros k Hk. unfold record_keys in Hk.
  rewrite Hframe by (intros ->; apply Hk; do 2 apply list_elem_of_further; apply list_elem_of_here).
  unfold incoming_record. rewrite !lookup_insert_ne; [done| |].
  - intros <-. apply Hk. apply list_elem_of_here.
  - intros <-. apply Hk. apply list_elem_of_further, list_elem_of_here.
Qed.

Lemma join_keeps_incoming_witness :
  Forall2 (λ (r : gmap string string) (a : list string),
             is_Some (a !! 0%nat) ∧ r !! "date" = a !! 0%nat
             ∧ is_Some (a !! 1%nat) ∧ r !! "incoming" = a !! 1%nat
             ∧ ∀ k : string, k ∉ record_keys → r !! k = None)
          [<["outgoing" := "7"]> (incoming_record "d1" "1"); incoming_record "d2" "2"]
          [["d1"; "1"]; ["d2"; "2"; "x"]].
Proof.
  apply (join_keeps_incoming [["d1"; "1"]; ["d2"; "2"; "x"]] [["d3"]; ["d1"; "7"]]).
  vm_compute. reflexivity.
Defined.

(** X12.  The join reads the first two elements of an entry and nothing
    else: cutting every entry of both series to its first two elements
    changes neither the result nor whether the join panics. *)
Theorem join_ignores_further_elements (incoming outgoing : list (list string)) :
  Bandwidth.join (take 2 <$> incoming) (take 2 <$> outgoing)
  = Bandwidth.join incoming outgoing.
Proof.
  unfold Bandwidth.join. rewrite parse_incoming_take.
  destruct (Bandwidth.parse_incoming incoming []) as [recs|]; [|done].
  simpl. apply parse_outgoing_take.
Qed.

(** X13.  [BandwidthOfServer] hands the error of the request on with a nil
    result, and a response without [incoming_bytes], or with an empty one,
    gives an empty result without error, whatever [outgoing_bytes] holds,
    even entries without elements. *)
Theorem BandwidthOfServer_without_incoming
    (c_get : string → error + gmap string (list (list string))) (id : string) :
  (∀ err : error,
     c_get ("server/bandwidth?SUBID=" +:+ id) = inl err →
     Bandwidth.BandwidthOfServer c_get id = Some ([], Some err))
  ∧ (∀ bandwidthMap : gmap string (list (list string)),
       c_get ("server/bandwidth?SUBID=" +:+ id) = inr bandwidthMap →
       bandwidthMap !! "incoming_bytes" = None
       ∨ bandwidthMap !! "incoming_bytes" = Some [] →
       Bandwidth.BandwidthOfServer c_get id = Some ([], None)).
Proof.
  unfold Bandwidth.BandwidthOfServer. split.
  - by intros err ->.
  - intros bandwidthMap -> Hin.
    assert (Hnil : default [] (bandwidthMap !! "incoming_bytes") = [])
      by (by destruct Hin as [-> | ->]).
    rewrite Hnil. unfold Bandwidth.join. simpl. by rewrite parse_outgoing_nil.
Qed.

(** ** The join of well-formed series, with repeated dates *)

Section LastWins.
Import Bandwidth.

Lemma last_value_snoc d (o : list (list string)) b :
  last_value d (o ++ [b])
  = if decide (b !! 0%nat = Some d) then b !! 1%nat else last_value d o.
Proof. unfold last_value. by rewrite fold_left_app. Qed.

Lemma joined_record_date incoming o i a :
  joined_record incoming o i a !! "date" = Some (default "" (a !! 0%nat)).
Proof.
  unfold joined_record, incoming_record. case_decide; [|destruct (last_value _ o)];
    rewrite ?(lookup_insert_ne _ "outgoing") by done;
    by rewrite lookup_insert_ne, lookup_insert_eq.
Qed.

Lemma joined_record_first (incoming : list (list string)) d i :
  (∀ j y, incoming !! j = Some y → (j < i)%nat → y !! 0%nat ≠ Some d) →
  Some d ∉ series_dates (take i incoming).
Proof.
  intros Hmin Hin. unfold series_dates in Hin.
  apply list_elem_of_fmap in Hin as (a' & Ha' & Hin).
  apply elem_of_take in Hin as (j & Hj & Hlt). by apply (Hmin j a' Hj Hlt).
Qed.

(** One more outgoing entry: the records after it are those of the series
    with the entry at its end. *)
Lemma patch_joined incoming o b d v :
  Forall well_formed incoming → b !! 0%nat = Some d → b !! 1%nat = Some v →
  patch b (imap (joined_record incoming o) incoming)
  = Some (imap (joined_record incoming (o ++ [b])) incoming).
Proof.
  intros Hwf Hd Hv.
  assert (Hdate : ∀ j a', incoming !! j = Some a' →
                    a' !! 0%nat = Some (default "" (a' !! 0%nat))).
  { intros j a' Ha'. apply list_elem_of_lookup_2 in Ha'.
    rewrite Forall_forall in Hwf. destruct (well_formed_lookup a' (Hwf _ Ha')) as (d' & ? & -> & _).
    done. }
  destruct (list_find (λ a : list string, a !! 0%nat = Some d) incoming) as [[i a]|] eqn:Hfind.
  - apply list_find_Some in Hfind as (Hi & Ha0 & Hmin).
    assert (Hmin' : ∀ j y, incoming !! j = Some y → (j < i)%nat → y !! 0%nat ≠ Some d)
      by (intros j y Hj Hlt; by apply (Hmin j y)).
    rewrite (patch_first_match b d v _ i (joined_record incoming o i a) Hd Hv).
    + f_equal. apply list_eq. intros j. destruct (decide (j = i)) as [->|Hne].
      * rewrite list_lookup_insert_eq
          by (rewrite length_imap; by apply lookup_lt_Some in Hi).
        rewrite list_lookup_imap, Hi. simpl. f_equal.
        unfold joined_record. rewrite Ha0. simpl default.
        rewrite !(decide_False (P := Some d ∈ series_dates (take i incoming)))
          by by apply joined_record_first.
        rewrite last_value_snoc, decide_True, Hv by done.
        destruct (last_value d o); [by rewrite insert_insert_eq|done].
      * rewrite list_lookup_insert_ne by done. rewrite !list_lookup_imap.
        destruct (incoming !! j) as [a'|] eqn:Ha'; [|done]. simpl. f_equal.
        unfold joined_record. case_decide as Hfirst; [done|].
        rewrite last_value_snoc. case_decide as Hb0; [|done]. exfalso.
        rewrite Hd in Hb0. rewrite <- (Hdate j a' Ha') in Hb0.
        destruct (Nat.lt_total j i) as [Hlt|[?|Hgt]]; [|done|].
        -- by apply (Hmin' j a' Ha' Hlt).
        -- apply Hfirst. rewrite <- (Hdate j a' Ha'), <- Hb0, <- Ha0.
           unfold series_dates. apply list_elem_of_fmap. exists a. split; [done|].
           apply elem_of_take. eauto.
    + by rewrite list_lookup_imap, Hi.
    + unfold get. rewrite joined_record_date. simpl. rewrite Ha0. done.
    + intros j r' Hlt Hr'. rewrite list_lookup_imap in Hr'.
      destruct (incoming !! j) as [a'|] eqn:Ha'; [|done]. simpl in Hr'.
      inversion Hr'; subst r'. unfold get. rewrite joined_record_date. simpl.
      intros Heq. apply (Hmin' j a' Ha' Hlt). rewrite (Hdate j a' Ha'). by rewrite Heq.
  - apply list_find_None in Hfind. rewrite Forall_forall in Hfind.
    rewrite (patch_no_match b d); [|done| |].
    + f_equal. apply imap_ext. intros j a' Ha'. unfold joined_record.
      case_decide; [done|]. rewrite last_value_snoc.
      rewrite decide_False; [done|]. rewrite Hd. intros Heq.
      apply (Hfind a'); [by eapply list_elem_of_lookup_2|].
      rewrite (Hdate j a' Ha'). by rewrite Heq.
    + apply Forall_forall. intros r Hr. apply list_elem_of_lookup_1 in Hr as [j Hr].
      rewrite list_lookup_imap in Hr.
      destruct (incoming !! j) as [a'|] eqn:Ha'; [|done]. simpl in Hr.
      inversion Hr; subst r. rewrite joined_record_date.
      intros Heq. apply (Hfind a'); [by eapply list_elem_of_lookup_2|].
      rewrite (Hdate j a' Ha'). done.
    + intros r Hr. apply list_elem_of_lookup_1 in Hr as [j Hr].
      rewrite list_lookup_imap in Hr.
      destruct (incoming !! j) as [a'|] eqn:Ha'; [|done]. simpl in Hr.
      inversion Hr; subst r. rewrite joined_record_date. eauto.
Qed.

Lemma join_well_formed incoming outgoing :
  Forall well_formed incoming → Forall well_formed outgoing →
  join incoming outgoing = Some (imap (joined_record incoming outgoing) incoming).
Proof.
  intros Hin Hout. unfold join.
  rewrite (parse_incoming_well_formed incoming [] Hin). simpl.
  induction outgoing as [|b o IH] using rev_ind.
  - simpl. f_equal. rewrite <- imap_const. apply imap_ext. intros i a _.
    unfold joined_record, const. by case_decide.
  - apply Forall_app in Hout as [Ho Hb]. rewrite Forall_singleton in Hb.
    rewrite parse_outgoing_app, (IH Ho). simpl.
    destruct (well_formed_lookup b Hb) as (d & v & Hd & Hv).
    by rewrite (patch_joined incoming o b d v Hin Hd Hv).
Qed.

(** Without a repeated date, the last value of a date is the value of the
    entry that has the date. *)
Lemma last_value_Some (o : list (list string)) d v :
  NoDup (series_dates o) →
  last_value d o = Some v ↔ ∃ b, b ∈ o ∧ b !! 0%nat = Some d ∧ b !! 1%nat = Some v.
Proof.
  induction o as [|b0 o IH] using rev_ind; intros Hnd.
  - split; [done|]. intros (b & Hb & _). by apply elem_of_nil in Hb.
  - unfold series_dates in Hnd. rewrite fmap_app in Hnd.
    apply NoDup_app in Hnd as (Hnd & Hdisj & _). specialize (IH Hnd).
    rewrite last_value_snoc. case_decide as Hb0.
    + split.
      * intros Hv. exists b0. split; [|done]. apply elem_of_app. right. left.
      * intros (b & Hb & Hd & Hv). apply elem_of_app in Hb as [Hb|Hb].
        -- exfalso. apply (Hdisj (Some d)).
           ++ apply list_elem_of_fmap. eauto.
           ++ simpl. rewrite Hb0. left.
        -- apply list_elem_of_singleton in Hb as ->. done.
    + rewrite IH. split.
      * intros (b & Hb & Hd & Hv). exists b. split; [|done]. apply elem_of_app. by left.
      * intros (b & Hb & Hd & Hv). apply elem_of_app in Hb as [Hb|Hb]; [eauto|].
        apply list_elem_of_singleton in Hb as ->. done.
Qed.

End LastWins.

(** X14.  The join of two series whose entries have a date and a value,
    repeated dates or not: the result has the record of every incoming
    entry, in order; an outgoing value goes to the first record of its date
    only, and of several outgoing entries with one date the last one
    stays. *)
Theorem join_of_well_formed_series (incoming outgoing : list (list string)) :
  Forall well_formed incoming → Forall well_formed outgoing →
  Bandwidth.join incoming outgoing
  = Some (imap (joined_record incoming outgoing) incoming).
Proof. apply join_well_formed. Qed.

Lemma join_of_well_formed_series_witness :
  Bandwidth.join [["d"; "1"]; ["e"; "2"]; ["d"; "3"]] [["d"; "10"]; ["f"; "20"]; ["d"; "30"]]
  = Some [<["outgoing" := "30"]> (incoming_record "d" "1");
          incoming_record "e" "2"; incoming_record "d" "3"].
Proof.
  rewrite (join_of_well_formed_series
             [["d"; "1"]; ["e"; "2"]; ["d"; "3"]] [["d"; "10"]; ["f"; "20"]; ["d"; "30"]]).
  - vm_compute. reflexivity.
  - repeat constructor.
  - repeat constructor.
Defined.

(** X15.  The order of the outgoing series does not matter as long as no
    date is repeated in it: the join with any rearrangement of such a
    series gives the same records. *)
Theorem join_outgoing_order (incoming outgoing outgoing' : list (list string)) :
  Forall well_formed incoming → Forall well_formed outgoing →
  NoDup (series_dates outgoing) → outgoing ≡ₚ outgoing' →
  Bandwidth.join incoming outgoing = Bandwidth.join incoming outgoing'.
Proof.
  intros Hin Hout Hnd Hperm.
  assert (Hout' : Forall well_formed outgoing') by by rewrite <- Hperm.
  assert (Hnd' : NoDup (series_dates outgoing'))
    by (unfold series_dates; by rewrite <- Hperm).
  rewrite !join_well_formed by done. f_equal. apply imap_ext. intros i a _.
  unfold joined_record. case_decide; [done|].
  assert (Heq : last_value (default "" (a !! 0%nat)) outgoing
                = last_value (default "" (a !! 0%nat)) outgoing').
  { apply option_eq. intros v. rewrite !last_value_Some by done.
    split; intros (b & Hb & Hrest); exists b; (split; [|done]).
    - by rewrite <- Hperm.
    - by rewrite Hperm. }
  by rewrite Heq.
Qed.

Lemma join_outgoing_order_witness :
  Bandwidth.join [["d"; "1"]; ["e"; "2"]] [["e"; "20"]; ["d"; "10"]]
  = Bandwidth.join [["d"; "1"]; ["e"; "2"]] [["d"; "10"]; ["e"; "20"]].
Proof.
  apply (join_outgoing_order [["d"; "1"]; ["e"; "2"]]
           [["e"; "20"]; ["d"; "10"]] [["d"; "10"]; ["e"; "20"]]).
  - repeat constructor.
  - repeat constructor.
  - vm_compute. apply NoDup_cons. split.
    + intros Hin. apply list_elem_of_singleton in Hin. discriminate Hin.
    + apply NoDup_singleton.
  - apply perm_swap.
Defined.

(** * The requests *)

(** X16.  Every integer argument goes out as its decimal text, which reads
    back: [ParseInt] returns the argument for the text, the request of
    [CreateServer] has it at [DCID], [VPSPLANID] and [OSID], those of
    [ChangeOSofServer] and [AttachISOtoServer] at [OSID] and [ISOID], and a
    response that echoes the text in an [int] field decodes to the
    argument. *)
Theorem integer_arguments_read_back (i : Z) :
  int64 i →
  strconv.ParseInt (fmt.Sprintf_int i) = (i, None)
  ∧ (∀ (name : string) (j k : Z) (options : option ServerOptions.t),
       CreateServer_values name i j k options !! "DCID" = Some [fmt.Sprintf_int i]
       ∧ CreateServer_values name j i k options !! "VPSPLANID" = Some [fmt.Sprintf_int i]
       ∧ CreateServer_values name j k i options !! "OSID" = Some [fmt.Sprintf_int i])
  ∧ (∀ (c_post : string → gmap string (list string) → option error) (id : string),
       ChangeOSofServer c_post id i
       = c_post "server/os_change" (<["OSID" := [fmt.Sprintf_int i]]> (<["SUBID" := [id]]> ∅))
       ∧ AttachISOtoServer c_post id i
         = c_post "server/iso_attach"
             (<["ISOID" := [fmt.Sprintf_int i]]> (<["SUBID" := [id]]> ∅)))
  ∧ (∀ (s s' : Server.t) (fields : gmap string value) (k : string)
       (proj : Server.t → number),
       (k, false, proj) ∈ numeric_table →
       fields !! k = Some (VString (fmt.Sprintf_int i)) →
       UnmarshalJSON_fields s fields = (s', None) →
       proj s' = Int i).
Proof.
  intros Hi. pose proof (ParseInt_FormatInt i Hi) as Hrt.
  split; [exact Hrt|]. split; [|split].
  - intros name j k [options|].
    + rewrite !CreateServer_values_when. repeat split; peel_values;
        by rewrite lookup_insert_eq.
    + unfold CreateServer_values. repeat split;
        rewrite ?lookup_insert_ne by done; by rewrite lookup_insert_eq.
  - intros c_post id. unfold ChangeOSofServer, AttachISOtoServer.
    split; by destruct (c_post _ _).
  - intros s s' fields k proj Hin Hk Hok.
    pose proof (decoded_number _ _ _ _ _ _ Hin Hok) as Hn.
    assert (Ht : numeric_text fields k = fmt.Sprintf_int i).
    { apply numeric_text_text; [done| |]; intros Heq; unfold fmt.Sprintf_int in Heq;
        rewrite Heq in Hrt; vm_compute in Hrt; discriminate Hrt. }
    unfold parse_number in Hn. rewrite Ht in Hn. unfold fmt.Sprintf_int in Hn.
    rewrite Hrt in Hn. simpl in Hn. by inversion Hn.
Qed.

Lemma integer_arguments_read_back_witness :
  strconv.ParseInt (fmt.Sprintf_int (-127)) = ((-127)%Z, None)
  ∧ fmt.Sprintf_int (-127) = "-127".
Proof.
  split; [|vm_compute; reflexivity].
  apply (integer_arguments_read_back (-127)). unfold int64. lia.
Defined.

(** ** The listings *)

Lemma collect_values {A : Type} (range : gmap string A → list (string * A))
    (m : gmap string A) :
  collect range m = snd <$> range m.
Proof.
  unfold collect.
  assert (H : ∀ (l : list (string * A)) acc,
            fold_left (λ xs kv, xs ++ [snd kv]) l acc = acc ++ (snd <$> l)).
  { induction l as [|kv l IH]; intros acc; simpl; [by rewrite app_nil_r|].
    rewrite IH. by rewrite <- app_assoc. }
  apply (H (range m) []).
Qed.

(** X17.  [GetServers], [GetServersByTag] and [ListOSforServer] return the
    elements of the decoded map, one for each key and without the keys, in
    the order in which the map happens to be visited; a failed request
    gives a nil list and the error of the request, as a failed
    [GetISOStatusofServer] gives the zero status and the error, whatever
    the request left in its target. *)
Theorem listings_return_every_element
    (OS : Type)
    (c_get : string → gmap string Server.t → gmap string Server.t * option error)
    (c_get_os : string → gmap string OS → gmap string OS * option error)
    (c_get_iso : string → ISOStatus.t → ISOStatus.t * option error)
    (range : gmap string Server.t → list (string * Server.t))
    (range_os : gmap string OS → list (string * OS))
    (tag id : string) :
  (∀ m : gmap string Server.t, range m ≡ₚ map_to_list m) →
  (∀ m : gmap string OS, range_os m ≡ₚ map_to_list m) →
  (∀ (m : gmap string Server.t) (err : error),
     (c_get "server/list" ∅ = (m, Some err) → GetServers c_get range = ([], Some err))
     ∧ (c_get ("server/list?tag=" +:+ tag) ∅ = (m, Some err) →
        GetServersByTag c_get range tag = ([], Some err)))
  ∧ (∀ (m : gmap string OS) (err : error),
       c_get_os ("server/os_change_list?SUBID=" +:+ id) ∅ = (m, Some err) →
       ListOSforServer OS c_get_os range_os id = ([], Some err))
  ∧ (∀ m : gmap string Server.t,
       (c_get "server/list" ∅ = (m, None) → lists m (GetServers c_get range))
       ∧ (c_get ("server/list?tag=" +:+ tag) ∅ = (m, None) →
          lists m (GetServersByTag c_get range tag)))
  ∧ (∀ m : gmap string OS,
       c_get_os ("server/os_change_list?SUBID=" +:+ id) ∅ = (m, None) →
       lists m (ListOSforServer OS c_get_os range_os id))
  ∧ (∀ (isoStatus : ISOStatus.t) (err : error),
       c_get_iso ("server/iso_status?SUBID=" +:+ id) ISOStatus.zero
       = (isoStatus, Some err) →
       GetISOStatusofServer c_get_iso id = (ISOStatus.zero, Some err)).
Proof.
  intros Hrange Hrange_os.
  unfold GetServers, GetServersByTag, ListOSforServer, lists.
  split; [|split; [|split; [|split]]].
  - intros m err. split; by intros ->.
  - intros m err. by intros ->.
  - intros m. split; intros ->; simpl; rewrite collect_values, Hrange; done.
  - intros m. intros ->. simpl. rewrite collect_values, Hrange_os. done.
  - intros isoStatus err. unfold GetISOStatusofServer. by intros ->.
Qed.

Lemma listings_return_every_element_witness :
  let m : gmap string Server.t :=
    <["576965" := Server.set_Name "a" Server.zero]>
      (<["576966" := Server.set_Name "b" Server.zero]> ∅) in
  lists m (GetServers (λ _ _, (m, None)) map_to_list)
  ∧ length (fst (GetServers (λ _ _, (m, None)) map_to_list)) = 2%nat.
Proof.
  intros m. split; [|vm_compute; reflexivity].
  apply (listings_return_every_element Server.t (λ _ _, (m, None)) (λ _ _, (m, None))
           (λ _ target, (target, None)) map_to_list map_to_list "" ""); reflexivity.
Defined.

(** * The user data on the wire *)

Section Base64.
Import base64.
#[local] Open Scope Z_scope.

Lemma get_lookup (s : string) : ∀ n : nat, String.get n s = list_ascii_of_string s !! n.
Proof. induction s as [|c s IH]; intros [|n]; simpl; auto. Qed.

Lemma encodeStd_NoDup : NoDup (list_ascii_of_string encodeStd).
Proof. apply (bool_decide_unpack _). vm_compute. exact I. Qed.

Lemma encodeStd_no_padding : "="%char ∉ list_ascii_of_string encodeStd.
Proof. apply (bool_decide_unpack _). vm_compute. exact I. Qed.

Lemma land_63 v : Z.land v 63 = v mod 64.
Proof. change 63 with (Z.ones 6). by rewrite Z.land_ones. Qed.

(** The character of a 6-bit value is a character of the alphabet, which
    the padding is not, and it determines the value. *)
Lemma enc_lookup v :
  list_ascii_of_string encodeStd !! Z.to_nat (v mod 64) = Some (enc v).
Proof.
  unfold enc. rewrite land_63, get_lookup.
  pose proof (Z.mod_pos_bound v 64 ltac:(lia)) as Hb.
  destruct (lookup_lt_is_Some_2 (list_ascii_of_string encodeStd) (Z.to_nat (v mod 64)))
    as [c Hc]; [|by rewrite Hc].
  change (length (list_ascii_of_string encodeStd)) with 64%nat. lia.
Qed.

Lemma enc_no_padding v : enc v ≠ "="%char.
Proof.
  intros Heq. apply encodeStd_no_padding. rewrite <- Heq.
  eapply list_elem_of_lookup_2, enc_lookup.
Qed.

Lemma enc_inj v w : enc v = enc w → v mod 64 = w mod 64.
Proof.
  intros Heq. pose proof (enc_lookup v) as Hv. pose proof (enc_lookup w) as Hw.
  rewrite Heq in Hv.
  pose proof (NoDup_lookup _ _ _ _ encodeStd_NoDup Hv Hw) as Hn.
  pose proof (Z.mod_pos_bound v 64 ltac:(lia)).
  pose proof (Z.mod_pos_bound w 64 ltac:(lia)). lia.
Qed.

(** [x<<k | y] is [x * 2^k + y] when [y] has [k] bits. *)
Lemma lor_shiftl_add x y k :
  0 ≤ k → 0 ≤ y < 2 ^ k → Z.lor (Z.shiftl x k) y = x * 2 ^ k + y.
Proof.
  intros Hk Hy. rewrite Z.shiftl_mul_pow2 by done. symmetry.
  apply Z.add_nocarry_lor. apply Z.bits_inj'. intros n Hn.
  rewrite Z.land_spec, Z.bits_0.
  destruct (Z.lt_ge_cases n k) as [Hlt|Hge].
  - by rewrite Z.mul_pow2_bits_low.
  - destruct (Z.eq_dec y 0) as [->|Hne]; [by rewrite Z.bits_0, andb_false_r|].
    rewrite (Z.bits_above_log2 y n), andb_false_r; [done|lia|].
    apply Z.lt_le_trans with k; [|done]. apply Z.log2_lt_pow2; lia.
Qed.

Lemma group_value a b c :
  is_byte a → is_byte b → is_byte c →
  Z.lor (Z.lor (Z.shiftl a 16) (Z.shiftl b 8)) c = a * 65536 + b * 256 + c.
Proof.
  unfold is_byte. intros Ha Hb Hc.
  replace (Z.shiftl a 16) with (Z.shiftl (Z.shiftl a 8) 8)
    by (rewrite Z.shiftl_shiftl by lia; done).
  rewrite <- Z.shiftl_lor, (lor_shiftl_add a b 8) by (change (2 ^ 8) with 256; lia).
  rewrite lor_shiftl_add by (change (2 ^ 8) with 256; lia).
  change (2 ^ 8) with 256. lia.
Qed.

Lemma pair_value a b :
  is_byte a → is_byte b →
  Z.lor (Z.shiftl a 16) (Z.shiftl b 8) = a * 65536 + b * 256.
Proof.
  intros Ha Hb. pose proof (group_value a b 0 Ha Hb ltac:(unfold is_byte; lia)) as H.
  rewrite Z.lor_0_r in H. lia.
Qed.

Lemma enc_shiftr_inj v w n :
  0 ≤ n → enc (Z.shiftr v n) = enc (Z.shiftr w n) → (v / 2 ^ n) mod 64 = (w / 2 ^ n) mod 64.
Proof. intros Hn Heq%enc_inj. by rewrite !Z.shiftr_div_pow2 in Heq. Qed.

Lemma sextets_high v w :
  0 ≤ v < 2 ^ 24 → 0 ≤ w < 2 ^ 24 →
  (v / 2 ^ 18) mod 64 = (w / 2 ^ 18) mod 64 →
  (v / 2 ^ 12) mod 64 = (w / 2 ^ 12) mod 64 →
  v / 2 ^ 12 = w / 2 ^ 12.
Proof.
  change (2 ^ 24) with 16777216. change (2 ^ 18) with 262144. change (2 ^ 12) with 4096.
  intros Hv Hw H1 H2. Z.div_mod_to_equations. lia.
Qed.

Lemma sextets_middle v w :
  0 ≤ v < 2 ^ 24 → 0 ≤ w < 2 ^ 24 →
  v / 2 ^ 12 = w / 2 ^ 12 → (v / 2 ^ 6) mod 64 = (w / 2 ^ 6) mod 64 →
  v / 2 ^ 6 = w / 2 ^ 6.
Proof.
  change (2 ^ 24) with 16777216. change (2 ^ 12) with 4096. change (2 ^ 6) with 64.
  intros Hv Hw H1 H2. Z.div_mod_to_equations. lia.
Qed.

Lemma sextets_low v w :
  v / 2 ^ 6 = w / 2 ^ 6 → v mod 64 = w mod 64 → v = w.
Proof.
  change (2 ^ 6) with 64. intros H1 H2. Z.div_mod_to_equations. lia.
Qed.

Ltac padding H :=
  first [by apply enc_no_padding in H | symmetry in H; by apply enc_no_padding in H].

(** The encoding of a sequence of bytes determines the sequence. *)
Lemma Encode_inj : ∀ (n : nat) (l l' : list Z),
  (length l ≤ n)%nat → Forall is_byte l → Forall is_byte l' →
  Encode l = Encode l' → l = l'.
Proof.
  induction n as [|n IH]; intros l l' Hlen Hl Hl' Heq.
  { destruct l; [|simpl in Hlen; lia].
    destruct l' as [|a' [|b' [|c' rest']]]; [done|done|done|done]. }
  destruct l as [|a [|b [|c rest]]]; destruct l' as [|a' [|b' [|c' rest']]];
    try discriminate Heq; cbn [Encode] in Heq; cbv zeta in Heq;
    repeat match goal with
    | H : Forall is_byte (_ :: _) |- _ => apply Forall_cons in H as [? H]
    end.
  - done.
  - injection Heq as E1 E2.
    apply (enc_shiftr_inj _ _ 18) in E1; [|lia]. apply (enc_shiftr_inj _ _ 12) in E2; [|lia].
    rewrite !Z.shiftl_mul_pow2 in * by lia. change (2 ^ 16) with 65536 in *.
    unfold is_byte in *.
    pose proof (sextets_high (a * 65536) (a' * 65536)
                  ltac:(change (2 ^ 24) with 16777216; lia)
                  ltac:(change (2 ^ 24) with 16777216; lia) E1 E2) as Hh.
    change (2 ^ 12) with 4096 in Hh. f_equal. Z.div_mod_to_equations. lia.
  - injection Heq as _ _ E3. padding E3.
  - injection Heq as _ _ E3. padding E3.
  - injection Heq as _ _ E3. padding E3.
  - injection Heq as E1 E2 E3.
    apply (enc_shiftr_inj _ _ 18) in E1; [|lia]. apply (enc_shiftr_inj _ _ 12) in E2; [|lia].
    apply (enc_shiftr_inj _ _ 6) in E3; [|lia].
    rewrite !pair_value in * by done. unfold is_byte in *.
    pose proof (sextets_high (a * 65536 + b * 256) (a' * 65536 + b' * 256)
                  ltac:(change (2 ^ 24) with 16777216; lia)
                  ltac:(change (2 ^ 24) with 16777216; lia) E1 E2) as Hh.
    pose proof (sextets_middle (a * 65536 + b * 256) (a' * 65536 + b' * 256)
                  ltac:(change (2 ^ 24) with 16777216; lia)
                  ltac:(change (2 ^ 24) with 16777216; lia) Hh E3) as Hm.
    change (2 ^ 6) with 64 in Hm.
    assert (a = a' ∧ b = b') as [-> ->] by (Z.div_mod_to_equations; lia). done.
  - injection Heq as _ _ _ E4. padding E4.
  - injection Heq as _ _ E3. padding E3.
  - injection Heq as _ _ _ E4. padding E4.
  - injection Heq as E1 E2 E3 E4 Hrest.
    apply (enc_shiftr_inj _ _ 18) in E1; [|lia]. apply (enc_shiftr_inj _ _ 12) in E2; [|lia].
    apply (enc_shiftr_inj _ _ 6) in E3; [|lia]. apply enc_inj in E4.
    rewrite !group_value in * by done. unfold is_byte in *.
    pose proof (sextets_high (a * 65536 + b * 256 + c) (a' * 65536 + b' * 256 + c')
                  ltac:(change (2 ^ 24) with 16777216; lia)
                  ltac:(change (2 ^ 24) with 16777216; lia) E1 E2) as Hh.
    pose proof (sextets_middle (a * 65536 + b * 256 + c) (a' * 65536 + b' * 256 + c')
                  ltac:(change (2 ^ 24) with 16777216; lia)
                  ltac:(change (2 ^ 24) with 16777216; lia) Hh E3) as Hm.
    pose proof (sextets_low _ _ Hm E4) as Hv.
    assert (a = a' ∧ b = b' ∧ c = c') as (-> & -> & ->) by lia.
    do 3 f_equal. apply (IH rest rest'); [simpl in Hlen; lia|done|done|done].
Qed.

Lemma byte_is_byte c : is_byte (strconv.byte c).
Proof.
  unfold is_byte, strconv.byte. pose proof (N_ascii_bounded c). lia.
Qed.

Lemma byte_inj c c' : strconv.byte c = strconv.byte c' → c = c'.
Proof.
  unfold strconv.byte. intros H%N2Z.inj.
  by rewrite <- (ascii_N_embedding c), <- (ascii_N_embedding c'), H.
Qed.

Lemma EncodeToString_inj s s' : EncodeToString s = EncodeToString s' → s = s'.
Proof.
  unfold EncodeToString. intros H%(Encode_inj (length (map strconv.byte (list_ascii_of_string s)))).
  - rewrite <- (string_of_list_ascii_of_string s), <- (string_of_list_ascii_of_string s').
    f_equal. revert H. generalize (list_ascii_of_string s) (list_ascii_of_string s').
    induction l as [|c l IH]; intros [|c' l']; simpl; intros H; try done.
    injection H as Hc Hl. apply byte_inj in Hc as ->. f_equal. by apply IH.
  - done.
  - apply Forall_forall. intros x Hx. apply list_elem_of_In, in_map_iff in Hx as (c & <- & _).
    apply byte_is_byte.
  - apply Forall_forall. intros x Hx. apply list_elem_of_In, in_map_iff in Hx as (c & <- & _).
    apply byte_is_byte.
Qed.

End Base64.

Lemma lookup_userdata name regionID planID osID options :
  CreateServer_values name regionID planID osID (Some options) !! "userdata"
  = if decide (ServerOptions.UserData options = "") then None
    else Some [base64.EncodeToString (ServerOptions.UserData options)].
Proof.
  rewrite CreateServer_values_when. peel_values.
  rewrite lookup_when_Add_eq by (peel_values; apply lookup_empty).
  apply negb_eqb_empty.
Qed.

(** X18.  The [userdata] parameter of [CreateServer] loses nothing of the
    user data: two calls that send the same [userdata], one of them with
    user data that is not empty, were given the same user data. *)
Theorem userdata_determines_UserData
    (name name' : string) (regionID planID osID regionID' planID' osID' : Z)
    (options options' : ServerOptions.t) :
  ServerOptions.UserData options ≠ "" →
  CreateServer_values name regionID planID osID (Some options) !! "userdata"
  = CreateServer_values name' regionID' planID' osID' (Some options') !! "userdata" →
  ServerOptions.UserData options = ServerOptions.UserData options'.
Proof.
  intros Hne. rewrite !lookup_userdata. rewrite decide_False by done.
  case_decide; [done|]. intros Heq. injection Heq as Heq.
  by apply EncodeToString_inj.
Qed.

Lemma userdata_determines_UserData_witness :
  let options := ServerOptions.mk "" 0 0 "#!/bin/sh" "" "" false false false false in
  CreateServer_values "a" 1 2 3 (Some options) !! "userdata" = Some ["IyEvYmluL3No"]
  ∧ ServerOptions.UserData options = ServerOptions.UserData options.
Proof.
  intros options. split; [vm_compute; reflexivity|].
  apply (userdata_determines_UserData "a" "b" 1 2 3 4 5 6 options options);
    [discriminate|reflexivity].
Defined.

(** * Texts of infinities and of NaN in the numeric fields *)

Section Special.
Import strconv.

Lemma same_ignoring_case_cons t p (c : ascii) :
  same_ignoring_case t (String c p) →
  ∃ c' t', t = String c' t' ∧ fold_byte c' = byte c ∧ same_ignoring_case t' p.
Proof.
  unfold same_ignoring_case. destruct t as [|c' t']; simpl; [done|].
  intros H. injection H as Hc Ht. eauto.
Qed.

Lemma same_ignoring_case_nil t : same_ignoring_case t "" → t = "".
Proof. unfold same_ignoring_case. by destruct t. Qed.

(** A text that is a prefix of [p ++ q] up to case, and ends there. *)
Lemma commonPrefixLen_same p : ∀ t q,
  same_ignoring_case t p →
  commonPrefixLenIgnoreCase t (p +:+ q) = String.length p
  ∧ String.length t = String.length p.
Proof.
  induction p as [|c p IH]; intros t q H.
  - apply same_ignoring_case_nil in H as ->. by destruct q.
  - apply same_ignoring_case_cons in H as (c' & t' & -> & Hc & Ht).
    rewrite append_cons. simpl. unfold fold_byte in Hc. rewrite Hc, Z.eqb_refl.
    destruct (IH t' q Ht) as [-> ->]. done.
Qed.

Lemma fold_byte_cases (c : ascii) :
  (fold_byte c = byte "i" → c = "i" ∨ c = "I")%char
  ∧ (fold_byte c = byte "n" → c = "n" ∨ c = "N")%char
  ∧ (fold_byte c = byte "+" → c = "+")%char
  ∧ (fold_byte c = byte "-" → c = "-")%char.
Proof.
  destruct c as [[] [] [] [] [] [] [] []]; vm_compute;
    repeat split; intros H; try discriminate H; auto.
Qed.

Lemma ParseFloat_inf neg sgn t :
  (sgn = "" ∧ neg = false ∨ sgn = "+" ∧ neg = false ∨ sgn = "-" ∧ neg = true) →
  same_ignoring_case t "inf" ∨ same_ignoring_case t "infinity" →
  ParseFloat (sgn +:+ t) = (S754_infinity neg, None)
  ∧ ParseInt (sgn +:+ t) = (0%Z, Some (NumError "ParseInt" (sgn +:+ t) ErrSyntax)).
Proof.
  intros Hsgn Ht.
  assert (Hn : (commonPrefixLenIgnoreCase t "infinity" = 3%nat ∧ String.length t = 3%nat)
               ∨ (commonPrefixLenIgnoreCase t "infinity" = 8%nat ∧ String.length t = 8%nat)).
  { destruct Ht as [Ht|Ht].
    - left. apply (commonPrefixLen_same "inf" t "inity" Ht).
    - right. pose proof (commonPrefixLen_same "infinity" t "" Ht) as H.
      by rewrite append_nil_r in H. }
  assert (Hi : ∃ c t', t = String c t' ∧ (c = "i" ∨ c = "I")%char).
  { destruct Ht as [Ht|Ht]; apply same_ignoring_case_cons in Ht as (c & t' & -> & Hc & _);
      exists c, t'; (split; [done|]); by apply fold_byte_cases. }
  assert (Hinf : special_inf neg (String.length sgn) t
                 = Some (S754_infinity neg, (String.length sgn + String.length t)%nat)).
  { unfold special_inf. by destruct Hn as [[-> ->]|[-> ->]]. }
  destruct Hi as (c & t' & -> & Hc). split.
  - unfold ParseFloat.
    assert (Hsp : special (sgn +:+ String c t')
                  = Some (S754_infinity neg, String.length (sgn +:+ String c t'))).
    { rewrite length_append.
      destruct Hsgn as [[-> ->]|[[-> ->]|[-> ->]]].
      - rewrite append_nil_l. unfold special. destruct Hc as [-> | ->]; simpl orb; exact Hinf.
      - rewrite append_cons, append_nil_l. exact Hinf.
      - rewrite append_cons, append_nil_l. exact Hinf. }
    rewrite Hsp. by rewrite Nat.eqb_refl.
  - destruct Hsgn as [[-> ->]|[[-> ->]|[-> ->]]];
      rewrite ?append_cons, ?append_nil_l; destruct Hc as [-> | ->]; reflexivity.
Qed.

Lemma ParseFloat_nan t :
  same_ignoring_case t "nan" →
  ParseFloat t = (S754_nan, None)
  ∧ ParseInt t = (0%Z, Some (NumError "ParseInt" t ErrSyntax)).
Proof.
  intros Ht. destruct (commonPrefixLen_same "nan" t "" Ht) as [Hn Hlen].
  rewrite append_nil_r in Hn.
  apply same_ignoring_case_cons in Ht as (c & t' & -> & Hc & _).
  apply fold_byte_cases in Hc. split.
  - unfold ParseFloat.
    assert (Hsp : special (String c t') = Some (S754_nan, 3%nat)).
    { unfold special. rewrite Hn. by destruct Hc as [-> | ->]. }
    rewrite Hsp, Hlen. done.
  - destruct Hc as [-> | ->]; reflexivity.
Qed.

Lemma same_ignoring_case_signed t p (c : ascii) :
  (c = "+" ∨ c = "-")%char → same_ignoring_case t (String c p) →
  ∃ t', t = String c t' ∧ same_ignoring_case t' p.
Proof.
  intros Hc (c' & t' & -> & Hc' & Ht)%same_ignoring_case_cons.
  exists t'. split; [|done]. f_equal.
  destruct Hc as [-> | ->]; by apply fold_byte_cases.
Qed.

Lemma special_texts_parse t p f :
  (p, f) ∈ special_texts → same_ignoring_case t p →
  ParseFloat t = (f, None)
  ∧ ParseInt t = (0%Z, Some (NumError "ParseInt" t ErrSyntax))
  ∧ t ≠ "" ∧ t ≠ "<nil>".
Proof.
  intros Hin Ht.
  assert (Hne : t ≠ "" ∧ t ≠ "<nil>").
  { unfold special_texts in Hin.
    repeat (apply elem_of_cons in Hin as [Hin|Hin]; [inversion Hin; subst; clear Hin|]);
      [..|by apply elem_of_nil in Hin];
      apply same_ignoring_case_cons in Ht as (c & t' & -> & Hc & _);
      (split; [done|]); intros Heq; injection Heq as -> _; vm_compute in Hc; discriminate Hc. }
  destruct Hne as [Hne Hnil].
  enough (Hp : ParseFloat t = (f, None)
               ∧ ParseInt t = (0%Z, Some (NumError "ParseInt" t ErrSyntax)))
    by (destruct Hp; done).
  unfold special_texts in Hin.
  repeat (apply elem_of_cons in Hin as [Hin|Hin]; [inversion Hin; subst; clear Hin|]);
    [..|by apply elem_of_nil in Hin].
  - by apply ParseFloat_nan.
  - apply (ParseFloat_inf false "" t); auto.
  - apply same_ignoring_case_signed in Ht as (t' & -> & Ht); [|by left].
    apply (ParseFloat_inf false "+" t'); auto.
  - apply same_ignoring_case_signed in Ht as (t' & -> & Ht); [|by right].
    apply (ParseFloat_inf true "-" t'); auto.
  - apply (ParseFloat_inf false "" t); auto.
  - apply same_ignoring_case_signed in Ht as (t' & -> & Ht); [|by left].
    apply (ParseFloat_inf false "+" t'); auto.
  - apply same_ignoring_case_signed in Ht as (t' & -> & Ht); [|by right].
    apply (ParseFloat_inf true "-" t'); auto.
Qed.

End Special.

(** X19.  A [float64] field takes the texts of the values that are no
    numbers: a string that is [nan], [inf] or [infinity] in any case, the
    last two with an optional sign, decodes without error to NaN or to the
    infinity of that sign.  An [int] field rejects the same texts with a
    syntax error. *)
Theorem numeric_field_of_special_text
    (s : Server.t) (fields : gmap string value) (k : string) (is_float : bool)
    (proj : Server.t → number) (t p : string) (f : spec_float) :
  (k, is_float, proj) ∈ numeric_table →
  (p, f) ∈ special_texts → same_ignoring_case t p →
  fields !! k = Some (VString t) →
  if is_float
  then coercion_error fields (k, true) = None
       ∧ (∀ s' : Server.t, UnmarshalJSON_fields s fields = (s', None) → proj s' = Float f)
  else coercion_error fields (k, false) = Some (NumError "ParseInt" t ErrSyntax)
       ∧ is_Some (snd (UnmarshalJSON_fields s fields)).
Proof.
  intros Hin Hp Ht Hk.
  destruct (special_texts_parse t p f Hp Ht) as (Hfloat & Hint & Hne & Hnil).
  pose proof (numeric_text_text fields k t Hk Hne Hnil) as Htext.
  destruct is_float.
  - split.
    + unfold coercion_error. simpl. by rewrite Htext, Hfloat.
    + intros s' Hok. pose proof (decoded_number _ _ _ _ _ _ Hin Hok) as Hn.
      unfold parse_number in Hn. rewrite Htext, Hfloat in Hn. simpl in Hn.
      by inversion Hn.
  - assert (Herr : coercion_error fields (k, false)
                   = Some (NumError "ParseInt" t ErrSyntax)).
    { unfold coercion_error. simpl. by rewrite Htext, Hint. }
    split; [done|].
    eapply coercion_error_fails; [|exact Herr]. by eapply numeric_table_fields.
Qed.

Lemma numeric_field_of_special_text_witness :
  coercion_error (<["pending_charges" := VString "-Infinity"]> ∅) ("pending_charges", true)
  = None
  ∧ (∀ s' : Server.t,
       UnmarshalJSON_fields Server.zero (<["pending_charges" := VString "-Infinity"]> ∅)
       = (s', None) →
       Float (Server.PendingCharges s') = Float (S754_infinity true)).
Proof.
  apply (numeric_field_of_special_text Server.zero
           (<["pending_charges" := VString "-Infinity"]> ∅) "pending_charges" true
           (λ s, Float (Server.PendingCharges s)) "-Infinity" "-infinity"
           (S754_infinity true)).
  - do 3 apply list_elem_of_further. apply list_elem_of_here.
  - do 6 apply list_elem_of_further. apply list_elem_of_here.
  - vm_compute. reflexivity.
  - reflexivity.
Defined.

(** * The operations that post an action *)

Lemma post_result (c_post : string → gmap string (list string) → option error)
    (path : string) (values : gmap string (list string)) :
  match c_post path values with
  | Some err => Some err
  | None => None
  end = c_post path values.
Proof. by destruct (c_post path values). Qed.

(** Of requests to different paths, a transport that fails for one path
    fails at most one. *)
Lemma at_most_one_error (p : string) (l : list (string * option error)) :
  NoDup (fst <$> l) →
  (∀ q r, (q, r) ∈ l → is_Some r → q = p) →
  (length (filter is_Some (snd <$> l)) ≤ 1)%nat.
Proof.
  induction l as [|[q r] l IH]; intros Hnd Hp; [simpl; lia|].
  simpl in Hnd. apply NoDup_cons in Hnd as [Hq Hnd].
  rewrite fmap_cons, filter_cons. simpl. case_decide as Hr.
  - assert (Hrest : filter is_Some (snd <$> l) = []).
    { destruct (filter is_Some (snd <$> l)) as [|r' rest] eqn:Hf; [done|]. exfalso.
      assert (Hr' : r' ∈ filter is_Some (snd <$> l)) by (rewrite Hf; left).
      apply list_elem_of_filter in Hr' as [Hs Hr'].
      apply list_elem_of_fmap in Hr' as ([q' r''] & -> & Hin). simpl in Hs.
      apply Hq. apply list_elem_of_fmap. exists (q', r''). split; [|done]. simpl.
      rewrite (Hp q r (list_elem_of_here _ _) Hr).
      symmetry. apply (Hp q' r''); [by apply list_elem_of_further|done]. }
    rewrite Hrest. simpl. lia.
  - apply IH; [done|]. intros q' r' Hin. apply Hp. by apply list_elem_of_further.
Qed.

(** X20.  No two of the nine operations that post an action share a path:
    when the transport fails for exactly one path, whatever the values, at
    most one of the nine operations on a server returns an error. *)
Theorem actions_use_distinct_paths
    (c_post : string → gmap string (list string) → option error)
    (p id name : string) (osID isoID : Z) :
  (∀ (path : string) (values : gmap string (list string)),
     is_Some (c_post path values) ↔ path = p) →
  (length (filter is_Some
             [RenameServer c_post id name; StartServer c_post id; HaltServer c_post id;
              RebootServer c_post id; ReinstallServer c_post id;
              ChangeOSofServer c_post id osID; AttachISOtoServer c_post id isoID;
              DetachISOfromServer c_post id; DeleteServer c_post id]) ≤ 1)%nat.
Proof.
  intros H.
  unfold RenameServer, StartServer, HaltServer, RebootServer, ReinstallServer,
    ChangeOSofServer, AttachISOtoServer, DetachISOfromServer, DeleteServer.
  cbv zeta. rewrite !post_result.
  repeat match goal with
  | |- context [c_post ?q (<[?k := ?x]> ?m)] => generalize (<[k := x]> m); intro
  end.
  match goal with
  | |- context [filter is_Some
                  [c_post ?q1 ?v1; c_post ?q2 ?v2; c_post ?q3 ?v3; c_post ?q4 ?v4;
                   c_post ?q5 ?v5; c_post ?q6 ?v6; c_post ?q7 ?v7; c_post ?q8 ?v8;
                   c_post ?q9 ?v9]] =>
      apply (at_most_one_error p
               [(q1, c_post q1 v1); (q2, c_post q2 v2); (q3, c_post q3 v3);
                (q4, c_post q4 v4); (q5, c_post q5 v5); (q6, c_post q6 v6);
                (q7, c_post q7 v7); (q8, c_post q8 v8); (q9, c_post q9 v9)])
  end.
  - apply (bool_decide_unpack _). vm_compute. exact I.
  - intros q r Hin Hr.
    repeat (apply elem_of_cons in Hin as [Hin|Hin];
            [inversion Hin; subst q r; by apply (H _ _) in Hr|]).
    by apply elem_of_nil in Hin.
Qed.

Lemma actions_use_distinct_paths_witness :
  let c_post : string → gmap string (list string) → option error :=
    λ path _, if decide (path = "server/halt") then Some (OtherError "503") else None in
  (length (filter is_Some
             [RenameServer c_post "1" "a"; StartServer c_post "1"; HaltServer c_post "1";
              RebootServer c_post "1"; ReinstallServer c_post "1";
              ChangeOSofServer c_post "1" 127; AttachISOtoServer c_post "1" 5;
              DetachISOfromServer c_post "1"; DeleteServer c_post "1"]) ≤ 1)%nat
  ∧ HaltServer c_post "1" = Some (OtherError "503").
Proof.
  intros c_post. split; [|reflexivity].
  apply (actions_use_distinct_paths c_post "server/halt" "1" "a" 127 5).
  intros path values. unfold c_post. case_decide; split; done.
Defined.

(** * What a failed decode leaves in the receiver *)



(** * The texts that an integer field takes *)

(** X22.  An integer field decodes without an error exactly when its text,
    ["0"] standing for the empty text and for ["<nil>"], is an optional sign
    and one or more decimal digits that write a number within the limits of
    an [int64]. *)
Theorem integer_field_accepts_iff (fields : gmap string value) (k : string) :
  coercion_error fields (k, false) = None
  ↔ ∃ (sgn : string) (d : Z) (ds : list Z),
      sgn ∈ [""; "+"; "-"]
      ∧ Forall is_decimal_digit (d :: ds)
      ∧ numeric_text fields k = sgn +:+ strconv.string_of_digits (d :: ds)
      ∧ int64 (signed sgn (undigits (d :: ds))).
Proof.
  unfold coercion_error. cbn [fst snd]. split.
  - destruct (strconv.ParseInt (numeric_text fields k)) as [n o] eqn:Hparse.
    cbn [snd]. intros ->.
    pose proof Hparse as Hinv.
    apply ParseInt_ok_inv in Hinv as (sgn & neg & d & ds & Hsgn & Hall & Ht & _).
    assert (Hin : sgn ∈ [""; "+"; "-"]).
    { destruct Hsgn as [[-> _]|[[-> _]|[-> _]]].
      - apply list_elem_of_here.
      - apply list_elem_of_further, list_elem_of_here.
      - do 2 apply list_elem_of_further. apply list_elem_of_here. }
    exists sgn, d, ds. repeat split; [done|done|done|..];
      rewrite Ht, (ParseInt_decimal sgn d ds Hin Hall) in Hparse;
      case_bool_decide as Hrange; [apply Hrange|done|apply Hrange|done].
  - intros (sgn & d & ds & Hin & Hall & -> & Hrange).
    rewrite (ParseInt_decimal sgn d ds Hin Hall).
    by rewrite bool_decide_true.
Qed.
